(** * The PDF match-report pipeline of the volleyball console, embedded in Rocq

    The development follows the source of the report reader
    (the [PdfReader] component): line reconstruction ([groupLines]),
    segmentation ([extractPlayers], [parsePlayerLine], [detectTeamHeader]),
    column inference ([inferColumnAnchors]), the token-to-column mapper
    ([mapTokensToColumns]), the date/time detectors and the payload grouping
    ([groupPlayersByTeam]).

    Conventions of the embedding:
    - a JavaScript string is a [string] whose characters are code units
      below 256 (the Latin-1 range, which holds every character the
      source's regular expressions name: [À], [Ú], [ú], [ÿ], [á]);
    - a JavaScript number that carries a coordinate is a rational [Q]
      (finite values only; [Infinity] is the [None] of an [option Q]);
      jersey numbers, pages, indexes and set counts are integers [Z];
    - [null]/[undefined] results are [None];
    - regular expressions are values of a small backtracking matcher
      ([Re.re]) written after the ECMAScript matching rules, so that each
      pattern of the source is transcribed as it stands. *)

From Stdlib Require Import ZArith QArith Qabs String Ascii List Lia.
From Stdlib Require Import Permutation Sorted DecimalString Lqa.
From stdpp Require Import base list strings.

Local Open Scope string_scope.

(* ------------------------------------------------------------------ *)
(** ** Characters and strings *)

Definition code (c : ascii) : N := N_of_ascii c.

Definition inRange (lo hi : N) (c : ascii) : bool :=
  (N.leb lo (code c)) && (N.leb (code c) hi).

(** [\d] *)
Definition isDigit (c : ascii) : bool := inRange 48 57 c.
(** [A-Z] and [a-z] *)
Definition isUpperAZ (c : ascii) : bool := inRange 65 90 c.
Definition isLowerAZ (c : ascii) : bool := inRange 97 122 c.
Definition isLetterAZ (c : ascii) : bool := isUpperAZ c || isLowerAZ c.
(** [\s] (and the characters [trim] removes), within Latin-1:
    TAB, LF, VT, FF, CR, space and the no-break space. *)
Definition isSpace (c : ascii) : bool :=
  inRange 9 13 c || N.eqb (code c) 32 || N.eqb (code c) 160.
(** [\w], used by the word boundary [\b] *)
Definition isWord (c : ascii) : bool :=
  isLetterAZ c || isDigit c || N.eqb (code c) 95.

(** [String.prototype.toLowerCase] on one Latin-1 code unit: [A-Z] and
    [À-Þ] without the multiplication sign move up by 32. *)
Definition toLowerChar (c : ascii) : ascii :=
  if isUpperAZ c || (inRange 192 222 c && negb (N.eqb (code c) 215))
  then ascii_of_N (code c + 32) else c.

Fixpoint toLowerCase (s : string) : string :=
  match s with
  | EmptyString => EmptyString
  | String c s' => String (toLowerChar c) (toLowerCase s')
  end.

Definition isEmpty (s : string) : bool :=
  match s with EmptyString => true | _ => false end.

Fixpoint trimStart (s : string) : string :=
  match s with
  | EmptyString => EmptyString
  | String c s' => if isSpace c then trimStart s' else s
  end.

Fixpoint trimEnd (s : string) : string :=
  match s with
  | EmptyString => EmptyString
  | String c s' =>
      let r := trimEnd s' in
      if isSpace c && isEmpty r then EmptyString else String c r
  end.

Definition trim (s : string) : string := trimEnd (trimStart s).

(** [s.includes(sub)] *)
Fixpoint includes (sub s : string) : bool :=
  if String.prefix sub s then true
  else match s with
       | EmptyString => false
       | String _ s' => includes sub s'
       end.

(** [parts.join(sep)] *)
Definition join (sep : string) (parts : list string) : string :=
  String.concat sep parts.

(** [s.slice(0, n)] *)
Definition slice0 (n : nat) (s : string) : string := String.substring 0 n s.

(** [.filter(Boolean)] on an array of strings *)
Definition filterNonEmpty (l : list string) : list string :=
  List.filter (fun s => negb (isEmpty s)) l.

(** [String(n)] for an integer. *)
Definition stringOfZ (n : Z) : string := NilZero.string_of_int (Z.to_int n).

(** [String(value).padStart(2, '0')] *)
Definition pad (value : Z) : string :=
  let s := stringOfZ value in
  match String.length s with
  | 0%nat => "00" ++ s
  | 1%nat => "0" ++ s
  | _ => s
  end.

Fixpoint allChars (p : ascii -> bool) (s : string) : bool :=
  match s with
  | EmptyString => true
  | String c s' => p c && allChars p s'
  end.

Fixpoint digitsValue (acc : Z) (s : string) : Z :=
  match s with
  | EmptyString => acc
  | String c s' => digitsValue (10 * acc + (Z.of_N (code c) - 48)) s'
  end.

(** [Number(s)] on the strings the pipeline hands to it: captures of the
    patterns below, made of decimal digits and, in a time, commas.
    The empty string is [0], a run of digits is its value and anything
    else is [NaN], the [None] here. *)
Definition Number_ (s : string) : option Z :=
  if allChars isDigit s then Some (digitsValue 0 s) else None.

(* ------------------------------------------------------------------ *)
(** ** Regular expressions *)

Module Re.

(** The patterns of the source use character classes, sequence,
    alternation, greedy quantifiers, one capture group whose text is read,
    [^], [$] and [\b]. *)
Inductive re : Type :=
| Eps
| Cls (p : ascii -> bool)
| Seq (a b : re)
| Alt (a b : re)
| Rep (lo : nat) (hi : option nat) (a : re)
| Cap (a : re)
| Bol
| Eol
| WordB.

(** A position of the matcher: the index, the character before it, the
    rest of the input and the span of the capture group. *)
Record pos : Type := mkPos {
  p_idx : nat;
  p_prev : option ascii;
  p_rest : string;
  p_cap : option (nat * nat)
}.

Definition wordAt (c : option ascii) : bool :=
  match c with Some x => isWord x | None => false end.

Definition nextChar (st : pos) : option ascii :=
  match p_rest st with String c _ => Some c | EmptyString => None end.

Definition decr (hi : option nat) : option nat :=
  match hi with Some n => Some (Nat.pred n) | None => None end.

(** Backtracking matcher with a continuation, greedy quantifiers first.
    An iteration past the mandatory ones that consumes nothing is refused,
    as in the ECMAScript RepeatMatcher. *)
Fixpoint run {R : Type} (r : re) (st : pos) (k : pos -> option R) : option R :=
  match r with
  | Eps => k st
  | Cls p =>
      match p_rest st with
      | String c s' =>
          if p c then k (mkPos (S (p_idx st)) (Some c) s' (p_cap st)) else None
      | EmptyString => None
      end
  | Seq a b => run a st (fun st' => run b st' k)
  | Alt a b =>
      match run a st k with
      | Some x => Some x
      | None => run b st k
      end
  | Rep lo hi a =>
      (fix loop (fuel lo : nat) (hi : option nat) (st : pos) {struct fuel}
         : option R :=
         match fuel with
         | O => None
         | S f =>
             match lo with
             | S lo' => run a st (fun st' => loop f lo' (decr hi) st')
             | O =>
                 match hi with
                 | Some O => k st
                 | _ =>
                     match run a st (fun st' =>
                                       if Nat.eqb (p_idx st') (p_idx st) then None
                                       else loop f O (decr hi) st') with
                     | Some x => Some x
                     | None => k st
                     end
                 end
             end
         end) (S (lo + String.length (p_rest st))) lo hi st
  | Cap a =>
      run a st (fun st' =>
        k (mkPos (p_idx st') (p_prev st') (p_rest st')
                 (Some (p_idx st, p_idx st'))))
  | Bol => if Nat.eqb (p_idx st) 0 then k st else None
  | Eol => if isEmpty (p_rest st) then k st else None
  | WordB =>
      if xorb (wordAt (p_prev st)) (wordAt (nextChar st)) then k st else None
  end.

(** The result of a match: where it starts, where it ends and the span
    of the capture group. *)
Record found : Type := mkFound {
  f_index : nat;
  f_end : nat;
  f_cap : option (nat * nat)
}.

Definition matchAt (r : re) (i : nat) (prev : option ascii) (s : string)
  : option found :=
  run r (mkPos i prev s None)
      (fun st => Some (mkFound i (p_idx st) (p_cap st))).

Fixpoint execFrom (r : re) (i : nat) (prev : option ascii) (s : string)
  : option found :=
  match matchAt r i prev s with
  | Some m => Some m
  | None =>
      match s with
      | String c s' => execFrom r (S i) (Some c) s'
      | EmptyString => None
      end
  end.

(** [re.exec(s)] for a pattern without the [g] flag: leftmost match. *)
Definition exec (r : re) (s : string) : option found := execFrom r 0 None s.

(** [re.test(s)] *)
Definition test (r : re) (s : string) : bool :=
  match exec r s with Some _ => true | None => false end.

(** the text of capture group 1 of a match on [s] *)
Definition group1 (s : string) (m : found) : option string :=
  match f_cap m with
  | Some (a, b) => Some (String.substring a (b - a) s)
  | None => None
  end.

(** [s.replace(re, repl)] without the [g] flag *)
Definition replaceFirst (r : re) (repl s : string) : string :=
  match exec r s with
  | Some m =>
      String.substring 0 (f_index m) s ++ repl
      ++ String.substring (f_end m) (String.length s - f_end m) s
  | None => s
  end.

(** [s.replace(re, repl)] with the [g] flag: [skip] counts the characters
    of the current match still to be dropped. *)
Fixpoint replaceGo (r : re) (repl : string) (skip i : nat)
  (prev : option ascii) (s : string) : string :=
  match skip with
  | S n =>
      match s with
      | String c s' => replaceGo r repl n (S i) (Some c) s'
      | EmptyString => EmptyString
      end
  | O =>
      match matchAt r i prev s with
      | Some m =>
          repl ++
          match s with
          | String c s' =>
              if Nat.eqb (f_end m) i
              then String c (replaceGo r repl 0 (S i) (Some c) s')
              else replaceGo r repl (f_end m - i - 1) (S i) (Some c) s'
          | EmptyString => EmptyString
          end
      | None =>
          match s with
          | String c s' => String c (replaceGo r repl 0 (S i) (Some c) s')
          | EmptyString => EmptyString
          end
      end
  end.

Definition replaceAll (r : re) (repl s : string) : string :=
  replaceGo r repl 0 0 None s.

(** [s.split(re)]: [cur] is the piece being built. *)
Fixpoint splitGo (r : re) (skip i : nat) (prev : option ascii)
  (cur s : string) : list string :=
  match s with
  | EmptyString => [cur]
  | String c s' =>
      match skip with
      | S n => splitGo r n (S i) (Some c) cur s'
      | O =>
          match matchAt r i prev s with
          | Some m =>
              if Nat.eqb (f_end m) i
              then splitGo r 0 (S i) (Some c) (cur ++ String c EmptyString) s'
              else cur :: splitGo r (f_end m - i - 1) (S i) (Some c) EmptyString s'
          | None => splitGo r 0 (S i) (Some c) (cur ++ String c EmptyString) s'
          end
      end
  end.

Definition split (r : re) (s : string) : list string :=
  splitGo r 0 0 None EmptyString s.

(** Pattern constructors. *)
Definition chr (c : ascii) : re := Cls (Ascii.eqb c).
Definition chrI (c : ascii) : re :=
  Cls (fun x => Ascii.eqb (toLowerChar x) (toLowerChar c)).
Definition oneOf (s : string) : re :=
  Cls (fun x => includes (String x EmptyString) s).
Definition noneOf (p : ascii -> bool) : re := Cls (fun x => negb (p x)).
Fixpoint lit (s : string) : re :=
  match s with
  | EmptyString => Eps
  | String c s' => Seq (chr c) (lit s')
  end.
Fixpoint litI (s : string) : re :=
  match s with
  | EmptyString => Eps
  | String c s' => Seq (chrI c) (litI s')
  end.
Definition opt (a : re) : re := Rep 0 (Some 1%nat) a.
Definition star (a : re) : re := Rep 0 None a.
Definition plus (a : re) : re := Rep 1 None a.
Definition atLeast (n : nat) (a : re) : re := Rep n None a.
Definition between (lo hi : nat) (a : re) : re := Rep lo (Some hi) a.
Fixpoint seqs (l : list re) : re :=
  match l with
  | [] => Eps
  | [a] => a
  | a :: l' => Seq a (seqs l')
  end.
Fixpoint alts (l : list re) : re :=
  match l with
  | [] => Cls (fun _ => false)
  | [a] => a
  | a :: l' => Alt a (alts l')
  end.
Definition digit : re := Cls isDigit.
Definition space : re := Cls isSpace.

End Re.

Import Re.

(* ------------------------------------------------------------------ *)
(** ** Numbers, sorting and objects *)

Local Open Scope Q_scope.
Local Open Scope list_scope.

(** [a < b] on finite numbers *)
Definition Qltb (a b : Q) : bool := negb (Qle_bool b a).

(** [Array.prototype.sort(cmp)]: the sort is stable, and on a consistent
    comparator its result is the one of a stable insertion: an element
    goes before the first later element it does not exceed. *)
Fixpoint insertBy {A : Type} (cmp : A -> A -> Q) (a : A) (l : list A) : list A :=
  match l with
  | [] => [a]
  | b :: l' => if Qle_bool (cmp a b) 0 then a :: l else b :: insertBy cmp a l'
  end.

Definition jsSort {A : Type} (cmp : A -> A -> Q) (l : list A) : list A :=
  fold_right (insertBy cmp) [] l.

(** A plain object used as a dictionary: its own entries, in the order
    they were created.  [objGet] is [obj[key]], [objSet] is
    [obj[key] = value]. *)
Definition object (V : Type) : Type := list (string * V).

Fixpoint objGet {V : Type} (key : string) (obj : object V) : option V :=
  match obj with
  | [] => None
  | (k, v) :: obj' => if String.eqb k key then Some v else objGet key obj'
  end.

Fixpoint objSet {V : Type} (key : string) (value : V) (obj : object V) : object V :=
  match obj with
  | [] => [(key, value)]
  | (k, v) :: obj' =>
      if String.eqb k key then (k, value) :: obj'
      else (k, v) :: objSet key value obj'
  end.



(* ------------------------------------------------------------------ *)
(** ** Data model *)

(** A positioned text fragment, as [parsePDF] builds it. *)
Record Item : Type := mkItem {
  it_str : string;
  it_x : Q;
  it_y : Q;
  it_width : Q;
  it_height : Q;
  it_page : Z
}.

(** A token of a reconstructed line: [{ str, x, width, height }]. *)
Record LToken : Type := mkLToken {
  lt_str : string;
  lt_x : Q;
  lt_width : Q;
  lt_height : Q
}.

(** A line: [{ y, page, tokens }]. *)
Record Line : Type := mkLine {
  ln_y : Q;
  ln_page : Z;
  ln_tokens : list LToken
}.

(** A token of a player row: [{ text, x, width, height }]. *)
Record SToken : Type := mkSToken {
  st_text : string;
  st_x : Q;
  st_width : Q;
  st_height : Q
}.

(** A column anchor: [{ start, end, center, height }]. *)
Record Anchor : Type := mkAnchor {
  a_start : Q;
  a_end : Q;
  a_center : Q;
  a_height : Q
}.

(** What [parsePlayerLine] returns. *)
Record ParsedPlayer : Type := mkParsed {
  pp_number : Z;
  pp_name : string;
  pp_rawStats : list string;
  pp_lineText : string;
  pp_statTokens : list SToken
}.

(** A player of the component state: the parsed record, its [team] (which
    may be missing) and, once mapped, its [columnValues]. *)
Record Player : Type := mkPlayer {
  pl_parsed : ParsedPlayer;
  pl_team : option string;
  pl_columnValues : option (list string)
}.

Definition pl_number (p : Player) : Z := pp_number (pl_parsed p).
Definition pl_name (p : Player) : string := pp_name (pl_parsed p).

(* ------------------------------------------------------------------ *)
(** ** Constants and patterns *)

Definition DEFAULT_SET_COLUMNS : Z := 4.
Definition MAX_SET_COLUMNS : Z := 5.
Definition COLUMN_TOLERANCE : Q := 14.
Definition HEIGHT_TOLERANCE : Q := 5.
Definition EMPTY_VALUE_PLACEHOLDER : string := ".".

(** [/(vote|points|serve|reception|attack|tot|err|pos%|coach|set)/i] *)
Definition TEAM_HEADER_EXCLUSION_REGEX : re :=
  Cap (alts (List.map litI
    ["vote"; "points"; "serve"; "reception"; "attack"; "tot"; "err";
     "pos%"; "coach"; "set"])).

(** [/^(Points\s+won|Head\s+Coach|Assistant|Set\s+\d+)/i] *)
Definition SECTION_END_REGEX : re :=
  Seq Bol (Cap (alts
    [seqs [litI "Points"; plus space; litI "won"];
     seqs [litI "Head"; plus space; litI "Coach"];
     litI "Assistant";
     seqs [litI "Set"; plus space; plus digit]])).

(** [/^([+-]?\d+(?:[.,]\d+)?%?)$/] *)
Definition STAT_TOKEN_REGEX : re :=
  seqs [Bol;
        Cap (seqs [opt (oneOf "+-"); plus digit;
                   opt (Seq (oneOf ".,") (plus digit)); opt (chr "%")]);
        Eol].

(** The date pattern, with the [i] flag: an optional prefix
    [(?:date|data) \s* [:-]? \s*], then the captured group
    [\d{1,2} [./-] \d{1,2} [./-] \d{2,4}]. *)
Definition DATE_REGEX : re :=
  Seq (opt (seqs [Alt (litI "date") (litI "data");
                  star space; opt (oneOf ":-"); star space]))
      (Cap (seqs [between 1 2 digit; oneOf "./-"; between 1 2 digit;
                  oneOf "./-"; between 2 4 digit])).

(** the word [horário], whose fourth character is code unit 225 *)
Definition horario_acute : string :=
  ("hor" ++ String (ascii_of_N 225) "rio")%string.

(** The time pattern, with the [i] flag: an optional prefix
    [(?:time|hora|horário|horario) \s* [:-]? \s*], then the captured group
    [(?:[01]?\d|2[0-3]) [:,h] \d{2} (?:[:,h]\d{2})? \s* (?:am|pm)?]
    and a word boundary.  Under the [i] flag the class [[:,h]] also
    holds [H]. *)
Definition TIME_REGEX : re :=
  seqs [opt (seqs [alts [litI "time"; litI "hora"; litI horario_acute;
                         litI "horario"];
                   star space; opt (oneOf ":-"); star space]);
        Cap (seqs [Alt (Seq (opt (oneOf "01")) digit)
                       (Seq (chr "2") (oneOf "0123"));
                   oneOf ":,hH"; between 2 2 digit;
                   opt (Seq (oneOf ":,hH") (between 2 2 digit));
                   star space; opt (Alt (litI "am") (litI "pm"))]);
        WordB].

(** [/^L+$/i] *)
Definition LIBERO_REGEX : re := seqs [Bol; plus (chrI "L"); Eol].

(** [/^[A-ZÀ-Ú0-9][A-Za-zÀ-ú0-9' ]*$/] *)
Definition VALID_CHUNK_REGEX : re :=
  seqs [Bol;
        Cls (fun c => isUpperAZ c || inRange 192 218 c || isDigit c);
        star (Cls (fun c => isLetterAZ c || inRange 192 250 c || isDigit c
                            || N.eqb (code c) 39 || N.eqb (code c) 32));
        Eol].

(* ------------------------------------------------------------------ *)
(** ** Column labels *)

Definition POST_SET_LABELS : list string :=
  ["Vote";
   "Points Tot"; "Brake Points"; "Points Won - Lost";
   "Serves Tot"; "Serves Err"; "Serves Pts";
   "Receptions Tot"; "Receptions Err"; "Receptions Pos%"; "Receptions Exc%";
   "Attacks Tot"; "Attacks Err"; "Attacks Blocked"; "Attacks Pts";
   "Attacks Pts%"; "BK Pts"].

(** [Math.min(Math.max(1, setCount || DEFAULT_SET_COLUMNS), MAX_SET_COLUMNS)];
    an absent argument takes the default. *)
Definition clampedSets (setCount : option Z) : Z :=
  let given := match setCount with Some n => n | None => DEFAULT_SET_COLUMNS end in
  let nonZero := if Z.eqb given 0 then DEFAULT_SET_COLUMNS else given in
  Z.min (Z.max 1 nonZero) MAX_SET_COLUMNS.

Definition buildTableColumnLabels (setCount : option Z) : list string :=
  let setColumns :=
    List.map (fun index => stringOfZ (Z.of_nat index + 1))
             (seq 0 (Z.to_nat (clampedSets setCount))) in
  setColumns ++ POST_SET_LABELS.

(* ------------------------------------------------------------------ *)
(** ** Line reconstruction *)

(** [Math.abs(yBuckets[i] - it.y) <= tolerance] *)
Definition within (tolerance b y : Q) : bool :=
  Qle_bool (Qabs (b - y)) tolerance.

(** The inner [for] loop: the index of the first bucket within the
    tolerance, or [None] for [bucketIndex === -1]. *)
Fixpoint findBucket (tolerance : Q) (yBuckets : list Q) (y : Q) (i : nat)
  : option nat :=
  match yBuckets with
  | [] => None
  | b :: rest =>
      if within tolerance b y then Some i
      else findBucket tolerance rest y (S i)
  end.

(** One round of [items.forEach]: the state is [(yBuckets, rows)]. *)
Definition placeItem (tolerance : Q) (st : list Q * list (list Item)) (it : Item)
  : list Q * list (list Item) :=
  let '(yBuckets, rows) := st in
  match findBucket tolerance yBuckets (it_y it) 0 with
  | None => (yBuckets ++ [it_y it], rows ++ [[it]])
  | Some bucketIndex => (yBuckets, alter (fun row => row ++ [it]) bucketIndex rows)
  end.

Definition clusterRows (tolerance : Q) (items : list Item) : list (list Item) :=
  snd (fold_left (placeItem tolerance) items ([], [])).

Definition sumY (row : list Item) : Q :=
  fold_left (fun sum item => sum + it_y item) row 0.

(** [(a, b) => a.x - b.x] *)
Definition byX (a b : Item) : Q := it_x a - it_x b.

(** [{ str: token.str, x: token.x, width: token.width, height: token.height }] *)
Definition stripItem (token : Item) : LToken :=
  {| lt_str := it_str token; lt_x := it_x token;
     lt_width := it_width token; lt_height := it_height token |}.

(** The body of [rows.map]: [sorted[0].page] throws on an empty row,
    the [None] here. *)
Definition lineObject (row : list Item) : option Line :=
  let sorted := jsSort byX row in
  match sorted with
  | [] => None
  | first :: _ =>
      Some {| ln_y := sumY sorted / inject_Z (Z.of_nat (length sorted));
              ln_page := it_page first;
              ln_tokens := List.map stripItem sorted |}
  end.

Fixpoint mapOption {A B : Type} (f : A -> option B) (l : list A)
  : option (list B) :=
  match l with
  | [] => Some []
  | a :: l' =>
      match f a with
      | None => None
      | Some b =>
          match mapOption f l' with
          | None => None
          | Some bs => Some (b :: bs)
          end
      end
  end.

(** [a.page - b.page || b.y - a.y] *)
Definition lineOrder (a b : Line) : Q :=
  let byPage := inject_Z (ln_page a - ln_page b) in
  if Qeq_bool byPage 0 then ln_y b - ln_y a else byPage.

Definition groupLines (items : list Item) (tolerance : Q) : option (list Line) :=
  match mapOption lineObject (clusterRows tolerance items) with
  | None => None
  | Some lineObjects => Some (jsSort lineOrder lineObjects)
  end.

(** the default value of the [tolerance] parameter *)
Definition DEFAULT_TOLERANCE : Q := 2.5.

(* ------------------------------------------------------------------ *)
(** ** Text of a line, headers and terminators *)

Definition collapseSpaces (s : string) : string :=
  replaceAll (atLeast 2 space) " " s.

Definition getLineText (line : Line) : string :=
  trim (collapseSpaces
          (join " " (filterNonEmpty
                       (List.map (fun token => trim (lt_str token))
                                 (ln_tokens line))))).

Definition isValidChunk (chunk : string) : bool := test VALID_CHUNK_REGEX chunk.

Definition detectTeamHeader (text : string) : option string :=
  if isEmpty text then None else
  let normalized := trim (collapseSpaces text) in
  if isEmpty normalized then None else
  let lower := toLowerCase normalized in
  let trimmedBeforeKeywords :=
    match exec TEAM_HEADER_EXCLUSION_REGEX lower with
    | Some keywordMatch => trim (slice0 (f_index keywordMatch) normalized)
    | None => normalized
    end in
  if isEmpty trimmedBeforeKeywords then None else
  let withoutScores :=
    trim (replaceFirst (Seq (plus digit) Eol) ""
            (replaceFirst
               (seqs [star space; plus digit; star space; chr "-";
                      star space; plus digit; star space; Eol]) ""
               trimmedBeforeKeywords)) in
  if isEmpty withoutScores then None else
  let cleanText :=
    trim (collapseSpaces (replaceAll (plus digit) " " withoutScores)) in
  if includes "-" cleanText then
    let parts :=
      List.filter isValidChunk
        (filterNonEmpty (List.map trim (split (chr "-") cleanText))) in
    match parts with
    | [] => None
    | _ => Some (join " - " parts)
    end
  else if isValidChunk cleanText then Some cleanText
  else None.

Definition isSectionTerminator (text : string) : bool :=
  test SECTION_END_REGEX text.

Definition isStatValue (value : string) : bool :=
  if isEmpty value then false else
  let normalized := trim value in
  if isEmpty normalized then false else
  String.eqb normalized "." || String.eqb normalized "-"
  || test STAT_TOKEN_REGEX normalized.

(* ------------------------------------------------------------------ *)
(** ** Player rows *)

(** The [parts.map] of [splitTokenText], with its [cursorX]. *)
Fixpoint splitPieces (token : LToken) (widthPerChar cursorX : Q)
  (parts : list string) : list LToken :=
  match parts with
  | [] => []
  | part :: rest =>
      let product := widthPerChar * inject_Z (Z.of_nat (String.length part)) in
      let estimatedWidth :=
        if Qeq_bool product 0 then lt_width token else product in
      {| lt_str := part; lt_x := cursorX; lt_width := estimatedWidth;
         lt_height := lt_height token |}
      :: splitPieces token widthPerChar (cursorX + estimatedWidth + widthPerChar) rest
  end.

Definition splitTokenText (token : LToken) : list LToken :=
  let original := lt_str token in
  if negb (includes " " original) then [token] else
  let parts := filterNonEmpty (split (plus space) original) in
  if (length parts <=? 1)%nat then [token] else
  let len := String.length original in
  let widthPerChar :=
    lt_width token / inject_Z (Z.of_nat (if (len =? 0)%nat then 1 else len)) in
  splitPieces token widthPerChar (lt_x token) parts.

(** The tokens [parsePlayerLine] and [inferAnchorsFromHeader] work on:
    split, trimmed, and the empty ones dropped. *)
Definition flattenTokens (tokens : list LToken) : list SToken :=
  List.filter (fun token => negb (isEmpty (st_text token)))
    (List.map (fun token =>
                 {| st_text := trim (lt_str token); st_x := lt_x token;
                    st_width := lt_width token; st_height := lt_height token |})
              (flat_map splitTokenText tokens)).

(** The body of the number scan on one token: its digits when the token
    qualifies, [None] for [continue]. *)
Definition numberDigits (text : string) : option string :=
  let raw := replaceAll (plus space) "" text in
  let digits := replaceAll (noneOf isDigit) "" raw in
  let remainder :=
    replaceAll (noneOf isLetterAZ) "" (replaceAll digit "" raw) in
  if isEmpty digits || (3 <? String.length digits)%nat then None
  else if negb (isEmpty remainder) && negb (test LIBERO_REGEX remainder) then None
  else Some digits.

(** [for (i = 0; i < Math.min(3, tokens.length); i += 1)]: the pair
    [(numberIndex, numberText)] of the first qualifying token. *)
Fixpoint scanNumber (budget i : nat) (tokens : list SToken)
  : option (nat * string) :=
  match budget, tokens with
  | S budget', token :: rest =>
      match numberDigits (st_text token) with
      | Some digits => Some (i, digits)
      | None => scanNumber budget' (S i) rest
      end
  | _, _ => None
  end.

Definition isLiberoMarker (text : string) : bool :=
  test LIBERO_REGEX (replaceAll (noneOf isLetterAZ) "" text).

(** the [while] loop that drops the libero markers after the number *)
Fixpoint dropLibero (remainingTokens : list SToken) : list SToken :=
  match remainingTokens with
  | token :: rest =>
      if isLiberoMarker (st_text token) then dropLibero rest else remainingTokens
  | [] => []
  end.

(** [/[^A-Za-zÀ-ÿ'\-\s]/g] removes every character outside this class. *)
Definition isNameChar (c : ascii) : bool :=
  isLetterAZ c || inRange 192 255 c || N.eqb (code c) 39
  || N.eqb (code c) 45 || isSpace c.

(** The state of [remainingTokens.forEach]. *)
Record Partition : Type := mkPartition {
  nameParts : list string;
  statTokens : list SToken;
  collectingStats : bool
}.

Definition classify (st : Partition) (token : SToken) : Partition :=
  if negb (collectingStats st) && negb (isStatValue (st_text token)) then
    let normalized := replaceAll (noneOf isNameChar) "" (st_text token) in
    if isEmpty normalized then st
    else {| nameParts := nameParts st ++ [st_text token];
            statTokens := statTokens st;
            collectingStats := collectingStats st |}
  else {| nameParts := nameParts st;
          statTokens := statTokens st ++ [token];
          collectingStats := true |}.

Definition parsePlayerLine (line : Line) : option ParsedPlayer :=
  let tokens := flattenTokens (ln_tokens line) in
  match tokens with
  | [] => None
  | _ =>
      match scanNumber 3 0 tokens with
      | None => None
      | Some (numberIndex, numberText) =>
          let number := digitsValue 0 numberText in
          let remainingTokens := dropLibero (drop (S numberIndex) tokens) in
          let st := fold_left classify remainingTokens (mkPartition [] [] false) in
          let name := trim (join " " (nameParts st)) in
          if isEmpty name then None
          else Some {| pp_number := number;
                       pp_name := name;
                       pp_rawStats := List.map st_text (statTokens st);
                       pp_lineText := getLineText line;
                       pp_statTokens := statTokens st |}
      end
  end.

(* ------------------------------------------------------------------ *)
(** ** Segmentation *)

(** The variables of the scanning loop of [extractPlayers]. *)
Record Scan : Type := mkScan {
  playersFound : list Player;
  currentTeam : option string;
  lastPlayerLineIndex : Z;
  playersTotalCount : nat
}.

(** a string-or-null value is truthy when it is a non-empty string *)
Definition truthy (v : option string) : bool :=
  match v with Some s => negb (isEmpty s) | None => false end.

Definition isPlayersTotal (text : string) : bool :=
  includes "players total" (toLowerCase text).

(** The [for] loop from [index] on; the early [return] ends the recursion. *)
Fixpoint extractLoop (lines : list Line) (index : Z) (st : Scan)
  : list Player * Z :=
  match lines with
  | [] => (playersFound st, lastPlayerLineIndex st)
  | line :: rest =>
      let text := getLineText line in
      if isEmpty text then extractLoop rest (index + 1)%Z st
      else if isPlayersTotal text then
        let count := S (playersTotalCount st) in
        if (2 <=? count)%nat then
          let cutoffIndex :=
            if (0 <=? lastPlayerLineIndex st)%Z then lastPlayerLineIndex st
            else (index - 1)%Z in
          (playersFound st, cutoffIndex)
        else
          extractLoop rest (index + 1)%Z
            (mkScan (playersFound st) None (lastPlayerLineIndex st) count)
      else
        let teamHeader := detectTeamHeader text in
        if truthy teamHeader then
          extractLoop rest (index + 1)%Z
            (mkScan (playersFound st) teamHeader (lastPlayerLineIndex st)
                    (playersTotalCount st))
        else if isSectionTerminator text then
          extractLoop rest (index + 1)%Z
            (mkScan (playersFound st) None (lastPlayerLineIndex st)
                    (playersTotalCount st))
        else if negb (truthy (currentTeam st)) then
          extractLoop rest (index + 1)%Z st
        else
          match parsePlayerLine line with
          | None => extractLoop rest (index + 1)%Z st
          | Some possiblePlayer =>
              extractLoop rest (index + 1)%Z
                (mkScan (playersFound st
                         ++ [mkPlayer possiblePlayer (currentTeam st) None])
                        (currentTeam st) index (playersTotalCount st))
          end
  end.

(** [extractPlayers(lines)]: the pair [(players, lastPlayerLineIndex)]. *)
Definition extractPlayers (lines : list Line) : list Player * Z :=
  extractLoop lines 0%Z (mkScan [] None (-1)%Z 0).

(* ------------------------------------------------------------------ *)
(** ** Column anchors *)

Definition anchorOf (token : SToken) : Anchor :=
  {| a_start := st_x token;
     a_end := st_x token + st_width token;
     a_center := st_x token + st_width token / 2;
     a_height := st_height token |}.

(** [array.findIndex(p)], [None] for [-1] *)
Fixpoint findIndex {A : Type} (p : A -> bool) (l : list A) (i : nat)
  : option nat :=
  match l with
  | [] => None
  | a :: l' => if p a then Some i else findIndex p l' (S i)
  end.

Definition isHeaderLine (line : Line) : bool :=
  let text := toLowerCase (getLineText line) in
  includes "pos%" text && includes "vote" text && includes "blo" text.

(** The result [{ anchors, detectedSetCount }]. *)
Definition Inference : Type := (option (list Anchor) * Z)%type.

Definition inferAnchorsFromHeader (lines : list Line) : option Inference :=
  match List.find isHeaderLine lines with
  | None => None
  | Some headerLine =>
      let flattenedTokens := flattenTokens (ln_tokens headerLine) in
      match findIndex (fun token => String.eqb (st_text token) "1")
                      flattenedTokens 0 with
      | None => None
      | Some firstDataIndex =>
          let dataTokens := drop firstDataIndex flattenedTokens in
          match dataTokens with
          | [] => None
          | _ =>
              let setCount :=
                match findIndex (fun token =>
                                   String.eqb (toLowerCase (st_text token)) "vote")
                                dataTokens 0 with
                | Some (S n) => Z.of_nat (S n)
                | _ => DEFAULT_SET_COLUMNS
                end in
              let columnLabels := buildTableColumnLabels (Some setCount) in
              if (length dataTokens <? length columnLabels)%nat then None
              else Some (Some (List.map anchorOf
                                 (take (length columnLabels) dataTokens)),
                         setCount)
          end
      end
  end.

Definition inferColumnAnchors (players : list Player) (lines : list Line)
  (currentSetCount : Z) : Inference :=
  match inferAnchorsFromHeader lines with
  | Some headerResult => headerResult
  | None =>
      let columnLabels := buildTableColumnLabels (Some currentSetCount) in
      match players with
      | [] => (None, currentSetCount)
      | _ =>
          let candidates :=
            jsSort (fun a b => inject_Z (Z.of_nat (length b) - Z.of_nat (length a)))
              (List.filter (fun tokens => (length columnLabels <=? length tokens)%nat)
                 (List.map (fun player =>
                              List.filter (fun token =>
                                             negb (isEmpty (trim (st_text token))))
                                          (pp_statTokens (pl_parsed player)))
                           players)) in
          match candidates with
          | [] => (None, currentSetCount)
          | candidateTokens :: _ =>
              (Some (List.map anchorOf (take (length columnLabels) candidateTokens)),
               currentSetCount)
          end
      end
  end.

(* ------------------------------------------------------------------ *)
(** ** Token-to-column mapping *)

Definition normalizeTokenText (value : string) : string :=
  trim (replaceAll (oneOf "()") "" value).

Definition overlapsHorizontally (start end_ : Q) (anchor : Anchor) : bool :=
  (Qle_bool (a_start anchor - COLUMN_TOLERANCE) start
   && Qle_bool start (a_end anchor + COLUMN_TOLERANCE))
  || (Qle_bool (a_start anchor - COLUMN_TOLERANCE) end_
      && Qle_bool end_ (a_end anchor + COLUMN_TOLERANCE))
  || (Qle_bool start (a_start anchor) && Qle_bool (a_end anchor) end_).

(** The [score] of one anchor for one token. *)
Definition anchorScore (anchor : Anchor) (token : SToken) : Q :=
  let width := st_width token in
  let height := st_height token in
  let start := st_x token in
  let end_ := start + width in
  let center := start + width / 2 in
  let heightDiff :=
    if Qeq_bool (a_height anchor) 0 then 0
    else Qabs (a_height anchor - height) in
  let heightPenalty :=
    if Qltb HEIGHT_TOLERANCE heightDiff then heightDiff else 0 in
  Qabs (a_center anchor - center) + heightPenalty
  + (if overlapsHorizontally start end_ anchor then 0 else 25).

(** The inner [columnAnchors.forEach]: [best] is the pair
    [(bestIndex, bestScore)], and [None] its initial value
    [(-1, Infinity)], below which every score lies. *)
Fixpoint pickAnchor (occupied : list bool) (token : SToken) (index : nat)
  (anchors : list Anchor) (best : option (nat * Q)) : option (nat * Q) :=
  match anchors with
  | [] => best
  | anchor :: rest =>
      let best' :=
        match occupied !! index with
        | Some true => best
        | _ =>
            let score := anchorScore anchor token in
            match best with
            | None => Some (index, score)
            | Some (_, bestScore) =>
                if Qltb score bestScore then Some (index, score) else best
            end
        end in
      pickAnchor occupied token (S index) rest best'
  end.

(** The anchor a token would take in the state [(result, occupied)]. *)
Definition chosenAnchor (columnAnchors : list Anchor) (occupied : list bool)
  (token : SToken) : option nat :=
  if isEmpty (normalizeTokenText (st_text token)) then None
  else option_map fst (pickAnchor occupied token 0 columnAnchors None).

(** One round of [safeTokens.forEach]. *)
Definition assignToken (columnAnchors : list Anchor)
  (st : list string * list bool) (token : SToken) : list string * list bool :=
  let '(result, occupied) := st in
  match chosenAnchor columnAnchors occupied token with
  | Some bestIndex =>
      (<[bestIndex := normalizeTokenText (st_text token)]> result,
       <[bestIndex := true]> occupied)
  | None => st
  end.

Definition assignAll (columnAnchors : list Anchor) (labels : list string)
  (tokens : list SToken) : list string * list bool :=
  fold_left (assignToken columnAnchors) tokens
    (List.map (fun _ => EMPTY_VALUE_PLACEHOLDER) labels,
     replicate (length columnAnchors) false).

(** the labels in force: the given ones, or the default ones when the
    given array is empty *)
Definition effectiveLabels (columnLabels : list string) : list string :=
  match columnLabels with
  | [] => buildTableColumnLabels None
  | _ => columnLabels
  end.

(** the positional branch *)
Definition positional (labels : list string) (safeTokens : list SToken)
  : list string :=
  imap (fun index _ =>
          let value :=
            match safeTokens !! index with
            | Some token => normalizeTokenText (st_text token)
            | None => EmptyString
            end in
          if isEmpty value then EMPTY_VALUE_PLACEHOLDER else value)
       labels.

Definition mapTokensToColumns (tokens : list SToken)
  (columnAnchors : option (list Anchor)) (columnLabels : list string)
  : list string :=
  let labels := effectiveLabels columnLabels in
  match columnAnchors with
  | Some anchors =>
      if (length anchors =? length labels)%nat
      then fst (assignAll anchors labels tokens)
      else positional labels tokens
  | None => positional labels tokens
  end.

(* ------------------------------------------------------------------ *)
(** ** Date and time *)

(** [!value] on a number: [NaN] or [0] *)
Definition falsyNumber (v : option Z) : bool :=
  match v with
  | None => true
  | Some n => Z.eqb n 0
  end.

(** The body of [formatDateForInput] once [day], [month] and [year] are
    numbers ([None] is [NaN]). *)
Definition dateFromNumbers (day month year : option Z) : option string :=
  if falsyNumber day || falsyNumber month || falsyNumber year then None
  else
    match day, month, year with
    | Some day, Some month, Some year =>
        let year :=
          if (year <? 100)%Z
          then (year + (if (70 <=? year)%Z then 1900 else 2000))%Z
          else year in
        let '(day, month) :=
          if (12 <? month)%Z && (day <=? 12)%Z then (month, day)
          else (day, month) in
        if (31 <? day)%Z || (12 <? month)%Z then None
        else Some (stringOfZ year ++ "-" ++ pad month ++ "-" ++ pad day)%string
    | _, _, _ => None
    end.

Definition formatDateForInput (rawDate : string) : option string :=
  if isEmpty rawDate then None else
  let parts := filterNonEmpty (List.map trim (split (oneOf "./-") rawDate)) in
  match List.map Number_ parts with
  | day :: month :: year :: _ => dateFromNumbers day month year
  | _ => None
  end.

(** [/(am|pm)$/] and its [i] variant *)
Definition MERIDIEM_REGEX : re := Seq (Cap (Alt (lit "am") (lit "pm"))) Eol.
Definition MERIDIEM_REGEX_I : re := Seq (Cap (Alt (litI "am") (litI "pm"))) Eol.

(** The body of [formatTimeForInput] once the meridiem, [hours] and
    [minutes] are known ([None] is [NaN]). *)
Definition timeFromNumbers (meridiem : option string) (hours minutes : option Z)
  : option string :=
  match hours, minutes with
  | Some hours, Some minutes =>
      let hours :=
        match meridiem with
        | Some m =>
            let hours :=
              if String.eqb m "pm" && (hours <? 12)%Z then (hours + 12)%Z
              else hours in
            if String.eqb m "am" && (hours =? 12)%Z then 0%Z else hours
        | None => hours
        end in
      let hours := Z.rem hours 24 in
      Some (pad hours ++ ":" ++ pad minutes)%string
  | _, _ => None
  end.

Definition formatTimeForInput (rawTime : string) : option string :=
  if isEmpty rawTime then None else
  let trimmed := toLowerCase (trim rawTime) in
  let meridiem :=
    match exec MERIDIEM_REGEX trimmed with
    | Some meridiemMatch => group1 trimmed meridiemMatch
    | None => None
    end in
  let numericPart :=
    trim (replaceAll (plus space) ""
            (replaceAll (chrI "h") ":"
               (replaceFirst MERIDIEM_REGEX_I "" trimmed))) in
  let segments := filterNonEmpty (split (chr ":") numericPart) in
  match segments with
  | [] => None
  | first :: others =>
      timeFromNumbers meridiem (Number_ first)
        (match others with
         | second :: _ => Number_ second
         | [] => Some 0%Z
         end)
  end.

(** The first date of a line's text, formatted; [None] when the pattern
    does not match or the match does not format. *)
Definition dateOfText (text : string) : option string :=
  match exec DATE_REGEX text with
  | Some dateMatch =>
      match group1 text dateMatch with
      | Some raw => formatDateForInput raw
      | None => None
      end
  | None => None
  end.

Definition timeOfText (text : string) : option string :=
  match exec TIME_REGEX text with
  | Some timeMatch =>
      match group1 text timeMatch with
      | Some raw => formatTimeForInput raw
      | None => None
      end
  | None => None
  end.

(** The [for (const line of lines)] loop of [detectMatchMetadata], with its
    [break]. *)
Fixpoint metadataLoop (lines : list Line) (detectedDate detectedTime : option string)
  : option string * option string :=
  match lines with
  | [] => (detectedDate, detectedTime)
  | line :: rest =>
      let text := getLineText line in
      if isEmpty text then metadataLoop rest detectedDate detectedTime
      else
        let detectedDate :=
          if negb (truthy detectedDate) then dateOfText text else detectedDate in
        let detectedTime :=
          if negb (truthy detectedTime) then timeOfText text else detectedTime in
        if truthy detectedDate && truthy detectedTime
        then (detectedDate, detectedTime)
        else metadataLoop rest detectedDate detectedTime
  end.

(** [detectMatchMetadata(lines)]: the pair [(date, time)]. *)
Definition detectMatchMetadata (lines : list Line)
  : option string * option string :=
  metadataLoop lines None None.

(* ------------------------------------------------------------------ *)
(** ** Grouping and payload *)







Definition statsOf (safeLabels : list string) (player : Player) : object string :=
  fold_left (fun acc '(index, label) =>
               let value :=
                 match pl_columnValues player with
                 | Some values =>
                     match values !! index with
                     | Some v => v
                     | None => EMPTY_VALUE_PLACEHOLDER
                     end
                 | None => EMPTY_VALUE_PLACEHOLDER
                 end in
               objSet label value acc)
            (imap (fun index label => (index, label)) safeLabels) [].


(* ------------------------------------------------------------------ *)
(** ** Notions used by the statements *)

(** The anchors the tokens take, one entry per token in processing order:
    the run of [safeTokens.forEach] observed from the outside. *)
Fixpoint assignmentTrace (columnAnchors : list Anchor)
  (st : list string * list bool) (tokens : list SToken) : list (option nat) :=
  match tokens with
  | [] => []
  | token :: rest =>
      chosenAnchor columnAnchors (snd st) token
      :: assignmentTrace columnAnchors (assignToken columnAnchors st token) rest
  end.

(** the state [safeTokens.forEach] starts from *)
Definition initialAssignment (columnAnchors : list Anchor) (labels : list string)
  : list string * list bool :=
  (List.map (fun _ => EMPTY_VALUE_PLACEHOLDER) labels,
   replicate (length columnAnchors) false).

(** an anchor is free in [occupied] when its flag is not set *)
Definition freeAt (occupied : list bool) (index : nat) : Prop :=
  occupied !! index <> Some true.

(** The cell the positional branch writes at [index]. *)
Definition positionalCell (tokens : list SToken) (index : nat) : string :=
  match tokens !! index with
  | Some token =>
      if isEmpty (normalizeTokenText (st_text token)) then EMPTY_VALUE_PLACEHOLDER
      else normalizeTokenText (st_text token)
  | None => EMPTY_VALUE_PLACEHOLDER
  end.


(** What the inner loop has found after the anchors [pre]: nothing when
    all of them are taken, otherwise the free anchor of least score, the
    earliest one among equals. *)
Definition bestSoFar (occupied : list bool) (token : SToken)
  (pre : list Anchor) (best : option (nat * Q)) : Prop :=
  match best with
  | None => forall j, (j < length pre)%nat -> occupied !! j = Some true
  | Some (b, s) =>
      freeAt occupied b
      /\ (exists a, pre !! b = Some a /\ s = anchorScore a token)
      /\ forall j a, pre !! j = Some a -> freeAt occupied j ->
           s <= anchorScore a token /\ ((j < b)%nat -> s < anchorScore a token)
  end.

(** [b] is the free anchor of least score for [token], the earliest one
    among equals. *)
Definition leastFreeAnchor (columnAnchors : list Anchor) (occupied : list bool)
  (token : SToken) (b : nat) : Prop :=
  freeAt occupied b
  /\ exists a, columnAnchors !! b = Some a
       /\ forall j a', columnAnchors !! j = Some a' -> freeAt occupied j ->
            anchorScore a token <= anchorScore a' token
            /\ ((j < b)%nat -> anchorScore a token < anchorScore a' token).

(** The tokens from the first stat-shaped one onward, and the ones
    before it. *)
Fixpoint statZone (tokens : list SToken) : list SToken :=
  match tokens with
  | [] => []
  | token :: rest =>
      if isStatValue (st_text token) then tokens else statZone rest
  end.

Fixpoint nameZone (tokens : list SToken) : list SToken :=
  match tokens with
  | [] => []
  | token :: rest =>
      if isStatValue (st_text token) then [] else token :: nameZone rest
  end.

(** a token text that keeps a character once the non-name characters are
    removed *)
Definition hasNameChar (text : string) : bool :=
  negb (isEmpty (replaceAll (noneOf isNameChar) "" text)).

(** A line made of the given token texts, laid out left to right on one
    row. *)
Definition lineOf (texts : list string) : Line :=
  mkLine 100 1
    (imap (fun i text => mkLToken text (inject_Z (10 * Z.of_nat i)) 8 8) texts).

(** A line that carries the ["players total"] marker. *)
Definition isMarkerLine (line : Line) : bool :=
  negb (isEmpty (getLineText line)) && isPlayersTotal (getLineText line).

(** The segmenter read as a state machine over a stretch of lines without
    marker: the team in force after one line, ... *)
Definition teamStep (team : option string) (line : Line) : option string :=
  let text := getLineText line in
  if isEmpty text then team
  else if truthy (detectTeamHeader text) then detectTeamHeader text
  else if isSectionTerminator text then None
  else team.

(** ... the player a line emits in the state [team], ... *)
Definition emits (team : option string) (line : Line) : option Player :=
  let text := getLineText line in
  if isEmpty text || truthy (detectTeamHeader text) || isSectionTerminator text
     || negb (truthy team)
  then None
  else option_map (fun parsed => mkPlayer parsed team None) (parsePlayerLine line).

(** ... and the players a stretch emits, each with the index of its line,
    when the stretch starts at [index] in the state [team]. *)
Fixpoint scanSegment (lines : list Line) (index : Z) (team : option string)
  : list (Z * Player) :=
  match lines with
  | [] => []
  | line :: rest =>
      match emits team line with
      | Some player => [(index, player)]
      | None => []
      end ++ scanSegment rest (index + 1)%Z (teamStep team line)
  end.

Definition teamAfter (lines : list Line) (team : option string) : option string :=
  fold_left teamStep lines team.

(** Sample report used to exercise the statements: two teams, one player
    each, a marker after each team and a trailing line. *)
Definition sampleAlpha : list Line :=
  [lineOf ["TEAM ALPHA"]; lineOf ["7"; "Ana"; "Silva"; "12"; "."; "3"; "88%"]]%string.
Definition sampleBeta : list Line :=
  [lineOf ["TEAM BETA"]; lineOf ["9"; "Ines"; "Costa"; "5"; "."; "1"; "70%"]]%string.
Definition sampleMarker : Line := lineOf ["Players"; "Total"]%string.
Definition sampleTail : list Line := [lineOf ["Head Coach"; "Maria"]%string].

(** The first value a function yields along a list. *)
Fixpoint firstSome {A B : Type} (f : A -> option B) (l : list A) : option B :=
  match l with
  | [] => None
  | a :: l' =>
      match f a with
      | Some b => Some b
      | None => firstSome f l'
      end
  end.







(* ------------------------------------------------------------------ *)
(** ** Further notions used by the statements *)

(** The reading order of two lines: an earlier page, or the same page and
    not lower on it. *)
Definition readsBefore (a b : Line) : Prop :=
  (ln_page a < ln_page b)%Z \/ (ln_page a = ln_page b /\ ln_y b <= ln_y a).

(** A player found by the scan of [lines]: a team in force and a line of
    the input that parses to the player. *)
Definition foundIn (lines : list Line) (player : Player) : Prop :=
  truthy (pl_team player) = true
  /\ pl_columnValues player = None
  /\ exists line, In line lines /\ parsePlayerLine line = Some (pl_parsed player).

(** What the scanning loop of [extractPlayers] keeps once the lines [done]
    are read. *)
Definition scanInvariant (lines done : list Line) (st : Scan) : Prop :=
  (-1 <= lastPlayerLineIndex st < Z.of_nat (length done))%Z
  /\ Forall (foundIn lines) (playersFound st)
  /\ (forall player, last (playersFound st) = Some player ->
        (0 <= lastPlayerLineIndex st)%Z
        /\ exists line,
             done !! Z.to_nat (lastPlayerLineIndex st) = Some line
             /\ parsePlayerLine line = Some (pl_parsed player))
  /\ (playersTotalCount st <= length done)%nat.

(** What [extractPlayers] returns for [lines]. *)
Definition scanResult (lines : list Line) (r : list Player * Z) : Prop :=
  (-1 <= snd r < Z.of_nat (length lines))%Z
  /\ Forall (foundIn lines) (fst r)
  /\ (forall player, last (fst r) = Some player ->
        (0 <= snd r)%Z
        /\ exists line,
             lines !! Z.to_nat (snd r) = Some line
             /\ parsePlayerLine line = Some (pl_parsed player)).

(** The loop of a quantifier in [run], under a name: [fuel] bounds the
    iterations, [lo] and [hi] are the iterations still due and allowed. *)
Definition repLoop {R : Type} (a : re) (k : pos -> option R)
  : nat -> nat -> option nat -> pos -> option R :=
  fix loop (fuel lo : nat) (hi : option nat) (st : pos) {struct fuel}
    : option R :=
    match fuel with
    | O => None
    | S f =>
        match lo with
        | S lo' => run a st (fun st' => loop f lo' (decr hi) st')
        | O =>
            match hi with
            | Some O => k st
            | _ =>
                match run a st (fun st' =>
                                  if Nat.eqb (p_idx st') (p_idx st) then None
                                  else loop f O (decr hi) st') with
                | Some x => Some x
                | None => k st
                end
            end
        end
    end.

(** The characters a team name is made of: a capital [A-ZÀ-Ú] in front,
    then letters [A-Za-zÀ-ú], apostrophes, spaces and hyphens. *)
Definition isCapital (c : ascii) : bool := isUpperAZ c || inRange 192 218 c.

Definition isTeamNameChar (c : ascii) : bool :=
  isLetterAZ c || inRange 192 250 c
  || N.eqb (code c) 39 || N.eqb (code c) 32 || N.eqb (code c) 45.

(* ------------------------------------------------------------------ *)
(** ** The parse of a report *)

(** [detectedSetCount || DEFAULT_SET_COLUMNS] *)
Definition effectiveSetCount (detectedSetCount : Z) : Z :=
  if Z.eqb detectedSetCount 0 then DEFAULT_SET_COLUMNS else detectedSetCount.

(** [lines.slice(0, lastPlayerLineIndex + 1)] when the index is not
    negative, [lines] otherwise. *)
Definition relevantLines (lines : list Line) (lastPlayerLineIndex : Z)
  : list Line :=
  if (0 <=? lastPlayerLineIndex)%Z
  then take (Z.to_nat (lastPlayerLineIndex + 1)) lines
  else lines.

(** [{ ...player, columnValues: mapTokensToColumns(...) }] *)
Definition withColumnValues (columnAnchors : option (list Anchor))
  (effectiveColumnLabels : list string) (player : Player) : Player :=
  {| pl_parsed := pl_parsed player;
     pl_team := pl_team player;
     pl_columnValues :=
       Some (mapTokensToColumns (pp_statTokens (pl_parsed player))
                                columnAnchors effectiveColumnLabels) |}.

(** What [parsePDF] stores in the state of the component. *)
Record Parse : Type := mkParse {
  ps_matchDate : string;
  ps_matchTime : string;
  ps_setColumnCount : Z;
  ps_players : list Player
}.

(** [parsePDF] from the items read off the pages (coordinates already
    rounded) and the set count in the state; [None] is the [catch]. *)
Definition parsePDF (items : list Item) (setColumnCount : Z) : option Parse :=
  match groupLines items DEFAULT_TOLERANCE with
  | None => None
  | Some lines =>
      let '(detectedDate, detectedTime) := detectMatchMetadata lines in
      let '(parsedPlayers, lastPlayerLineIndex) := extractPlayers lines in
      let '(columnAnchors, detectedSetCount) :=
        inferColumnAnchors parsedPlayers
          (relevantLines lines lastPlayerLineIndex) setColumnCount in
      let effective := effectiveSetCount detectedSetCount in
      let effectiveColumnLabels := buildTableColumnLabels (Some effective) in
      Some {| ps_matchDate :=
                if truthy detectedDate then default EmptyString detectedDate
                else EmptyString;
              ps_matchTime :=
                if truthy detectedTime then default EmptyString detectedTime
                else EmptyString;
              ps_setColumnCount := effective;
              ps_players :=
                List.map (withColumnValues columnAnchors effectiveColumnLabels)
                         parsedPlayers |}
  end.

(** The header line of a three-set report. *)
Definition sampleHeader : Line :=
  lineOf ["1"; "2"; "3"; "Vote"; "Tot"; "BP"; "W-L"; "Tot"; "Err"; "Pts";
          "Tot"; "Err"; "Pos%"; "Exc%"; "Tot"; "Err"; "Blo"; "Pts"; "Pts%";
          "Pts"]%string.

(** The cell of column [index] that the payload reads for a player:
    [player.columnValues?.[index] ?? EMPTY_VALUE_PLACEHOLDER]. *)
Definition cellOf (player : Player) (index : nat) : string :=
  match pl_columnValues player with
  | Some values =>
      match values !! index with
      | Some v => v
      | None => EMPTY_VALUE_PLACEHOLDER
      end
  | None => EMPTY_VALUE_PLACEHOLDER
  end.

(* ------------------------------------------------------------------ *)
(** ** Further notions about the mapper *)

(** A token the mapper does not skip: its text is not empty once
    normalised. *)
Definition hasText (token : SToken) : bool :=
  negb (isEmpty (normalizeTokenText (st_text token))).

(** The number of anchors not taken yet. *)
Definition freeCount (occupied : list bool) : nat :=
  length (List.filter negb occupied).


(** A cell of a mapped row: the placeholder, or the normalised text of one
    of the tokens. *)
Definition cellFrom (tokens : list SToken) (cell : string) : Prop :=
  cell = EMPTY_VALUE_PLACEHOLDER
  \/ exists token,
       In token tokens /\ hasText token = true
       /\ cell = normalizeTokenText (st_text token).

Definition isParenthesis (c : ascii) : bool :=
  includes (String c EmptyString) "()".

(* ------------------------------------------------------------------ *)
(** ** Further notions about the pieces of a token *)

(** The characters a list of parts stands for, one separator counted
    after each part. *)
Definition charBudget (parts : list string) : nat :=
  fold_right (fun part n => (S (String.length part) + n)%nat) 0%nat parts.


(** [a] ends before [b] starts. *)
Definition endsBefore (a b : LToken) : Prop :=
  lt_x a + lt_width a <= lt_x b.

(** An anchor whose centre lies between its start and its end. *)
Definition wellFormed (anchor : Anchor) : Prop :=
  a_start anchor <= a_center anchor /\ a_center anchor <= a_end anchor.

(* ------------------------------------------------------------------ *)
(** ** The reader with the grouped header *)

(** The second reader keeps the pipeline above and draws the table under
    a two-row header: an upper row of groups that span several columns,
    and the row of the labels, here in their short form. *)
Module Grouped.

(** A cell of the upper header: [{ key, label, span }]. *)
Record Group : Type := mkGroup {
  g_key : string;
  g_label : string;
  g_span : option Z
}.

Definition POST_SET_LABELS : list string :=
  ["Vote";
   "Tot"; "BP"; "W-L";
   "Tot"; "Err"; "Pts";
   "Tot"; "Err"; "Pos%"; "Exc%";
   "Tot"; "Err"; "Blo"; "Pts"; "Pts%"; "BK Pts"].

Definition buildTableColumnLabels (setCount : option Z) : list string :=
  let setColumns :=
    List.map (fun index => stringOfZ (Z.of_nat index + 1))
             (seq 0 (Z.to_nat (clampedSets setCount))) in
  setColumns ++ POST_SET_LABELS.

(** [group.span ?? 0] *)
Definition spanOf (group : Group) : Z :=
  match g_span group with Some n => n | None => 0%Z end.

(** [groups.forEach((group, idx) => ...)] with its [cursor] and the
    [indices] pushed so far. *)
Fixpoint dividerLoop (groups : list Group) (idx : nat) (cursor : Z)
  (indices : list Z) : list Z :=
  match groups with
  | [] => indices
  | group :: rest =>
      dividerLoop rest (S idx) (cursor + spanOf group)%Z
        (if (0 <? idx)%nat then indices ++ [cursor] else indices)
  end.

(** The set is kept as the list of the indices pushed; [has] is
    [Set.prototype.has]. *)
Definition buildGroupDividerSet (groups : list Group) : list Z :=
  match groups with
  | [] => []
  | _ => dividerLoop groups 0 0%Z []
  end.

Definition has (set : list Z) (value : Z) : bool :=
  existsb (Z.eqb value) set.

(** The upper header the component builds for a team. *)
Definition upperHeaderCells (team : string) (setColumnCount : Z) : list Group :=
  [mkGroup "team" team (Some 2%Z);
   mkGroup "set" "Set" (Some setColumnCount);
   mkGroup "vote" "Vote" (Some 1%Z);
   mkGroup "points" "Points" (Some 3%Z);
   mkGroup "serve" "Serve" (Some 3%Z);
   mkGroup "reception" "Reception" (Some 4%Z);
   mkGroup "attack" "Attack" (Some 5%Z);
   mkGroup "bkpts" "BK Pts" (Some 1%Z)].

(** The columns a list of groups spans. *)
Definition spanSum (groups : list Group) : Z :=
  fold_right (fun group acc => (spanOf group + acc)%Z) 0%Z groups.

End Grouped.

(* ------------------------------------------------------------------ *)
(** ** The reader that infers its columns by clustering *)

(** The third reader ([VolleyPdfParserFinal]) detects the number of sets
    from the rows, clusters the centres of the stat tokens into column
    anchors and gives each token to the nearest anchor.  A set count is a
    natural number, as [detectSetCountFromPlayers] yields it; an anchor
    and a member of a cluster are kept as their [center], the only field
    that is read. *)
Module Final.

Definition MAX_SETS : nat := 5.
Definition MIN_SETS : nat := 3.
Definition EMPTY : string := ".".
Definition COL_TOLERANCE_PX : Q := 14.

Definition POST_SET_FIELDS : list string :=
  ["points_tot"; "points_bp"; "points_wl";
   "serve_tot"; "serve_err"; "serve_pts";
   "reception_tot"; "reception_err"; "reception_pos"; "reception_exc";
   "attack_tot"; "attack_err"; "attack_blo"; "attack_pts";
   "attack_pts_percent";
   "bk_pts"].

(** the pattern of a set value: an optional sign, digits, and an optional
    group of a dot and digits, between [^] and [$] *)
Definition SET_VALUE_REGEX : re :=
  seqs [Bol; opt (oneOf "+-"); plus digit;
        opt (Cap (Seq (chr ".") (plus digit))); Eol].

(** The comparison with the dash outside Latin-1 never holds on the
    strings of this embedding. *)
Definition looksLikeSetVal (s : string) : bool :=
  if isEmpty s then false else
  let t := trim s in
  if String.eqb t "." || String.eqb t "-" then false
  else test SET_VALUE_REGEX t.

(** A stat token of a row: [{ text, x, width }]. *)
Record Token : Type := mkToken {
  tk_text : string;
  tk_x : Q;
  tk_width : Q
}.

(** A parsed row with its team. *)
Record Player : Type := mkPlayer {
  p_team : string;
  p_number : Z;
  p_name : string;
  p_statTokens : list Token;
  p_rawStats : list string
}.

(** The inner loop of [detectSetCountFromPlayers], with its [break]. *)
Fixpoint leadingSetValues (rawStats : list string) : nat :=
  match rawStats with
  | [] => 0%nat
  | tok :: rest =>
      if looksLikeSetVal tok then S (leadingSetValues rest) else 0%nat
  end.

Definition detectSetCountFromPlayers (players : list Player) : nat :=
  let max :=
    fold_left (fun max p =>
                 let cnt := leadingSetValues (p_rawStats p) in
                 if (max <? cnt)%nat then cnt else max)
              players MIN_SETS in
  Nat.min MAX_SETS (Nat.max MIN_SETS max).

(** [average(arr)] *)
Definition average (arr : list Q) : Q :=
  match arr with
  | [] => 0
  | _ => fold_left Qplus arr 0 / inject_Z (Z.of_nat (length arr))
  end.

(** The centre of a token: [t.x + (t.width ?? 0) / 2]. *)
Definition centerOf (t : Token) : Q := tk_x t + tk_width t / 2.

(** The [for] loop that cuts the sorted centres into clusters: [prev] is
    [centers[i - 1]], [bucket] the cluster being filled. *)
Fixpoint clusterLoop (prev : Q) (bucket : list Q) (clusters : list (list Q))
  (rest : list Q) : list (list Q) :=
  match rest with
  | [] => clusters ++ [bucket]
  | cur :: rest' =>
      if Qle_bool (Qabs (cur - prev)) COL_TOLERANCE_PX
      then clusterLoop cur (bucket ++ [cur]) clusters rest'
      else clusterLoop cur [cur] (clusters ++ [bucket]) rest'
  end.

(** The first [while]: as long as there are too many clusters and
    [tolIncrement <= 20], the clusters are sorted by falling size and the
    last one is dropped.  [budget] counts the rounds left; the result
    carries the rounds made. *)
Fixpoint dropLoop (budget : nat) (needed : nat) (clusters : list (list Q))
  (tolIncrement : nat) : list (list Q) * nat :=
  match budget with
  | O => (clusters, tolIncrement)
  | S budget' =>
      if (needed <? length clusters)%nat
      then dropLoop budget' needed
             (removelast
                (jsSort (fun a b : list Q =>
                           inject_Z (Z.of_nat (length b) - Z.of_nat (length a)))
                        clusters))
             (S tolIncrement)
      else (clusters, tolIncrement)
  end.

(** The inner [for] of the second [while]: the pair [(idx, minDist)] of
    the nearest neighbours, [None] for [(-1, Infinity)]. *)
Fixpoint nearestPair (i : nat) (clusters : list (list Q))
  (best : option (nat * Q)) : option (nat * Q) :=
  match clusters with
  | a :: (b :: _) as rest =>
      let d := Qabs (average b - average a) in
      let best' :=
        match best with
        | None => Some (i, d)
        | Some (_, minDist) => if Qltb d minDist then Some (i, d) else best
        end in
      nearestPair (S i) rest best'
  | _ => best
  end.

(** [clusters[idx] = clusters[idx].concat(clusters[idx + 1]);
    clusters.splice(idx + 1, 1)] *)
Fixpoint mergeAt (idx : nat) (clusters : list (list Q)) : list (list Q) :=
  match idx, clusters with
  | O, a :: b :: rest => (a ++ b) :: rest
  | S idx', a :: rest => a :: mergeAt idx' rest
  | _, _ => clusters
  end.

(** The second [while]: as long as there are too few clusters and
    [tolIncrement <= 40], the two nearest neighbours are merged. *)
Fixpoint mergeLoop (budget : nat) (needed : nat) (clusters : list (list Q))
  : list (list Q) :=
  match budget with
  | O => clusters
  | S budget' =>
      if (length clusters <? needed)%nat then
        if (length clusters <=? 1)%nat then clusters
        else
          match nearestPair 0 clusters None with
          | Some (idx, _) => mergeLoop budget' needed (mergeAt idx clusters)
          | None => clusters
          end
      else clusters
  end.

(** The padding [while]: a cluster of one centre, 30 to the right of the
    first centre of the last cluster, is pushed until there are enough.
    [None] is the [TypeError] of reading [last[0].center] on an empty
    cluster. *)
Fixpoint padLoop (missing : nat) (clusters : list (list Q))
  : option (list (list Q)) :=
  match missing with
  | O => Some clusters
  | S missing' =>
      let last :=
        match clusters with
        | [] => [100]
        | _ => List.last clusters []
        end in
      match last with
      | [] => None
      | first :: _ => padLoop missing' (clusters ++ [[first + 30]])
      end
  end.

(** [inferColumnAnchors(players, setCount)]: the outer [None] is the
    exception, the inner one the [null] returned without tokens. *)
Definition inferColumnAnchors (players : list Player) (setCount : nat)
  : option (option (list Q)) :=
  let needed := (setCount + length POST_SET_FIELDS)%nat in
  let allTokens := flat_map p_statTokens players in
  match jsSort (fun a b : Q => a - b) (List.map centerOf allTokens) with
  | [] => Some None
  | first :: others =>
      let clusters := clusterLoop first [first] [] others in
      let '(clusters, tolIncrement) := dropLoop 21 needed clusters 0 in
      let clusters := mergeLoop (41 - tolIncrement) needed clusters in
      let clusters := jsSort (fun a b => average a - average b) clusters in
      let clusters :=
        if (needed <? length clusters)%nat then take needed clusters
        else clusters in
      match padLoop (needed - length clusters) clusters with
      | None => None
      | Some clusters => Some (Some (List.map average clusters))
      end
  end.

(** The inner [for] of [mapStatTokensToColumns]: [best] and [bestDist],
    the latter [None] for [Infinity]. *)
Fixpoint nearestLoop (center : Q) (anchors : list Q) (i best : nat)
  (bestDist : option Q) : nat :=
  match anchors with
  | [] => best
  | anchor :: rest =>
      let d := Qabs (center - anchor) in
      match bestDist with
      | None => nearestLoop center rest (S i) i (Some d)
      | Some dist =>
          if Qltb d dist then nearestLoop center rest (S i) i (Some d)
          else nearestLoop center rest (S i) best bestDist
      end
  end.

Definition nearestAnchor (anchors : list Q) (tk : Token) : nat :=
  nearestLoop (centerOf tk) anchors 0 0 None.

(** [cols[best] = value]: a cell of the array is a string, or a hole
    ([None]) when the array grew by a write past its end. *)
Definition writeAt (index : nat) (value : string) (cols : list (option string))
  : list (option string) :=
  if (index <? length cols)%nat then <[index := Some value]> cols
  else cols ++ replicate (index - length cols) None ++ [Some value].

Definition mapStatTokensToColumns (statTokens : list Token)
  (anchors : option (list Q)) (setCount : nat) : list (option string) :=
  let cols := replicate (setCount + length POST_SET_FIELDS) (Some EMPTY) in
  match anchors, statTokens with
  | None, _ | Some [], _ | _, [] => cols
  | Some anchors, _ =>
      fold_left (fun cols tk => writeAt (nearestAnchor anchors tk) (tk_text tk) cols)
                statTokens cols
  end.

(** The last token, in reading order, that goes to column [index]. *)
Definition lastWriter (anchors : list Q) (statTokens : list Token) (index : nat)
  : option Token :=
  List.find (fun tk => Nat.eqb (nearestAnchor anchors tk) index)
            (rev statTokens).

End Final.

(* ------------------------------------------------------------------ *)
(** ** Further notions about the text of a line *)

(** The length of the longest prefix of [s] made of characters of [p]. *)
Fixpoint prefixLength (p : ascii -> bool) (s : string) : nat :=
  match s with
  | String c s' => if p c then S (prefixLength p s') else 0%nat
  | EmptyString => 0%nat
  end.

Definition startsWithSpace (s : string) : bool :=
  match s with
  | String c _ => isSpace c
  | EmptyString => false
  end.

(** No two white-space characters in a row. *)
Fixpoint singleSpaced (s : string) : bool :=
  match s with
  | String c s' => negb (isSpace c && startsWithSpace s') && singleSpaced s'
  | EmptyString => true
  end.

(* ================================================================== *)
(** * Properties *)

(* ------------------------------------------------------------------ *)
(** ** Column labels *)

Lemma clampedSets_range (setCount : option Z) :
  (1 <= clampedSets setCount <= 5)%Z.
Proof.
  unfold clampedSets, DEFAULT_SET_COLUMNS, MAX_SET_COLUMNS.
  destruct setCount as [n|]; [destruct (Z.eqb n 0)|]; lia.
Qed.

(** C2, as stated, fails: for three sets the list has twenty labels, three
    set columns and seventeen fixed ones, not [3 + 16]. *)
Lemma buildTableColumnLabels_not_sixteen :
  clampedSets (Some 3%Z) = 3%Z /\
  length (buildTableColumnLabels (Some 3%Z)) = 20%nat /\
  length (buildTableColumnLabels (Some 3%Z)) <> (3 + 16)%nat.
Proof. repeat split; vm_compute; congruence. Qed.

(** C2, amended: [buildTableColumnLabels] returns the labels ["1"] to
    ["n"], where [n] is the requested count clamped to [1..5] (4 when the
    count is absent or 0), followed by the seventeen fixed labels in the
    order of the source, so its length is [n + 17]. *)
Theorem buildTableColumnLabels_shape (setCount : option Z) :
  let n := Z.to_nat (clampedSets setCount) in
  (1 <= n <= 5)%nat
  /\ clampedSets setCount
     = match setCount with
       | None => 4%Z
       | Some k => if Z.eqb k 0 then 4%Z else Z.min (Z.max 1 k) 5
       end
  /\ buildTableColumnLabels setCount
     = take n ["1"; "2"; "3"; "4"; "5"]%string
       ++ ["Vote"; "Points Tot"; "Brake Points"; "Points Won - Lost";
           "Serves Tot"; "Serves Err"; "Serves Pts";
           "Receptions Tot"; "Receptions Err"; "Receptions Pos%";
           "Receptions Exc%"; "Attacks Tot"; "Attacks Err";
           "Attacks Blocked"; "Attacks Pts"; "Attacks Pts%"; "BK Pts"]%string
  /\ length (buildTableColumnLabels setCount) = (n + 17)%nat.
Proof.
  pose proof (clampedSets_range setCount) as Hr.
  assert (Hc : clampedSets setCount
               = match setCount with
                 | None => 4%Z
                 | Some k => if Z.eqb k 0 then 4%Z else Z.min (Z.max 1 k) 5
                 end).
  { unfold clampedSets, DEFAULT_SET_COLUMNS, MAX_SET_COLUMNS.
    destruct setCount as [k|]; [destruct (Z.eqb k 0)|]; reflexivity. }
  cbv zeta. unfold buildTableColumnLabels.
  assert (Hn : clampedSets setCount = 1%Z \/ clampedSets setCount = 2%Z
               \/ clampedSets setCount = 3%Z \/ clampedSets setCount = 4%Z
               \/ clampedSets setCount = 5%Z) by lia.
  split; [lia|]. split; [exact Hc|].
  destruct Hn as [H|[H|[H|[H|H]]]]; rewrite H; split; reflexivity.
Qed.

(* ------------------------------------------------------------------ *)
(** ** Token-to-column mapping *)

Local Close Scope Q_scope.

Lemma Qltb_lt (a b : Q) : Qltb a b = true <-> (a < b)%Q.
Proof.
  unfold Qltb. rewrite negb_true_iff. split.
  - intros H. apply Qnot_le_lt. intros Hle.
    apply Qle_bool_iff in Hle. congruence.
  - intros H. destruct (Qle_bool b a) eqn:E; [|reflexivity].
    apply Qle_bool_iff in E. exfalso. exact (Qlt_not_le _ _ H E).
Qed.

Lemma Qltb_ge (a b : Q) : Qltb a b = false <-> (b <= a)%Q.
Proof.
  unfold Qltb. rewrite negb_false_iff. apply Qle_bool_iff.
Qed.

Lemma pickAnchor_free_step (occupied : list bool) (token : SToken)
  (pre : list Anchor) (anchor : Anchor) (best : option (nat * Q)) :
  freeAt occupied (length pre) ->
  bestSoFar occupied token pre best ->
  bestSoFar occupied token (pre ++ [anchor])
    (match best with
     | None => Some (length pre, anchorScore anchor token)
     | Some (_, bestScore) =>
         if Qltb (anchorScore anchor token) bestScore
         then Some (length pre, anchorScore anchor token) else best
     end).
Proof.
  intros Hfree Hbest.
  assert (Hnew : (pre ++ [anchor]) !! length pre = Some anchor).
  { rewrite lookup_app_r by lia. rewrite Nat.sub_diag. reflexivity. }
  assert (Hsplit : forall j a, (pre ++ [anchor]) !! j = Some a ->
            (j < length pre /\ pre !! j = Some a) \/ (j = length pre /\ a = anchor)).
  { intros j a Hj. destruct (decide (j < length pre)) as [Hlt|Hge].
    - left. split; [exact Hlt|]. rewrite lookup_app_l in Hj by exact Hlt. exact Hj.
    - right. assert (j = length pre) as ->.
      { apply lookup_lt_Some in Hj. rewrite length_app in Hj. simpl in Hj. lia. }
      split; [reflexivity|]. congruence. }
  destruct best as [[b s]|]; simpl in Hbest.
  - destruct Hbest as (Hfb & (a & Ha & Hs) & Hmin).
    assert (Hb : b < length pre) by (apply lookup_lt_Some in Ha; exact Ha).
    destruct (Qltb (anchorScore anchor token) s) eqn:Hcmp; simpl.
    + apply Qltb_lt in Hcmp.
      split; [exact Hfree|]. split; [exists anchor; split; [exact Hnew|reflexivity]|].
      intros j a' Hj Hfj. destruct (Hsplit j a' Hj) as [[Hlt Hj']|[-> ->]].
      * destruct (Hmin j a' Hj' Hfj) as [Hle _].
        assert (anchorScore anchor token < anchorScore a' token)%Q
          by (eapply Qlt_le_trans; eauto).
        split; [apply Qlt_le_weak; assumption|intros _; assumption].
      * split; [apply Qle_refl|intros Habs; lia].
    + apply Qltb_ge in Hcmp.
      split; [exact Hfb|]. split.
      { exists a. split; [apply lookup_app_l_Some; exact Ha|exact Hs]. }
      intros j a' Hj Hfj. destruct (Hsplit j a' Hj) as [[Hlt Hj']|[-> ->]].
      * exact (Hmin j a' Hj' Hfj).
      * split; [exact Hcmp|intros Habs; lia].
  - simpl. split; [exact Hfree|].
    split; [exists anchor; split; [exact Hnew|reflexivity]|].
    intros j a' Hj Hfj. destruct (Hsplit j a' Hj) as [[Hlt Hj']|[-> ->]].
    + exfalso. apply Hfj. apply Hbest. exact Hlt.
    + split; [apply Qle_refl|intros Habs; lia].
Qed.

Lemma pickAnchor_bestSoFar (occupied : list bool) (token : SToken)
  (anchors : list Anchor) :
  forall (pre : list Anchor) (best : option (nat * Q)),
    bestSoFar occupied token pre best ->
    bestSoFar occupied token (pre ++ anchors)
      (pickAnchor occupied token (length pre) anchors best).
Proof.
  induction anchors as [|anchor rest IH]; intros pre best Hbest.
  - simpl. rewrite app_nil_r. exact Hbest.
  - simpl pickAnchor.
    replace (pre ++ anchor :: rest) with ((pre ++ [anchor]) ++ rest)
      by (rewrite <- app_assoc; reflexivity).
    replace (S (length pre)) with (length (pre ++ [anchor]))
      by (rewrite length_app; simpl; lia).
    apply IH.
    destruct (occupied !! length pre) as [[|]|] eqn:Hocc.
    + (* taken: the anchor is skipped *)
      destruct best as [[b s]|]; simpl in *.
      * destruct Hbest as (Hfree & (a & Ha & Hs) & Hmin).
        split; [exact Hfree|]. split.
        { exists a. split; [|exact Hs]. apply lookup_app_l_Some. exact Ha. }
        intros j a' Hj Hfj.
        destruct (decide (j < length pre)) as [Hlt|Hge].
        { rewrite lookup_app_l in Hj by exact Hlt. eauto. }
        assert (j = length pre) as ->.
        { apply lookup_lt_Some in Hj. rewrite length_app in Hj. simpl in Hj. lia. }
        exfalso. apply Hfj. exact Hocc.
      * intros j Hj. rewrite length_app in Hj. simpl in Hj.
        destruct (decide (j = length pre)) as [->|Hne]; [exact Hocc|].
        apply Hbest. lia.
    + (* free: the score is compared with the best one *)
      apply (pickAnchor_free_step occupied token pre anchor best); [|exact Hbest].
      unfold freeAt. rewrite Hocc. discriminate.
    + apply (pickAnchor_free_step occupied token pre anchor best); [|exact Hbest].
      unfold freeAt. rewrite Hocc. discriminate.
Qed.

Lemma chosenAnchor_Some (anchors : list Anchor) (occupied : list bool)
  (token : SToken) (b : nat) :
  chosenAnchor anchors occupied token = Some b ->
  isEmpty (normalizeTokenText (st_text token)) = false
  /\ leastFreeAnchor anchors occupied token b.
Proof.
  unfold chosenAnchor.
  destruct (isEmpty (normalizeTokenText (st_text token))); [discriminate|].
  intros H. split; [reflexivity|].
  pose proof (pickAnchor_bestSoFar occupied token anchors [] None) as Hb.
  simpl in Hb.
  destruct (pickAnchor occupied token 0 anchors None) as [[b' s]|];
    simpl in H; [|discriminate].
  injection H as ->.
  destruct Hb as (Hfree & (a & Ha & Hs) & Hmin); [intros j Hj; lia|].
  split; [exact Hfree|]. exists a. split; [exact Ha|].
  subst s. exact Hmin.
Qed.


Lemma assignToken_length (anchors : list Anchor) (st : list string * list bool)
  (token : SToken) :
  length (fst (assignToken anchors st token)) = length (fst st)
  /\ length (snd (assignToken anchors st token)) = length (snd st).
Proof.
  destruct st as [result occupied]. unfold assignToken.
  destruct (chosenAnchor anchors occupied token); simpl;
    rewrite ?length_insert; split; reflexivity.
Qed.

Lemma assign_fold_length (anchors : list Anchor) (tokens : list SToken) :
  forall st,
    length (fst (fold_left (assignToken anchors) tokens st)) = length (fst st)
    /\ length (snd (fold_left (assignToken anchors) tokens st)) = length (snd st).
Proof.
  induction tokens as [|token rest IH]; intros st; simpl; [split; reflexivity|].
  destruct (IH (assignToken anchors st token)) as [H1 H2].
  destruct (assignToken_length anchors st token) as [H3 H4].
  split; congruence.
Qed.




(** A position no token of the run takes keeps its content. *)
Lemma untouched_position (anchors : list Anchor) (tokens : list SToken) :
  forall st i,
    (forall k, assignmentTrace anchors st tokens !! k <> Some (Some i)) ->
    fst (fold_left (assignToken anchors) tokens st) !! i = fst st !! i.
Proof.
  induction tokens as [|token rest IH]; intros st i Hno; [reflexivity|].
  simpl. rewrite IH.
  - destruct st as [result occupied]. unfold assignToken. simpl.
    destruct (chosenAnchor anchors occupied token) as [b|] eqn:Hc; simpl; [|reflexivity].
    apply list_lookup_insert_ne. intros ->.
    apply (Hno 0). simpl. rewrite Hc. reflexivity.
  - intros k Hk. apply (Hno (S k)). exact Hk.
Qed.

Lemma positional_lookup (labels : list string) (tokens : list SToken) (i : nat) :
  i < length labels ->
  positional labels tokens !! i = Some (positionalCell tokens i).
Proof.
  intros Hi. unfold positional. rewrite list_lookup_imap.
  destruct (lookup_lt_is_Some_2 labels i Hi) as [l Hl]. rewrite Hl. simpl.
  unfold positionalCell. destruct (tokens !! i); reflexivity.
Qed.

Lemma positional_length (labels : list string) (tokens : list SToken) :
  length (positional labels tokens) = length labels.
Proof. unfold positional. apply length_imap. Qed.

Lemma mapTokensToColumns_length (tokens : list SToken)
  (columnAnchors : option (list Anchor)) (columnLabels : list string) :
  length (mapTokensToColumns tokens columnAnchors columnLabels)
  = length (effectiveLabels columnLabels).
Proof.
  unfold mapTokensToColumns.
  destruct columnAnchors as [anchors|]; [|apply positional_length].
  destruct (length anchors =? length (effectiveLabels columnLabels))%nat;
    [|apply positional_length].
  unfold assignAll.
  destruct (assign_fold_length anchors tokens
              (List.map (fun _ => EMPTY_VALUE_PLACEHOLDER) (effectiveLabels columnLabels),
               replicate (length anchors) false)) as [H _].
  rewrite H. simpl. apply length_map.
Qed.

Lemma isEmpty_true (s : string) : isEmpty s = true <-> s = EmptyString.
Proof. destruct s; simpl; split; congruence. Qed.

Lemma isEmpty_false (s : string) : isEmpty s = false <-> s <> EmptyString.
Proof. destruct s; simpl; split; congruence. Qed.

Lemma effectiveLabels_nonempty (columnLabels : list string) :
  columnLabels <> [] -> effectiveLabels columnLabels = columnLabels.
Proof. destruct columnLabels; [congruence|reflexivity]. Qed.

Lemma initial_lookup (anchors : list Anchor) (labels : list string) (i : nat) :
  i < length labels ->
  fst (initialAssignment anchors labels) !! i = Some EMPTY_VALUE_PLACEHOLDER.
Proof.
  intros Hi. simpl. rewrite list_lookup_fmap.
  destruct (lookup_lt_is_Some_2 labels i Hi) as [l ->]. reflexivity.
Qed.

(** C5, as stated, fails: with an empty label array the mapper falls back
    on the default labels and returns twenty-one cells, not
    [columnLabels.length = 0]. *)
Lemma mapTokensToColumns_empty_labels :
  length (mapTokensToColumns [] None []) = 21
  /\ length (mapTokensToColumns [] None []) <> length ([] : list string).
Proof. split; vm_compute; congruence. Qed.

(** C5, amended: for every anchors argument and every token list the
    result has as many cells as the labels in force, which are
    [columnLabels] when that array is not empty and the twenty-one default
    labels otherwise; a position that no token takes (anchor branch), or
    whose token is missing or empty once normalised (positional branch),
    holds the placeholder ["."]. *)
Theorem mapTokensToColumns_total_coverage (tokens : list SToken)
  (columnAnchors : option (list Anchor)) (columnLabels : list string) :
  let labels := effectiveLabels columnLabels in
  let out := mapTokensToColumns tokens columnAnchors columnLabels in
  length out = length labels
  /\ (columnLabels <> [] -> length out = length columnLabels)
  /\ (columnLabels = [] -> length out = 21)
  /\ (forall anchors i,
        columnAnchors = Some anchors -> length anchors = length labels ->
        i < length labels ->
        (forall k, assignmentTrace anchors (initialAssignment anchors labels)
                     tokens !! k <> Some (Some i)) ->
        out !! i = Some "."%string)
  /\ (forall i,
        match columnAnchors with
        | None => True
        | Some anchors => length anchors <> length labels
        end ->
        i < length labels ->
        (forall token, tokens !! i = Some token ->
                       normalizeTokenText (st_text token) = EmptyString) ->
        out !! i = Some "."%string).
Proof.
  cbv zeta.
  pose proof (mapTokensToColumns_length tokens columnAnchors columnLabels) as Hlen.
  split; [exact Hlen|]. split; [|split; [|split]].
  - intros Hne. rewrite Hlen, effectiveLabels_nonempty by exact Hne. reflexivity.
  - intros ->. rewrite Hlen. reflexivity.
  - intros anchors i -> Hla Hi Hno. unfold mapTokensToColumns.
    apply Nat.eqb_eq in Hla. rewrite Hla. unfold assignAll.
    fold (initialAssignment anchors (effectiveLabels columnLabels)).
    rewrite untouched_position by exact Hno.
    apply initial_lookup. exact Hi.
  - intros i Hmode Hi Hempty.
    assert (Hpos : mapTokensToColumns tokens columnAnchors columnLabels
                   = positional (effectiveLabels columnLabels) tokens).
    { unfold mapTokensToColumns. destruct columnAnchors as [anchors|]; [|reflexivity].
      apply Nat.eqb_neq in Hmode. rewrite Hmode. reflexivity. }
    rewrite Hpos, positional_lookup by exact Hi.
    unfold positionalCell. destruct (tokens !! i) as [token|]; [|reflexivity].
    rewrite (Hempty token eq_refl). reflexivity.
Qed.

(** C5 at a concrete row: two anchors, one token on the second one; the
    result has two cells and the first one holds the placeholder. *)
Lemma mapTokensToColumns_total_coverage_witness :
  length (mapTokensToColumns [mkSToken "7" 30 4 8]
            (Some [mkAnchor 10 14 12 8; mkAnchor 30 34 32 8])
            ["1"; "Vote"]%string) = 2
  /\ mapTokensToColumns [mkSToken "7" 30 4 8]
       (Some [mkAnchor 10 14 12 8; mkAnchor 30 34 32 8])
       ["1"; "Vote"]%string !! 0
     = Some "."%string.
Proof.
  pose proof (mapTokensToColumns_total_coverage [mkSToken "7" 30 4 8]
                (Some [mkAnchor 10 14 12 8; mkAnchor 30 34 32 8])
                ["1"; "Vote"]%string) as H.
  cbv zeta in H. destruct H as (Hlen & _ & _ & Hfree & _).
  split; [exact Hlen|].
  apply (Hfree [mkAnchor 10 14 12 8; mkAnchor 30 34 32 8] 0);
    [reflexivity|reflexivity|simpl; lia|].
  intros [|[|k]]; vm_compute; discriminate.
Defined.

Lemma no_candidate (n : nat) (players : list Player) :
  Forall (fun player =>
            length (List.filter (fun token => negb (isEmpty (trim (st_text token))))
                                (pp_statTokens (pl_parsed player))) < n) players ->
  List.filter (fun tokens : list SToken => (n <=? length tokens)%nat)
    (List.map (fun player =>
                 List.filter (fun token => negb (isEmpty (trim (st_text token))))
                             (pp_statTokens (pl_parsed player))) players) = [].
Proof.
  induction 1 as [|player rest Hshort _ IH]; [reflexivity|].
  simpl. apply Nat.leb_gt in Hshort. rewrite Hshort. exact IH.
Qed.

(** C9: when the anchors are [null], or their number differs from the
    number of labels in force, the mapper degrades to positional
    assignment without failing: cell [i] is the normalised text of the
    [i]-th stat token, and the placeholder ["."] when that token is missing
    or empty once normalised.  Anchor inference yields [null] when no
    header line gives anchors and no player has as many stat tokens as
    there are labels, and the mapping is then the positional one. *)
Theorem positional_fallback (tokens : list SToken)
  (columnAnchors : option (list Anchor)) (columnLabels : list string)
  (Hmode : match columnAnchors with
           | None => True
           | Some anchors => length anchors <> length (effectiveLabels columnLabels)
           end) :
  let labels := effectiveLabels columnLabels in
  let out := mapTokensToColumns tokens columnAnchors columnLabels in
  length out = length labels
  /\ (forall i, i < length labels ->
        out !! i
        = Some (match tokens !! i with
                | Some token =>
                    if isEmpty (normalizeTokenText (st_text token)) then "."%string
                    else normalizeTokenText (st_text token)
                | None => "."%string
                end))
  /\ (forall players lines currentSetCount,
        inferAnchorsFromHeader lines = None ->
        Forall (fun player =>
                  length (List.filter
                            (fun token => negb (isEmpty (trim (st_text token))))
                            (pp_statTokens (pl_parsed player)))
                  < length (buildTableColumnLabels (Some currentSetCount)))
               players ->
        inferColumnAnchors players lines currentSetCount = (None, currentSetCount)
        /\ mapTokensToColumns tokens
             (fst (inferColumnAnchors players lines currentSetCount)) columnLabels
           = positional labels tokens).
Proof.
  cbv zeta.
  assert (Hpos : mapTokensToColumns tokens columnAnchors columnLabels
                 = positional (effectiveLabels columnLabels) tokens).
  { unfold mapTokensToColumns. destruct columnAnchors as [anchors|]; [|reflexivity].
    apply Nat.eqb_neq in Hmode. rewrite Hmode. reflexivity. }
  split; [rewrite Hpos; apply positional_length|]. split.
  - intros i Hi. rewrite Hpos, positional_lookup by exact Hi. reflexivity.
  - intros players lines currentSetCount Hheader Hshort.
    assert (Hinf : inferColumnAnchors players lines currentSetCount
                   = (None, currentSetCount)).
    { unfold inferColumnAnchors. rewrite Hheader.
      destruct players as [|p ps]; [reflexivity|].
      rewrite (no_candidate _ _ Hshort). reflexivity. }
    split; [exact Hinf|]. rewrite Hinf. reflexivity.
Qed.

(** C9 at a concrete row: three labels, no anchors, two tokens. *)
Lemma positional_fallback_witness :
  mapTokensToColumns
    [mkSToken "(12)" 0 5 8; mkSToken "()" 10 5 8] None
    ["1"; "Vote"; "BK Pts"]%string
  = ["12"; "."; "."]%string
  /\ length (mapTokensToColumns
               [mkSToken "(12)" 0 5 8; mkSToken "()" 10 5 8] None
               ["1"; "Vote"; "BK Pts"]%string) = 3.
Proof.
  split; [reflexivity|].
  exact (proj1 (positional_fallback
                  [mkSToken "(12)" 0 5 8; mkSToken "()" 10 5 8] None
                  ["1"; "Vote"; "BK Pts"]%string I)).
Defined.





(* ------------------------------------------------------------------ *)
(** ** Player rows *)

(** Once stats are being collected, every token is a stat token. *)
Lemma classify_collecting (tokens : list SToken) :
  forall names stats,
    fold_left classify tokens (mkPartition names stats true)
    = mkPartition names (stats ++ tokens) true.
Proof.
  induction tokens as [|token rest IH]; intros names stats; simpl.
  - rewrite app_nil_r. reflexivity.
  - unfold classify at 2. simpl. rewrite IH, <- app_assoc. reflexivity.
Qed.

(** The partition the loop computes: names come from the tokens before the
    first stat-shaped one, stats are all the tokens from it onward. *)
Lemma classify_fold (tokens : list SToken) :
  forall names,
    fold_left classify tokens (mkPartition names [] false)
    = mkPartition
        (names ++ List.filter hasNameChar (List.map st_text (nameZone tokens)))
        (statZone tokens)
        (match statZone tokens with [] => false | _ => true end).
Proof.
  induction tokens as [|token rest IH]; intros names; simpl.
  - rewrite app_nil_r. reflexivity.
  - unfold classify at 2. simpl.
    destruct (isStatValue (st_text token)) eqn:Hstat; simpl.
    + rewrite classify_collecting, app_nil_r. reflexivity.
    + unfold hasNameChar at 1.
      destruct (isEmpty (replaceAll (noneOf isNameChar) "" (st_text token)));
        simpl.
      * apply IH.
      * rewrite IH, <- app_assoc. reflexivity.
Qed.

Lemma zones_split (tokens : list SToken) :
  tokens = nameZone tokens ++ statZone tokens.
Proof.
  induction tokens as [|token rest IH]; simpl; [reflexivity|].
  destruct (isStatValue (st_text token)); simpl; congruence.
Qed.

Lemma nameZone_not_stat (tokens : list SToken) :
  Forall (fun token => isStatValue (st_text token) = false) (nameZone tokens).
Proof.
  induction tokens as [|token rest IH]; simpl; [constructor|].
  destruct (isStatValue (st_text token)) eqn:Hstat; constructor; assumption.
Qed.

Lemma statZone_head (tokens : list SToken) :
  match statZone tokens with
  | [] => True
  | token :: _ => isStatValue (st_text token) = true
  end.
Proof.
  induction tokens as [|token rest IH]; simpl; [exact I|].
  destruct (isStatValue (st_text token)) eqn:Hstat; assumption.
Qed.

(** What a successful [parsePlayerLine] returns, in terms of the tokens
    left after the number and the libero markers. *)
Lemma parsePlayerLine_Some (line : Line) (r : ParsedPlayer) :
  parsePlayerLine line = Some r ->
  exists numberIndex numberText,
    scanNumber 3 0 (flattenTokens (ln_tokens line)) = Some (numberIndex, numberText)
    /\ let remaining :=
         dropLibero (drop (S numberIndex) (flattenTokens (ln_tokens line))) in
       r = {| pp_number := digitsValue 0 numberText;
              pp_name :=
                trim (join " " (List.filter hasNameChar
                                  (List.map st_text (nameZone remaining))));
              pp_rawStats := List.map st_text (statZone remaining);
              pp_lineText := getLineText line;
              pp_statTokens := statZone remaining |}
       /\ pp_name r <> EmptyString.
Proof.
  unfold parsePlayerLine.
  destruct (flattenTokens (ln_tokens line)) as [|t0 ts] eqn:Htokens; [discriminate|].
  destruct (scanNumber 3 0 (t0 :: ts)) as [[numberIndex numberText]|] eqn:Hscan;
    [|discriminate].
  rewrite classify_fold. simpl nameParts. simpl statTokens.
  destruct (isEmpty _) eqn:Hname; [discriminate|].
  intros H. injection H as <-.
  exists numberIndex, numberText. split; [reflexivity|].
  cbv zeta. split; [reflexivity|].
  simpl. apply isEmpty_false. exact Hname.
Qed.

(** C7: in every record [parsePlayerLine] returns, the stat tokens are
    all the tokens from the first stat-shaped one onward (after the number
    and the libero markers), and the name is built only from tokens before
    it, none of which is stat-shaped; tokens ["7"; "Ana"; "12"; "Silva"] give
    the name ["Ana"] and the stats ["12"; "Silva"]. *)
Theorem parsePlayerLine_one_way (line : Line) (r : ParsedPlayer)
  (Hparsed : parsePlayerLine line = Some r) :
  (exists numberIndex numberText,
      scanNumber 3 0 (flattenTokens (ln_tokens line))
      = Some (numberIndex, numberText)
      /\ let remaining :=
           dropLibero (drop (S numberIndex) (flattenTokens (ln_tokens line))) in
         remaining = nameZone remaining ++ statZone remaining
         /\ Forall (fun token => isStatValue (st_text token) = false)
                   (nameZone remaining)
         /\ match statZone remaining with
            | [] => True
            | token :: _ => isStatValue (st_text token) = true
            end
         /\ pp_statTokens r = statZone remaining
         /\ pp_rawStats r = List.map st_text (statZone remaining)
         /\ pp_name r
            = trim (join " " (List.filter hasNameChar
                                (List.map st_text (nameZone remaining)))))
  /\ option_map (fun p => (pp_number p, pp_name p, pp_rawStats p))
       (parsePlayerLine (lineOf ["7"; "Ana"; "12"; "Silva"]%string))
     = Some (7%Z, "Ana"%string, ["12"; "Silva"]%string).
Proof.
  split; [|vm_compute; reflexivity].
  destruct (parsePlayerLine_Some line r Hparsed)
    as (numberIndex & numberText & Hscan & Hr & _).
  exists numberIndex, numberText. split; [exact Hscan|].
  cbv zeta in *. subst r. simpl.
  split; [apply zones_split|]. split; [apply nameZone_not_stat|].
  split; [apply statZone_head|]. repeat split.
Qed.

(** C7 on the line ["7"; "Ana"; "12"; "Silva"]. *)
Lemma parsePlayerLine_one_way_witness :
  option_map (fun p => (pp_number p, pp_name p, pp_rawStats p))
    (parsePlayerLine (lineOf ["7"; "Ana"; "12"; "Silva"]%string))
  = Some (7%Z, "Ana"%string, ["12"; "Silva"]%string).
Proof.
  exact (proj2 (parsePlayerLine_one_way
                  (lineOf ["7"; "Ana"; "12"; "Silva"]%string)
                  {| pp_number := 7; pp_name := "Ana";
                     pp_rawStats := ["12"; "Silva"]%string;
                     pp_lineText := "7 Ana 12 Silva";
                     pp_statTokens := [mkSToken "12" 20 8 8;
                                       mkSToken "Silva" 30 8 8] |}
                  eq_refl)).
Defined.

Lemma trimStart_head (s : string) :
  match trimStart s with
  | EmptyString => True
  | String c _ => isSpace c = false
  end.
Proof.
  induction s as [|c s IH]; simpl; [exact I|].
  destruct (isSpace c) eqn:Hc; [exact IH|exact Hc].
Qed.

Lemma trimEnd_head (s : string) :
  match s with
  | EmptyString => True
  | String c _ =>
      match trimEnd s with
      | EmptyString => True
      | String c' _ => c' = c
      end
  end.
Proof.
  destruct s as [|c s]; [exact I|]. simpl.
  destruct (isSpace c && isEmpty (trimEnd s)); [exact I|reflexivity].
Qed.

(** A trimmed text that is not empty starts with a character that is not
    white space. *)
Lemma trim_head (s : string) :
  match trim s with
  | EmptyString => True
  | String c _ => isSpace c = false
  end.
Proof.
  unfold trim. pose proof (trimStart_head s) as H1.
  pose proof (trimEnd_head (trimStart s)) as H2.
  destruct (trimStart s) as [|c r]; [exact I|].
  destruct (trimEnd (String c r)) as [|c' r']; [exact I|]. subst c'. exact H1.
Qed.

Lemma trim_keeps_head (c : ascii) (r : string) :
  isSpace c = false -> isEmpty (trim (String c r)) = false.
Proof.
  intros Hc. unfold trim. simpl. rewrite Hc. simpl. rewrite Hc. reflexivity.
Qed.

Lemma flattenTokens_head (tokens : list LToken) :
  Forall (fun token => exists c r, st_text token = String c r /\ isSpace c = false)
         (flattenTokens tokens).
Proof.
  unfold flattenTokens. apply List.Forall_forall. intros token Hin.
  apply filter_In in Hin. destruct Hin as [Hin Hne].
  apply in_map_iff in Hin. destruct Hin as (lt & <- & _). simpl in *.
  pose proof (trim_head (lt_str lt)) as Hh.
  destruct (trim (lt_str lt)) as [|c r]; [discriminate|].
  exists c, r. split; [reflexivity|exact Hh].
Qed.

Lemma scanNumber_none (budget : nat) :
  forall i tokens,
    Forall (fun token => numberDigits (st_text token) = None) (take budget tokens) ->
    scanNumber budget i tokens = None.
Proof.
  induction budget as [|budget IH]; intros i tokens Hall; [reflexivity|].
  destruct tokens as [|token rest]; [reflexivity|].
  simpl in *. inversion Hall as [|? ? Hhead Htail]; subst.
  rewrite Hhead. apply IH. exact Htail.
Qed.

Lemma nameZone_app (names stats : list SToken) :
  Forall (fun token => isStatValue (st_text token) = false) names ->
  match stats with
  | [] => True
  | token :: _ => isStatValue (st_text token) = true
  end ->
  nameZone (names ++ stats) = names /\ statZone (names ++ stats) = stats.
Proof.
  intros Hnames Hstats. induction Hnames as [|token rest Hhead _ IH]; simpl.
  - destruct stats as [|s ss]; simpl; [split; reflexivity|].
    rewrite Hstats. split; reflexivity.
  - rewrite Hhead. destruct IH as [-> ->]. split; reflexivity.
Qed.

Lemma filter_all {A : Type} (p : A -> bool) (l : list A) :
  Forall (fun a => p a = true) l -> List.filter p l = l.
Proof.
  induction 1 as [|a l Ha _ IH]; simpl; [reflexivity|].
  rewrite Ha, IH. reflexivity.
Qed.

(** On a text without a character of the class, replacing the class, or
    runs of it, changes nothing. *)
Lemma replaceGo_cls_absent (p : ascii -> bool) (repl s : string) :
  allChars (fun c => negb (p c)) s = true ->
  forall i prev, replaceGo (Cls p) repl 0 i prev s = s.
Proof.
  induction s as [|c s IH]; intros Hall i prev; [reflexivity|].
  simpl in Hall. apply andb_true_iff in Hall. destruct Hall as [Hc Hs].
  apply negb_true_iff in Hc.
  simpl. unfold matchAt. simpl. rewrite Hc. f_equal. apply IH. exact Hs.
Qed.

Lemma replaceGo_plus_absent (p : ascii -> bool) (repl s : string) :
  allChars (fun c => negb (p c)) s = true ->
  forall i prev, replaceGo (plus (Cls p)) repl 0 i prev s = s.
Proof.
  induction s as [|c s IH]; intros Hall i prev; [reflexivity|].
  simpl in Hall. apply andb_true_iff in Hall. destruct Hall as [Hc Hs].
  apply negb_true_iff in Hc.
  simpl. unfold matchAt. simpl. rewrite Hc. f_equal. apply IH. exact Hs.
Qed.

Lemma digit_not_space (c : ascii) : isDigit c = true -> isSpace c = false.
Proof.
  unfold isDigit, isSpace, inRange. intros H.
  apply andb_true_iff in H. destruct H as [H1 H2].
  apply N.leb_le in H1, H2.
  rewrite !orb_false_iff, andb_false_iff, !N.leb_gt, !N.eqb_neq. lia.
Qed.

Lemma allChars_impl (p q : ascii -> bool) (s : string) :
  (forall c, p c = true -> q c = true) ->
  allChars p s = true -> allChars q s = true.
Proof.
  intros Hpq. induction s as [|c s IH]; simpl; [reflexivity|].
  rewrite !andb_true_iff. intros [Hc Hs]. split; [apply Hpq; exact Hc|apply IH; exact Hs].
Qed.

(** A token made of four or more digits is not a player number. *)
Lemma numberDigits_long (text : string) :
  allChars isDigit text = true -> (3 < String.length text)%nat ->
  numberDigits text = None.
Proof.
  intros Hdigits Hlong. unfold numberDigits, replaceAll.
  rewrite (replaceGo_plus_absent isSpace "" text).
  2:{ eapply allChars_impl; [|exact Hdigits]. intros c Hc. simpl.
      rewrite (digit_not_space c Hc). reflexivity. }
  rewrite (replaceGo_cls_absent (fun x => negb (isDigit x)) "" text).
  2:{ eapply allChars_impl; [|exact Hdigits]. intros c Hc. simpl.
      rewrite Hc. reflexivity. }
  apply Nat.ltb_lt in Hlong. rewrite Hlong, orb_true_r. reflexivity.
Qed.

(** A line whose tokens read ["12"], ["L"], names, stats. *)
Lemma parsePlayerLine_libero (line : Line) (names stats : list string) :
  List.map st_text (flattenTokens (ln_tokens line))
  = ("12" :: "L" :: names ++ stats)%string ->
  names <> [] ->
  Forall (fun n => isStatValue n = false /\ hasNameChar n = true) names ->
  isLiberoMarker (hd EmptyString names) = false ->
  match stats with
  | [] => True
  | s :: _ => isStatValue s = true
  end ->
  exists r,
    parsePlayerLine line = Some r
    /\ pp_number r = 12%Z
    /\ pp_name r = trim (join " " names)
    /\ pp_rawStats r = stats.
Proof.
  intros Hmap Hnames Hshape Hfirst Hstats.
  pose proof (flattenTokens_head (ln_tokens line)) as Hheads.
  destruct (flattenTokens (ln_tokens line)) as [|t12 [|tL rest]] eqn:Htokens;
    try discriminate.
  simpl in Hmap. injection Hmap as H12 HL Hrest.
  apply map_eq_app in Hrest. destruct Hrest as (tn & ts & -> & Htn & Hts).
  destruct tn as [|n1 tn']; [simpl in Htn; congruence|].
  assert (Hnum : numberDigits "12" = Some "12"%string) by reflexivity.
  assert (Hlib : isLiberoMarker "L" = true) by reflexivity.
  assert (Hval : digitsValue 0 "12" = 12%Z) by reflexivity.
  assert (Hn1 : isLiberoMarker (st_text n1) = false).
  { rewrite <- Htn in Hfirst. exact Hfirst. }
  assert (Hzone : Forall (fun token => isStatValue (st_text token) = false)
                         (n1 :: tn')).
  { rewrite <- Htn in Hshape. apply Forall_fmap in Hshape.
    eapply Forall_impl; [exact Hshape|]. intros t [Ht _]. exact Ht. }
  assert (Hts_head : match ts with
                     | [] => True
                     | token :: _ => isStatValue (st_text token) = true
                     end).
  { rewrite <- Hts in Hstats. destruct ts; [exact I|exact Hstats]. }
  destruct (nameZone_app (n1 :: tn') ts Hzone Hts_head) as [Hnz Hsz].
  assert (Hkeep : List.filter hasNameChar (List.map st_text (n1 :: tn')) = names).
  { rewrite Htn. apply filter_all.
    eapply Forall_impl; [exact Hshape|]. intros n [_ Hn]. exact Hn. }
  assert (Hnonblank : isEmpty (trim (join " " names)) = false).
  { simpl in Hheads. rewrite !Forall_cons in Hheads.
    destruct Hheads as (_ & _ & (c & r & Hc & Hsp) & _).
    rewrite <- Htn. simpl List.map. rewrite Hc.
    unfold join. simpl.
    destruct (List.map st_text tn'); apply trim_keeps_head; exact Hsp. }
  unfold parsePlayerLine. rewrite Htokens.
  cbn [scanNumber]. rewrite H12, Hnum.
  cbn [skipn dropLibero app]. rewrite HL, Hlib.
  cbn [dropLibero]. rewrite Hn1.
  rewrite classify_fold. cbn [nameParts statTokens app].
  change (n1 :: tn' ++ ts) with ((n1 :: tn') ++ ts).
  rewrite Hnz, Hsz, Hkeep, Hnonblank.
  eexists. split; [reflexivity|].
  cbn [pp_number pp_name pp_rawStats]. rewrite Hval, Hts. repeat split.
Qed.

Lemma parsePlayerLine_no_number (line : Line) :
  Forall (fun token => numberDigits (st_text token) = None)
         (take 3 (flattenTokens (ln_tokens line))) ->
  parsePlayerLine line = None.
Proof.
  intros Hnone. unfold parsePlayerLine.
  rewrite (scanNumber_none 3 0 _ Hnone).
  destruct (flattenTokens (ln_tokens line)); reflexivity.
Qed.

(** C6, as stated, fails: a line that starts with a four-digit token still
    parses when its second token is a number. *)
Lemma parsePlayerLine_four_digits_then_number :
  option_map (fun p => (pp_number p, pp_name p, pp_rawStats p))
    (parsePlayerLine (lineOf ["2024"; "7"; "Ana"; "12"]%string))
  = Some (7%Z, "Ana"%string, ["12"]%string)
  /\ parsePlayerLine (lineOf ["2024"; "7"; "Ana"; "12"]%string) <> None.
Proof. split; vm_compute; congruence. Qed.

(** C6, amended: a line whose tokens are ["12"], ["L"], name tokens and
    then stat tokens parses to number 12 with a name made of the name
    tokens only; the number is looked for in the first three tokens, a
    token of four or more digits never supplies it, and the line fails to
    parse when none of the first three tokens qualifies, so a line that
    starts with a four-digit token fails unless its second or third token
    is itself a short number. *)
Theorem parsePlayerLine_number_boundary :
  (forall line names stats,
      List.map st_text (flattenTokens (ln_tokens line))
      = ("12" :: "L" :: names ++ stats)%string ->
      names <> [] ->
      Forall (fun n => isStatValue n = false /\ hasNameChar n = true) names ->
      isLiberoMarker (hd EmptyString names) = false ->
      match stats with
      | [] => True
      | s :: _ => isStatValue s = true
      end ->
      exists r,
        parsePlayerLine line = Some r
        /\ pp_number r = 12%Z
        /\ pp_name r = trim (join " " names)
        /\ pp_rawStats r = stats)
  /\ (forall text,
        allChars isDigit text = true -> 3 < String.length text ->
        numberDigits text = None)
  /\ (forall line,
        Forall (fun token => numberDigits (st_text token) = None)
               (take 3 (flattenTokens (ln_tokens line))) ->
        parsePlayerLine line = None)
  /\ option_map (fun p => (pp_number p, pp_name p, pp_rawStats p))
       (parsePlayerLine
          (lineOf ["12"; "L"; "Ana"; "Silva"; "12"; "."; "3"; "88%"]%string))
     = Some (12%Z, "Ana Silva"%string, ["12"; "."; "3"; "88%"]%string)
  /\ parsePlayerLine (lineOf ["2024"; "Ana"; "Silva"; "12"]%string) = None.
Proof.
  split; [exact parsePlayerLine_libero|].
  split; [exact numberDigits_long|].
  split; [exact parsePlayerLine_no_number|].
  split; vm_compute; reflexivity.
Qed.

(** C6 on two lines: a libero line, through the general
    statement, and a line whose first three tokens hold no number. *)
Lemma parsePlayerLine_number_boundary_witness :
  (exists r,
      parsePlayerLine
        (lineOf ["12"; "L"; "Ana"; "Silva"; "12"; "."; "3"; "88%"]%string) = Some r
      /\ pp_number r = 12%Z
      /\ pp_name r = trim (join " " ["Ana"; "Silva"]%string)
      /\ pp_rawStats r = ["12"; "."; "3"; "88%"]%string)
  /\ parsePlayerLine (lineOf ["2024"; "Ana"; "Silva"; "12"]%string) = None.
Proof.
  split.
  - apply (proj1 parsePlayerLine_number_boundary
             (lineOf ["12"; "L"; "Ana"; "Silva"; "12"; "."; "3"; "88%"]%string)
             ["Ana"; "Silva"]%string ["12"; "."; "3"; "88%"]%string).
    + reflexivity.
    + discriminate.
    + repeat constructor.
    + reflexivity.
    + reflexivity.
  - apply (proj1 (proj2 (proj2 parsePlayerLine_number_boundary))).
    repeat constructor.
Defined.

(* ------------------------------------------------------------------ *)
(** ** Segmentation *)

Lemma last_app_default {A : Type} (l1 l2 : list A) (d : A) :
  List.last (l1 ++ l2) d = List.last l2 (List.last l1 d).
Proof.
  revert l1. induction l2 as [|x l2 IH] using rev_ind; intros l1.
  - rewrite app_nil_r. reflexivity.
  - rewrite app_assoc, !last_last. reflexivity.
Qed.

Lemma last_cons_default {A : Type} (x : A) (l : list A) (d : A) :
  List.last (x :: l) d = List.last l x.
Proof. exact (last_app_default [x] l d). Qed.

(** The loop over a stretch without marker: it emits what [scanSegment]
    lists and goes on with the rest. *)
Lemma extractLoop_segment (seg : list Line) :
  forall rest index st,
    Forall (fun line => isMarkerLine line = false) seg ->
    extractLoop (seg ++ rest) index st
    = extractLoop rest (index + Z.of_nat (length seg))%Z
        (mkScan
           (playersFound st
            ++ List.map snd (scanSegment seg index (currentTeam st)))
           (teamAfter seg (currentTeam st))
           (List.last (List.map fst (scanSegment seg index (currentTeam st)))
                      (lastPlayerLineIndex st))
           (playersTotalCount st)).
Proof.
  induction seg as [|line seg IH]; intros rest index st Hseg.
  - simpl. rewrite app_nil_r, Z.add_0_r. destruct st; reflexivity.
  - inversion Hseg as [|? ? Hline Hrest]; subst.
    unfold isMarkerLine in Hline.
    cbn [app extractLoop scanSegment teamAfter fold_left].
    unfold emits, teamStep.
    replace (index + Z.of_nat (length (line :: seg)))%Z
      with (index + 1 + Z.of_nat (length seg))%Z by (simpl length; lia).
    destruct (isEmpty (getLineText line)) eqn:Hempty.
    + cbn [orb app]. rewrite IH by exact Hrest. reflexivity.
    + simpl in Hline. rewrite Hline. cbn [orb].
      destruct (truthy (detectTeamHeader (getLineText line))) eqn:Hheader.
      * cbn [orb app]. rewrite IH by exact Hrest. reflexivity.
      * cbn [orb]. destruct (isSectionTerminator (getLineText line)) eqn:Hterm.
        -- cbn [orb app]. rewrite IH by exact Hrest. reflexivity.
        -- cbn [orb]. destruct (truthy (currentTeam st)) eqn:Hteam.
           ++ cbn [negb]. destruct (parsePlayerLine line) as [parsed|] eqn:Hparse.
              ** cbn [option_map app]. rewrite IH by exact Hrest.
                 cbn [playersFound currentTeam lastPlayerLineIndex
                      playersTotalCount List.map snd fst].
                 rewrite <- app_assoc. cbn [app].
                 rewrite last_cons_default. reflexivity.
              ** cbn [option_map app]. rewrite IH by exact Hrest. reflexivity.
           ++ cbn [negb app]. rewrite IH by exact Hrest. reflexivity.
Qed.

(** Every entry of [scanSegment] is a line of the stretch on which
    [parsePlayerLine] succeeded. *)
Lemma scanSegment_sound (seg : list Line) :
  forall index team i player,
    In (i, player) (scanSegment seg index team) ->
    (index <= i < index + Z.of_nat (length seg))%Z
    /\ exists line,
         seg !! Z.to_nat (i - index) = Some line
         /\ parsePlayerLine line = Some (pl_parsed player).
Proof.
  induction seg as [|line seg IH]; intros index team i player Hin; [destruct Hin|].
  cbn [scanSegment] in Hin. apply in_app_or in Hin. destruct Hin as [Hin|Hin].
  - unfold emits in Hin.
    destruct (isEmpty (getLineText line) || truthy (detectTeamHeader (getLineText line))
              || isSectionTerminator (getLineText line) || negb (truthy team));
      [destruct Hin|].
    destruct (parsePlayerLine line) as [parsed|] eqn:Hparse; [|destruct Hin].
    destruct Hin as [Hin|[]]. injection Hin as <- <-.
    split; [simpl length; lia|].
    exists line. rewrite Z.sub_diag. split; [reflexivity|exact Hparse].
  - apply IH in Hin. destruct Hin as [Hrange (l & Hl & Hp)].
    split; [simpl length; lia|].
    exists l. split; [|exact Hp].
    replace (Z.to_nat (i - index)) with (S (Z.to_nat (i - (index + 1)))) by lia.
    exact Hl.
Qed.

Lemma last_cases {A : Type} (l : list A) (d : A) :
  (l = [] /\ List.last l d = d)
  \/ (In (List.last l d) l /\ forall d', List.last l d' = List.last l d).
Proof.
  destruct l as [|x l] using rev_ind; [left; split; reflexivity|].
  right. rewrite last_last. split.
  - apply in_or_app. right. left. reflexivity.
  - intros d'. apply last_last.
Qed.

Lemma marker_line (line : Line) :
  isMarkerLine line = true ->
  isEmpty (getLineText line) = false /\ isPlayersTotal (getLineText line) = true.
Proof.
  unfold isMarkerLine. intros H. apply andb_true_iff in H. destruct H as [H1 H2].
  apply negb_true_iff in H1. split; assumption.
Qed.

(** The cutoff the early return computes from the indexes emitted so far. *)
Lemma cutoff_last (emitted : list Z) (second : Z) :
  Forall (fun i => (0 <= i)%Z) emitted ->
  (if (0 <=? List.last emitted (-1))%Z then List.last emitted (-1)%Z
   else (second - 1)%Z)
  = List.last emitted (second - 1)%Z.
Proof.
  intros Hpos. destruct (last_cases emitted (-1)%Z) as [[-> _]|[Hin Hsame]].
  - reflexivity.
  - rewrite (Hsame (second - 1)%Z).
    rewrite List.Forall_forall in Hpos. apply Hpos in Hin.
    apply Z.leb_le in Hin. rewrite Hin. reflexivity.
Qed.

(** C3, as stated, fails: when no player was emitted before the second
    marker, the index returned is the one of the line before that marker,
    here line 0, the first marker itself, from which no player comes. *)
Lemma extractPlayers_no_player_cutoff :
  extractPlayers [lineOf ["Players Total"]%string; lineOf ["Players Total"]%string]
  = ([], 0%Z)
  /\ parsePlayerLine (lineOf ["Players Total"]%string) = None.
Proof. split; vm_compute; reflexivity. Qed.

(** C3, amended: on a sequence whose first two marker lines (text
    containing ["players total"], whatever the case) are [t1] and [t2], the
    scan stops at [t2] and ignores what follows; the first marker only
    resets the team to none, the scan going on after it from that state;
    the players are those emitted before [t1] and between [t1] and [t2];
    and the index returned is the one of the last line that emitted a
    player, a line before [t2], when there is one, and the index of the
    line just before [t2] when no player was emitted. *)
Theorem extractPlayers_double_marker (l1 l2 l3 : list Line) (t1 t2 : Line)
  (H1 : Forall (fun line => isMarkerLine line = false) l1)
  (H2 : Forall (fun line => isMarkerLine line = false) l2)
  (Ht1 : isMarkerLine t1 = true) (Ht2 : isMarkerLine t2 = true) :
  let lines := l1 ++ t1 :: l2 ++ t2 :: l3 in
  let second := Z.of_nat (length l1 + 1 + length l2) in
  let emitted :=
    scanSegment l1 0 None
    ++ scanSegment l2 (Z.of_nat (length l1) + 1) None in
  extractPlayers lines
  = (List.map snd emitted, List.last (List.map fst emitted) (second - 1)%Z)
  /\ lines !! Z.to_nat second = Some t2
  /\ extractPlayers lines = extractPlayers (l1 ++ t1 :: l2 ++ [t2])
  /\ Forall (fun entry =>
               (0 <= fst entry < second)%Z
               /\ exists line,
                    lines !! Z.to_nat (fst entry) = Some line
                    /\ isMarkerLine line = false
                    /\ parsePlayerLine line = Some (pl_parsed (snd entry)))
            emitted.
Proof.
  cbv zeta.
  assert (Hsound : Forall (fun entry =>
               (0 <= fst entry < Z.of_nat (length l1 + 1 + length l2))%Z
               /\ exists line,
                    (l1 ++ t1 :: l2 ++ t2 :: l3) !! Z.to_nat (fst entry) = Some line
                    /\ isMarkerLine line = false
                    /\ parsePlayerLine line = Some (pl_parsed (snd entry)))
            (scanSegment l1 0 None
             ++ scanSegment l2 (Z.of_nat (length l1) + 1) None)).
  { apply Forall_app. split; apply List.Forall_forall; intros [i player] Hin;
      apply scanSegment_sound in Hin; destruct Hin as [Hrange (line & Hline & Hp)];
      simpl fst; simpl snd.
    - split; [lia|]. exists line. rewrite Z.sub_0_r in Hline.
      split; [|split; [|exact Hp]].
      + rewrite lookup_app_l by (apply lookup_lt_Some in Hline; exact Hline).
        exact Hline.
      + rewrite Forall_lookup in H1. exact (H1 _ _ Hline).
    - split; [lia|]. exists line. split; [|split; [|exact Hp]].
      + rewrite lookup_app_r by lia.
        replace (Z.to_nat i - length l1)%nat
          with (S (Z.to_nat (i - (Z.of_nat (length l1) + 1)))) by lia.
        simpl. rewrite lookup_app_l by (apply lookup_lt_Some in Hline; exact Hline).
        exact Hline.
      + rewrite Forall_lookup in H2. exact (H2 _ _ Hline). }
  assert (Hmain : forall tail,
            extractPlayers (l1 ++ t1 :: l2 ++ t2 :: tail)
            = (List.map snd (scanSegment l1 0 None
                             ++ scanSegment l2 (Z.of_nat (length l1) + 1) None),
               List.last (List.map fst
                            (scanSegment l1 0 None
                             ++ scanSegment l2 (Z.of_nat (length l1) + 1) None))
                         (Z.of_nat (length l1 + 1 + length l2) - 1)%Z)).
  { intros tail. unfold extractPlayers.
    destruct (marker_line t1 Ht1) as [He1 Hp1].
    destruct (marker_line t2 Ht2) as [He2 Hp2].
    rewrite extractLoop_segment by exact H1.
    cbn [extractLoop playersFound currentTeam lastPlayerLineIndex
         playersTotalCount app].
    rewrite He1, Hp1. cbn [Nat.leb].
    rewrite extractLoop_segment by exact H2.
    cbn [extractLoop playersFound currentTeam lastPlayerLineIndex
         playersTotalCount app].
    rewrite He2, Hp2. cbn [Nat.leb].
    rewrite <- last_app_default, <- !map_app.
    replace (0 + Z.of_nat (length l1) + 1 + Z.of_nat (length l2) - 1)%Z
      with (Z.of_nat (length l1 + 1 + length l2) - 1)%Z by lia.
    replace (0 + Z.of_nat (length l1) + 1)%Z
      with (Z.of_nat (length l1) + 1)%Z by lia.
    rewrite cutoff_last; [reflexivity|].
    apply Forall_fmap. eapply Forall_impl; [exact Hsound|].
    intros entry [Hrange _]. simpl. lia. }
  split; [apply Hmain|]. split; [|split; [|exact Hsound]].
  - rewrite lookup_app_r by lia.
    replace (Z.to_nat (Z.of_nat (length l1 + 1 + length l2)) - length l1)%nat
      with (S (length l2)) by lia.
    simpl. rewrite lookup_app_r by lia. rewrite Nat.sub_diag. reflexivity.
  - rewrite (Hmain l3), (Hmain []). reflexivity.
Qed.

(** C3 on the sample report: the scan returns the two players and the
    index 4 of the second player's line, the second marker being line 5. *)
Lemma extractPlayers_double_marker_witness :
  extractPlayers (sampleAlpha ++ sampleMarker :: sampleBeta ++ sampleMarker :: sampleTail)
  = (List.map snd
       (scanSegment sampleAlpha 0 None
        ++ scanSegment sampleBeta (Z.of_nat (length sampleAlpha) + 1) None),
     List.last
       (List.map fst
          (scanSegment sampleAlpha 0 None
           ++ scanSegment sampleBeta (Z.of_nat (length sampleAlpha) + 1) None))
       (Z.of_nat (length sampleAlpha + 1 + length sampleBeta) - 1)%Z)
  /\ snd (extractPlayers
            (sampleAlpha ++ sampleMarker :: sampleBeta ++ sampleMarker :: sampleTail))
     = 4%Z
  /\ List.map (fun p => (pl_team p, pl_number p, pl_name p))
       (fst (extractPlayers
               (sampleAlpha ++ sampleMarker :: sampleBeta ++ sampleMarker :: sampleTail)))
     = [(Some "TEAM ALPHA", 7%Z, "Ana Silva"); (Some "TEAM BETA", 9%Z, "Ines Costa")]%string.
Proof.
  split; [|split; vm_compute; reflexivity].
  apply (proj1 (extractPlayers_double_marker sampleAlpha sampleBeta sampleTail
                  sampleMarker sampleMarker
                  ltac:(repeat constructor) ltac:(repeat constructor)
                  eq_refl eq_refl)).
Defined.

(* ------------------------------------------------------------------ *)
(** ** Sorting and objects *)

Section JsSort.
Context {A : Type} (cmp : A -> A -> Q).

Lemma insertBy_perm (a : A) (l : list A) :
  Permutation (insertBy cmp a l) (a :: l).
Proof.
  induction l as [|b l IH]; simpl; [reflexivity|].
  destruct (Qle_bool (cmp a b) 0); [reflexivity|].
  rewrite IH. apply perm_swap.
Qed.

Lemma jsSort_perm (l : list A) : Permutation (jsSort cmp l) l.
Proof.
  induction l as [|a l IH]; simpl; [reflexivity|].
  rewrite insertBy_perm. apply perm_skip. exact IH.
Qed.

Lemma jsSort_nil_inv (l : list A) : jsSort cmp l = [] -> l = [].
Proof.
  intros H. apply Permutation_nil. rewrite <- H. apply jsSort_perm.
Qed.

(** When the comparator decides a total order [le], the result is
    sorted for it. *)
Variable le : A -> A -> Prop.
Hypothesis cmp_le : forall a b, Qle_bool (cmp a b) 0 = true -> le a b.
Hypothesis cmp_ge : forall a b, Qle_bool (cmp a b) 0 = false -> le b a.

Lemma insertBy_sorted (a : A) (l : list A) :
  Sorted le l -> Sorted le (insertBy cmp a l).
Proof.
  induction l as [|b l IH]; intros Hs; simpl.
  - repeat constructor.
  - destruct (Qle_bool (cmp a b) 0) eqn:Hab.
    + constructor; [exact Hs|]. constructor. apply cmp_le. exact Hab.
    + inversion Hs as [|? ? Hs' Hhd]; subst.
      constructor; [apply IH; exact Hs'|].
      destruct l as [|c l]; simpl.
      * constructor. apply cmp_ge. exact Hab.
      * destruct (Qle_bool (cmp a c) 0); constructor.
        -- apply cmp_ge. exact Hab.
        -- inversion Hhd; assumption.
Qed.

Lemma jsSort_sorted (l : list A) : Sorted le (jsSort cmp l).
Proof.
  induction l as [|a l IH]; simpl; [constructor|].
  apply insertBy_sorted. exact IH.
Qed.
End JsSort.

Lemma concat_permutation {A : Type} (l l' : list (list A)) :
  Permutation l l' -> Permutation (concat l) (concat l').
Proof.
  induction 1 as [|x l l' _ IH|x y l|l l' l'' _ IH1 _ IH2]; simpl.
  - reflexivity.
  - apply Permutation_app_head. exact IH.
  - rewrite !app_assoc. apply Permutation_app_tail. apply Permutation_app_comm.
  - etransitivity; eassumption.
Qed.



Lemma objGet_None {V : Type} (key : string) (obj : object V) :
  objGet key obj = None ->
  ~ In key (List.map fst obj)
  /\ forall value, objSet key value obj = obj ++ [(key, value)].
Proof.
  induction obj as [|[k v] obj IH]; simpl; intros H.
  - split; [tauto|reflexivity].
  - destruct (String.eqb k key) eqn:Hk; [discriminate|].
    apply String.eqb_neq in Hk. destruct (IH H) as [Hnot Hset].
    split; [intros [Heq|Hin]; [congruence|tauto]|].
    intros value. rewrite Hset. reflexivity.
Qed.


(* ------------------------------------------------------------------ *)
(** ** Grouping by team *)







(* ------------------------------------------------------------------ *)
(** ** Date and time *)

Lemma append_nonempty (a b : string) (c : ascii) :
  isEmpty (a ++ String c EmptyString ++ b)%string = false.
Proof. destruct a; reflexivity. Qed.

Lemma dateFromNumbers_truthy (day month year : option Z) :
  truthy (dateFromNumbers day month year)
  = match dateFromNumbers day month year with Some _ => true | None => false end.
Proof.
  unfold dateFromNumbers.
  destruct (falsyNumber day || falsyNumber month || falsyNumber year); [reflexivity|].
  destruct day as [d|], month as [m|], year as [y|]; try reflexivity.
  destruct ((12 <? m)%Z && (d <=? 12)%Z);
    match goal with
    | |- context [if ?c then None else _] => destruct c; [reflexivity|]
    end; cbn [truthy]; rewrite append_nonempty; reflexivity.
Qed.

Lemma timeFromNumbers_truthy (meridiem : option string) (hours minutes : option Z) :
  truthy (timeFromNumbers meridiem hours minutes)
  = match timeFromNumbers meridiem hours minutes with
    | Some _ => true
    | None => false
    end.
Proof.
  unfold timeFromNumbers.
  destruct hours as [h|], minutes as [m|]; try reflexivity.
  cbn [truthy]. rewrite append_nonempty. reflexivity.
Qed.

Lemma dateOfText_truthy (text : string) :
  truthy (dateOfText text)
  = match dateOfText text with Some _ => true | None => false end.
Proof.
  unfold dateOfText. destruct (exec DATE_REGEX text) as [m|]; [|reflexivity].
  destruct (group1 text m) as [raw|]; [|reflexivity].
  unfold formatDateForInput. destruct (isEmpty raw); [reflexivity|].
  destruct (List.map Number_ _) as [|day [|month [|year rest]]]; try reflexivity.
  apply dateFromNumbers_truthy.
Qed.

Lemma timeOfText_truthy (text : string) :
  truthy (timeOfText text)
  = match timeOfText text with Some _ => true | None => false end.
Proof.
  unfold timeOfText. destruct (exec TIME_REGEX text) as [m|]; [|reflexivity].
  destruct (group1 text m) as [raw|]; [|reflexivity].
  unfold formatTimeForInput. destruct (isEmpty raw); [reflexivity|].
  destruct (filterNonEmpty _) as [|first others]; [reflexivity|].
  apply timeFromNumbers_truthy.
Qed.

(** The loop keeps a value once found and, until then, takes the first
    line whose match formats. *)
Lemma metadataLoop_firstSome (lines : list Line) :
  forall detectedDate detectedTime,
    (detectedDate = None \/ truthy detectedDate = true) ->
    (detectedTime = None \/ truthy detectedTime = true) ->
    metadataLoop lines detectedDate detectedTime
    = (match detectedDate with
       | None => firstSome (fun line => dateOfText (getLineText line)) lines
       | Some _ => detectedDate
       end,
       match detectedTime with
       | None => firstSome (fun line => timeOfText (getLineText line)) lines
       | Some _ => detectedTime
       end).
Proof.
  induction lines as [|line rest IH]; intros d t Hd Ht.
  - simpl. destruct d, t; reflexivity.
  - cbn [metadataLoop firstSome].
    destruct (isEmpty (getLineText line)) eqn:Hempty.
    + apply isEmpty_true in Hempty. rewrite Hempty.
      change (dateOfText EmptyString) with (@None string).
      change (timeOfText EmptyString) with (@None string).
      apply IH; assumption.
    + pose proof (dateOfText_truthy (getLineText line)) as Hdt.
      pose proof (timeOfText_truthy (getLineText line)) as Htt.
      assert (Hd' : match d with Some _ => truthy d = true | None => True end).
      { destruct Hd as [->|Hd]; [exact I|]. destruct d; [exact Hd|exact I]. }
      assert (Ht' : match t with Some _ => truthy t = true | None => True end).
      { destruct Ht as [->|Ht]; [exact I|]. destruct t; [exact Ht|exact I]. }
      clear Hd Ht.
      destruct d as [ds|], t as [ts|];
        destruct (dateOfText (getLineText line)) as [date|];
        destruct (timeOfText (getLineText line)) as [time|];
        repeat first [ rewrite Hd' | rewrite Ht' | rewrite Hdt | rewrite Htt
                     | progress change (truthy None) with false
                     | progress cbn [negb andb] ];
        try reflexivity;
        rewrite IH by (first [left; reflexivity | right; assumption]);
        reflexivity.
Qed.




(* ------------------------------------------------------------------ *)
(** ** Line reconstruction *)



Lemma within_refl (tolerance a : Q) :
  (0 <= tolerance)%Q -> within tolerance a a = true.
Proof.
  intros Htol. unfold within. apply Qle_bool_iff.
  assert (Hz : (a - a == 0)%Q) by ring.
  rewrite Hz. exact Htol.
Qed.

Lemma findBucket_Some (tolerance : Q) (yBuckets : list Q) (y : Q) :
  forall k i,
    findBucket tolerance yBuckets y k = Some i ->
    k <= i
    /\ exists b,
         yBuckets !! (i - k) = Some b
         /\ within tolerance b y = true
         /\ forall j b', j < i - k -> yBuckets !! j = Some b' ->
                         within tolerance b' y = false.
Proof.
  induction yBuckets as [|b rest IH]; intros k i H; [discriminate|].
  simpl in H. destruct (within tolerance b y) eqn:Hb.
  - injection H as <-. split; [lia|]. exists b. rewrite Nat.sub_diag.
    split; [reflexivity|]. split; [exact Hb|]. intros j b' Hj. lia.
  - apply IH in H. destruct H as [Hle (b0 & Hlook & Hin & Hbefore)].
    split; [lia|]. exists b0.
    replace (i - k) with (S (i - S k)) by lia.
    split; [exact Hlook|]. split; [exact Hin|].
    intros [|j] b' Hj Hl; simpl in Hl.
    + injection Hl as <-. exact Hb.
    + apply (Hbefore j b'); [lia|exact Hl].
Qed.












Lemma mapOption_Some {A B : Type} (f : A -> option B) (l : list A) :
  (forall a, In a l -> exists b, f a = Some b) ->
  exists bs, mapOption f l = Some bs
             /\ Forall2 (fun a b => f a = Some b) l bs.
Proof.
  induction l as [|a l IH]; intros H.
  - exists []. split; [reflexivity|constructor].
  - destruct (H a (or_introl eq_refl)) as [b Hb].
    destruct IH as (bs & Hbs & Hall); [intros x Hx; apply H; right; exact Hx|].
    exists (b :: bs). simpl. rewrite Hb, Hbs. split; [reflexivity|].
    constructor; assumption.
Qed.

Lemma mapOption_inv {A B : Type} (f : A -> option B) (l : list A) :
  forall bs, mapOption f l = Some bs -> Forall2 (fun a b => f a = Some b) l bs.
Proof.
  induction l as [|a l IH]; intros bs H; simpl in H.
  - injection H as <-. constructor.
  - destruct (f a) as [b|] eqn:Hb; [|discriminate].
    destruct (mapOption f l) as [bs'|]; [|discriminate].
    injection H as <-. constructor; [exact Hb|]. apply IH. reflexivity.
Qed.



Lemma lineObject_tokens (row : list Item) (line : Line) :
  lineObject row = Some line ->
  ln_tokens line = List.map stripItem (jsSort byX row).
Proof.
  unfold lineObject. destruct (jsSort byX row) as [|first sorted]; [discriminate|].
  intros H. injection H as <-. reflexivity.
Qed.

Lemma lineObject_nonempty (row : list Item) :
  row <> [] -> exists line, lineObject row = Some line.
Proof.
  intros Hne. unfold lineObject.
  destruct (jsSort byX row) as [|first sorted] eqn:Hs.
  - exfalso. apply Hne. eapply jsSort_nil_inv. exact Hs.
  - eexists. reflexivity.
Qed.

(** The clustering loop never leaves a row empty, whatever the heights. *)
Lemma placeItem_rows_nonempty (tolerance : Q) (items : list Item) :
  forall st,
    Forall (fun row => row <> []) (snd st) ->
    Forall (fun row : list Item => row <> [])
           (snd (fold_left (placeItem tolerance) items st)).
Proof.
  induction items as [|it rest IH]; intros st Hst; [exact Hst|].
  simpl. apply IH. destruct st as [ys rows]. unfold placeItem.
  destruct (findBucket tolerance ys (it_y it) 0) as [i|]; simpl in *.
  - apply Forall_lookup. intros j row Hj.
    rewrite list_lookup_alter in Hj.
    destruct (decide (i = j)) as [<-|Hne].
    + destruct (rows !! i) as [r|]; [|discriminate]. injection Hj as <-.
      destruct r; discriminate.
    + rewrite Forall_lookup in Hst. exact (Hst j row Hj).
  - apply Forall_app. split; [exact Hst|].
    constructor; [discriminate|constructor].
Qed.

(** [groupLines] always returns: its lines are the line objects of the
    rows, rearranged. *)
Lemma groupLines_total (items : list Item) (tolerance : Q) :
  exists lines lineObjects,
    groupLines items tolerance = Some lines
    /\ Permutation lines lineObjects
    /\ Forall2 (fun row line => lineObject row = Some line)
               (clusterRows tolerance items) lineObjects.
Proof.
  unfold groupLines.
  destruct (mapOption_Some lineObject (clusterRows tolerance items))
    as (lineObjects & Hmap & Hall).
  - intros row Hrow. apply lineObject_nonempty.
    assert (Hne : Forall (fun r : list Item => r <> []) (clusterRows tolerance items))
      by (apply (placeItem_rows_nonempty tolerance items ([], [])); constructor).
    rewrite List.Forall_forall in Hne. apply Hne. exact Hrow.
  - rewrite Hmap. exists (jsSort lineOrder lineObjects), lineObjects.
    split; [reflexivity|]. split; [apply jsSort_perm|exact Hall].
Qed.









(* ================================================================== *)
(** * Further properties of the pipeline *)

(* ------------------------------------------------------------------ *)
(** ** Line reconstruction on any input *)

Lemma concat_alter_snoc {A : Type} (rows : list (list A)) (i : nat)
  (row : list A) (a : A) :
  rows !! i = Some row ->
  Permutation (concat (alter (fun r => r ++ [a]) i rows)) (concat rows ++ [a]).
Proof.
  revert i. induction rows as [|r rows IH]; intros i Hi; [destruct i; discriminate|].
  destruct i as [|i]; simpl in *.
  - rewrite <- !app_assoc. apply Permutation_app_head. apply Permutation_app_comm.
  - rewrite <- app_assoc. apply Permutation_app_head. apply IH. exact Hi.
Qed.

(** What the clustering loop keeps on any input: as many rows as
    buckets, no item lost or repeated, and every item of a row within the
    tolerance of the row's bucket. *)
Lemma placeItem_keeps (tolerance : Q) (processed : list Item) (it : Item)
  (st : list Q * list (list Item)) :
  (0 <= tolerance)%Q ->
  length (fst st) = length (snd st) ->
  Permutation (concat (snd st)) processed ->
  (forall i k row, fst st !! i = Some k -> snd st !! i = Some row ->
     Forall (fun u => within tolerance k (it_y u) = true) row) ->
  length (fst (placeItem tolerance st it)) = length (snd (placeItem tolerance st it))
  /\ Permutation (concat (snd (placeItem tolerance st it))) (processed ++ [it])
  /\ (forall i k row,
        fst (placeItem tolerance st it) !! i = Some k ->
        snd (placeItem tolerance st it) !! i = Some row ->
        Forall (fun u => within tolerance k (it_y u) = true) row).
Proof.
  intros Htol Hlen Hperm Hnear. destruct st as [ys rows]. unfold placeItem.
  simpl in *.
  destruct (findBucket tolerance ys (it_y it) 0) as [i|] eqn:Hfind; simpl.
  - apply findBucket_Some in Hfind. destruct Hfind as [_ (k & Hk & Hin & _)].
    rewrite Nat.sub_0_r in Hk.
    assert (Hi : i < length rows) by (rewrite <- Hlen; eapply lookup_lt_Some; eauto).
    destruct (lookup_lt_is_Some_2 rows i Hi) as [row Hrow].
    split; [rewrite length_alter; exact Hlen|]. split.
    + rewrite (concat_alter_snoc rows i row it Hrow).
      apply Permutation_app_tail. exact Hperm.
    + intros j kj rj Hkj Hrj. rewrite list_lookup_alter in Hrj.
      destruct (decide (i = j)) as [<-|Hne].
      * rewrite Hrow in Hrj. simpl in Hrj. injection Hrj as <-.
        assert (kj = k) by congruence. subst kj.
        apply Forall_app. split; [exact (Hnear i k row Hk Hrow)|].
        constructor; [exact Hin|constructor].
      * exact (Hnear j kj rj Hkj Hrj).
  - split; [rewrite !length_app; simpl; lia|]. split.
    + rewrite concat_app. simpl.
      apply Permutation_app_tail. exact Hperm.
    + intros j kj rj Hkj Hrj.
      apply lookup_snoc_Some in Hkj. apply lookup_snoc_Some in Hrj.
      destruct Hkj as [[Hj Hkj]|[-> <-]], Hrj as [[Hj' Hrj]|[Hj' <-]]; try lia.
      * exact (Hnear j kj rj Hkj Hrj).
      * constructor; [apply within_refl; exact Htol|constructor].
Qed.

Lemma cluster_keeps (tolerance : Q) (items : list Item) :
  (0 <= tolerance)%Q ->
  forall processed st,
    length (fst st) = length (snd st) ->
    Permutation (concat (snd st)) processed ->
    (forall i k row, fst st !! i = Some k -> snd st !! i = Some row ->
       Forall (fun u => within tolerance k (it_y u) = true) row) ->
    let st' := fold_left (placeItem tolerance) items st in
    length (fst st') = length (snd st')
    /\ Permutation (concat (snd st')) (processed ++ items)
    /\ (forall i k row, fst st' !! i = Some k -> snd st' !! i = Some row ->
          Forall (fun u => within tolerance k (it_y u) = true) row).
Proof.
  intros Htol. induction items as [|it rest IH]; intros processed st Hlen Hperm Hnear.
  - simpl. rewrite app_nil_r. auto.
  - simpl.
    destruct (placeItem_keeps tolerance processed it st Htol Hlen Hperm Hnear)
      as (H1 & H2 & H3).
    specialize (IH (processed ++ [it]) _ H1 H2 H3). cbv zeta in IH.
    rewrite <- app_assoc in IH. exact IH.
Qed.

Lemma lineObjects_tokens (rows : list (list Item)) (objs : list Line) :
  Forall2 (fun row line => lineObject row = Some line) rows objs ->
  Permutation (concat (List.map ln_tokens objs))
              (List.map stripItem (concat rows))
  /\ Forall (fun line => ln_tokens line <> []) objs.
Proof.
  induction 1 as [|row line rows objs Hobj _ [IH1 IH2]]; simpl.
  - split; [reflexivity|constructor].
  - rewrite map_app, (lineObject_tokens row line Hobj). split.
    + apply Permutation_app; [|exact IH1].
      apply Permutation_map. apply jsSort_perm.
    + constructor; [|exact IH2].
      unfold lineObject in Hobj.
      destruct (jsSort byX row) as [|first sorted]; [discriminate|].
      injection Hobj as <-. simpl. discriminate.
Qed.

(** X1: on every input [groupLines] returns, and its lines hold the input
    tokens, each exactly once: no token is lost or repeated, no line is
    empty, and there are at most as many lines as tokens. *)
Theorem groupLines_conserves_tokens (items : list Item) :
  exists lines,
    groupLines items DEFAULT_TOLERANCE = Some lines
    /\ Permutation (concat (List.map ln_tokens lines)) (List.map stripItem items)
    /\ Forall (fun line => ln_tokens line <> []) lines
    /\ length lines <= length items.
Proof.
  assert (Htol : (0 <= DEFAULT_TOLERANCE)%Q) by (unfold DEFAULT_TOLERANCE; lra).
  destruct (groupLines_total items DEFAULT_TOLERANCE)
    as (lines & objs & Hl & Hp & Hall).
  destruct (cluster_keeps DEFAULT_TOLERANCE items Htol [] ([], []))
    as (_ & Hperm & _); [reflexivity|reflexivity|intros [|i] k row Hk; discriminate|].
  simpl in Hperm. fold (clusterRows DEFAULT_TOLERANCE items) in Hperm.
  destruct (lineObjects_tokens _ _ Hall) as [Htok Hne].
  exists lines. split; [exact Hl|].
  assert (Hall_tokens : Permutation (concat (List.map ln_tokens lines))
                                    (List.map stripItem items)).
  { rewrite (concat_permutation _ _ (Permutation_map ln_tokens Hp)), Htok.
    apply Permutation_map. exact Hperm. }
  assert (Hnonempty : Forall (fun line => ln_tokens line <> []) lines)
    by (rewrite Hp; exact Hne).
  split; [exact Hall_tokens|]. split; [exact Hnonempty|].
  rewrite <- (length_map stripItem items), <- (Permutation_length Hall_tokens).
  clear - Hnonempty. induction Hnonempty as [|line lines Hline _ IH]; simpl; [lia|].
  rewrite length_app. destruct (ln_tokens line); [congruence|]. simpl. lia.
Qed.

Lemma inject_Z_zero (d : Z) : Qeq_bool (inject_Z d) 0 = true <-> d = 0%Z.
Proof.
  rewrite Qeq_bool_iff. unfold Qeq. simpl. lia.
Qed.

Lemma lineOrder_le (a b : Line) :
  Qle_bool (lineOrder a b) 0 = true -> readsBefore a b.
Proof.
  unfold lineOrder, readsBefore. intros H.
  destruct (Qeq_bool (inject_Z (ln_page a - ln_page b)) 0) eqn:Hpage.
  - apply inject_Z_zero in Hpage. apply Qle_bool_iff in H.
    right. split; [lia|lra].
  - apply Qle_bool_iff in H. change 0%Q with (inject_Z 0) in H.
    rewrite <- Zle_Qle in H.
    assert (ln_page a - ln_page b <> 0)%Z.
    { intros Hz. apply inject_Z_zero in Hz. congruence. }
    left. lia.
Qed.

Lemma lineOrder_ge (a b : Line) :
  Qle_bool (lineOrder a b) 0 = false -> readsBefore b a.
Proof.
  unfold lineOrder, readsBefore. intros H.
  assert (Hpos : (0 < (if Qeq_bool (inject_Z (ln_page a - ln_page b)) 0
                       then ln_y b - ln_y a
                       else inject_Z (ln_page a - ln_page b)))%Q).
  { apply Qnot_le_lt. intros Hle. apply Qle_bool_iff in Hle. congruence. }
  clear H. destruct (Qeq_bool (inject_Z (ln_page a - ln_page b)) 0) eqn:Hpage.
  - apply inject_Z_zero in Hpage. right. split; [lia|lra].
  - change 0%Q with (inject_Z 0) in Hpos. rewrite <- Zlt_Qlt in Hpos.
    left. lia.
Qed.

(** X2: the lines [groupLines] returns are in reading order: pages
    ascending and, on one page, [y] descending; every line comes before
    all the lines after it. *)
Theorem groupLines_reading_order (items : list Item) :
  exists lines,
    groupLines items DEFAULT_TOLERANCE = Some lines
    /\ StronglySorted readsBefore lines.
Proof.
  destruct (groupLines_total items DEFAULT_TOLERANCE)
    as (lines & objs & Hl & _ & _).
  exists lines. split; [exact Hl|].
  unfold groupLines in Hl.
  destruct (mapOption lineObject (clusterRows DEFAULT_TOLERANCE items))
    as [lineObjects|]; [|discriminate].
  injection Hl as <-.
  apply Sorted_StronglySorted.
  - intros a b c [Hab|[Hab Hab']] [Hbc|[Hbc Hbc']]; unfold readsBefore.
    + left. lia.
    + left. lia.
    + left. lia.
    + right. split; [lia|lra].
  - apply jsSort_sorted; [exact lineOrder_le|exact lineOrder_ge].
Qed.




(* ------------------------------------------------------------------ *)
(** ** Segmentation on any input *)

(** Reading one more line without touching the players keeps the
    invariant, whatever happens to the team and to the marker count. *)
Lemma scanInvariant_skip (lines done : list Line) (line : Line) (st : Scan)
  (team : option string) (count : nat) :
  (count <= S (playersTotalCount st))%nat ->
  scanInvariant lines done st ->
  scanInvariant lines (done ++ [line])
    (mkScan (playersFound st) team (lastPlayerLineIndex st) count).
Proof.
  intros Hcount (Hrange & Hfound & Hlast & Hmarks).
  unfold scanInvariant. simpl. rewrite length_app. simpl.
  split; [lia|]. split; [exact Hfound|]. split; [|lia].
  intros player Hp. destruct (Hlast player Hp) as [Hpos (l & Hl & Hparse)].
  split; [exact Hpos|]. exists l. split; [|exact Hparse].
  apply lookup_app_l_Some. exact Hl.
Qed.

Lemma scanInvariant_same (lines done : list Line) (line : Line) (st : Scan) :
  scanInvariant lines done st -> scanInvariant lines (done ++ [line]) st.
Proof.
  intros H. destruct st as [players team lastIndex count].
  apply (scanInvariant_skip lines done line
           (mkScan players team lastIndex count) team count); [simpl; lia|exact H].
Qed.

Lemma extractLoop_result (lines rest : list Line) :
  forall done st,
    lines = done ++ rest ->
    scanInvariant lines done st ->
    scanResult lines (extractLoop rest (Z.of_nat (length done)) st).
Proof.
  induction rest as [|line rest IH]; intros done st Hall Hinv.
  - rewrite app_nil_r in Hall. subst done. simpl.
    destruct Hinv as (Hrange & Hfound & Hlast & _).
    split; [exact Hrange|]. split; [exact Hfound|exact Hlast].
  - assert (Hnext : lines = (done ++ [line]) ++ rest)
      by (rewrite <- app_assoc; exact Hall).
    assert (Hidx : (Z.of_nat (length done) + 1)%Z
                   = Z.of_nat (length (done ++ [line])))
      by (rewrite length_app; simpl; lia).
    assert (Hline : In line lines)
      by (rewrite Hall; apply in_or_app; right; left; reflexivity).
    assert (Hlen : (length done < length lines)%nat)
      by (rewrite Hall, length_app; simpl; lia).
    cbn [extractLoop].
    destruct (isEmpty (getLineText line)).
    { rewrite Hidx. apply IH; [exact Hnext|]. apply scanInvariant_same. exact Hinv. }
    destruct (isPlayersTotal (getLineText line)).
    { destruct (2 <=? S (playersTotalCount st))%nat eqn:Hsecond.
      - apply Nat.leb_le in Hsecond.
        destruct Hinv as (Hrange & Hfound & Hlast & Hmarks).
        unfold scanResult. cbn [fst snd].
        destruct (0 <=? lastPlayerLineIndex st)%Z eqn:Hpos.
        + apply Z.leb_le in Hpos. split; [lia|]. split; [exact Hfound|].
          intros player Hp. destruct (Hlast player Hp) as [_ (l & Hl & Hparse)].
          split; [exact Hpos|]. exists l. split; [|exact Hparse].
          rewrite Hall. apply lookup_app_l_Some. exact Hl.
        + apply Z.leb_gt in Hpos. split; [lia|]. split; [exact Hfound|].
          intros player Hp. destruct (Hlast player Hp) as [Habs _]. lia.
      - rewrite Hidx. apply IH; [exact Hnext|].
        apply scanInvariant_skip; [lia|exact Hinv]. }
    destruct (truthy (detectTeamHeader (getLineText line))).
    { rewrite Hidx. apply IH; [exact Hnext|].
      apply scanInvariant_skip; [lia|exact Hinv]. }
    destruct (isSectionTerminator (getLineText line)).
    { rewrite Hidx. apply IH; [exact Hnext|].
      apply scanInvariant_skip; [lia|exact Hinv]. }
    destruct (truthy (currentTeam st)) eqn:Hteam; cbn [negb].
    2:{ rewrite Hidx. apply IH; [exact Hnext|]. apply scanInvariant_same. exact Hinv. }
    destruct (parsePlayerLine line) as [parsed|] eqn:Hparse.
    2:{ rewrite Hidx. apply IH; [exact Hnext|]. apply scanInvariant_same. exact Hinv. }
    rewrite Hidx. apply IH; [exact Hnext|].
    destruct Hinv as (Hrange & Hfound & Hlast & Hmarks).
    unfold scanInvariant. cbn [playersFound lastPlayerLineIndex playersTotalCount].
    rewrite length_app. simpl length.
    split; [lia|]. split; [|split; [|lia]].
    + apply Forall_app. split; [exact Hfound|]. constructor; [|constructor].
      split; [exact Hteam|]. split; [reflexivity|].
      exists line. split; [exact Hline|exact Hparse].
    + intros player Hp. rewrite last_snoc in Hp. injection Hp as <-.
      split; [lia|]. exists line. rewrite Nat2Z.id. split; [|exact Hparse].
      rewrite lookup_app_r by lia. rewrite Nat.sub_diag. reflexivity.
Qed.

(** X4: for every sequence of lines, the index [extractPlayers] returns
    lies between -1 and the last index of the sequence; when players are
    found, it is the index of the line the last of them was read from;
    every player found was parsed from a line of the input under a team
    header, so its team is a non-empty name; and an index of -1 means that
    no player was found. *)
Theorem extractPlayers_result (lines : list Line) :
  (-1 <= snd (extractPlayers lines) < Z.of_nat (length lines))%Z
  /\ Forall (foundIn lines) (fst (extractPlayers lines))
  /\ (forall player,
        last (fst (extractPlayers lines)) = Some player ->
        (0 <= snd (extractPlayers lines))%Z
        /\ exists line,
             lines !! Z.to_nat (snd (extractPlayers lines)) = Some line
             /\ parsePlayerLine line = Some (pl_parsed player))
  /\ (snd (extractPlayers lines) = (-1)%Z -> fst (extractPlayers lines) = []).
Proof.
  assert (H : scanResult lines (extractPlayers lines)).
  { unfold extractPlayers. apply (extractLoop_result lines lines []);
      [reflexivity|].
    unfold scanInvariant. simpl. split; [lia|]. split; [constructor|].
    split; [intros player Hp; discriminate|lia]. }
  destruct H as (Hrange & Hfound & Hlast).
  split; [exact Hrange|]. split; [exact Hfound|]. split; [exact Hlast|].
  intros Hminus.
  destruct (fst (extractPlayers lines)) as [|p ps] using rev_ind; [reflexivity|].
  destruct (Hlast p) as [Hpos _]; [apply last_snoc|]. lia.
Qed.

(** X4 on the sample report. *)
Lemma extractPlayers_result_witness :
  (-1 <= snd (extractPlayers
                (sampleAlpha ++ sampleMarker :: sampleBeta
                 ++ sampleMarker :: sampleTail))
   < Z.of_nat (length (sampleAlpha ++ sampleMarker :: sampleBeta
                       ++ sampleMarker :: sampleTail)))%Z.
Proof.
  exact (proj1 (extractPlayers_result
                  (sampleAlpha ++ sampleMarker :: sampleBeta
                   ++ sampleMarker :: sampleTail))).
Defined.

(* ------------------------------------------------------------------ *)
(** ** The record of a player row *)

(** Removing a class of characters leaves none of them. *)
Lemma replaceGo_cls_removed (p : ascii -> bool) (s : string) :
  forall i prev,
    allChars (fun c => negb (p c)) (replaceGo (Cls p) "" 0 i prev s) = true.
Proof.
  induction s as [|c s IH]; intros i prev; [reflexivity|].
  cbn [replaceGo]. unfold matchAt. cbn [run p_rest p_idx p_cap].
  destruct (p c) eqn:Hc.
  - cbn [f_end String.append].
    replace (Nat.eqb (S i) i) with false by (symmetry; apply Nat.eqb_neq; lia).
    replace (S i - i - 1)%nat with 0%nat by lia. apply IH.
  - cbn [allChars]. rewrite Hc. cbn [negb andb]. apply IH.
Qed.

Lemma numberDigits_Some (text digits : string) :
  numberDigits text = Some digits ->
  allChars isDigit digits = true
  /\ (1 <= String.length digits <= 3)%nat.
Proof.
  unfold numberDigits.
  set (raw := replaceAll (plus space) "" text).
  set (d := replaceAll (noneOf isDigit) "" raw).
  destruct (isEmpty d || (3 <? String.length d)%nat) eqn:Hguard; [discriminate|].
  destruct (negb (isEmpty _) && negb (test LIBERO_REGEX _)); [discriminate|].
  intros H. injection H as <-.
  apply orb_false_iff in Hguard. destruct Hguard as [Hne Hlen].
  apply Nat.ltb_ge in Hlen. split.
  - unfold d, replaceAll, noneOf.
    eapply allChars_impl; [|apply replaceGo_cls_removed].
    intros c Hc. simpl in Hc. apply negb_true_iff, negb_false_iff in Hc. exact Hc.
  - split; [|exact Hlen]. destruct d; [discriminate|simpl; lia].
Qed.

Lemma digit_value (c : ascii) :
  isDigit c = true -> (0 <= Z.of_N (code c) - 48 <= 9)%Z.
Proof.
  unfold isDigit, inRange. intros H. apply andb_true_iff in H.
  destruct H as [H1 H2]. apply N.leb_le in H1, H2. lia.
Qed.

Lemma digitsValue_short (digits : string) :
  allChars isDigit digits = true -> (String.length digits <= 3)%nat ->
  (0 <= digitsValue 0 digits <= 999)%Z.
Proof.
  intros Hall Hlen.
  destruct digits as [|c1 [|c2 [|c3 [|c4 rest]]]]; simpl in *; try lia;
    repeat match goal with
           | H : _ && _ = true |- _ => apply andb_true_iff in H; destruct H
           | H : isDigit _ = true |- _ => apply digit_value in H
           end; lia.
Qed.

Lemma scanNumber_Some (budget : nat) :
  forall i tokens index digits,
    scanNumber budget i tokens = Some (index, digits) ->
    exists token, In token tokens /\ numberDigits (st_text token) = Some digits.
Proof.
  induction budget as [|budget IH]; intros i tokens index digits H; [discriminate|].
  destruct tokens as [|token rest]; [discriminate|]. simpl in H.
  destruct (numberDigits (st_text token)) as [d|] eqn:Hd.
  - injection H as <- <-. exists token. split; [left; reflexivity|exact Hd].
  - destruct (IH _ _ _ _ H) as (t & Ht & Hnum).
    exists t. split; [right; exact Ht|exact Hnum].
Qed.

Lemma trimEnd_idem (s : string) : trimEnd (trimEnd s) = trimEnd s.
Proof.
  induction s as [|c s IH]; [reflexivity|]. simpl.
  destruct (isSpace c && isEmpty (trimEnd s)) eqn:Hc; [reflexivity|].
  simpl. rewrite IH, Hc. reflexivity.
Qed.

(** [trim] changes nothing on a text already trimmed. *)
Lemma trim_idem (s : string) : trim (trim s) = trim s.
Proof.
  pose proof (trim_head s) as Hh. unfold trim at 1.
  destruct (trim s) as [|c r] eqn:Hs; [reflexivity|].
  simpl. rewrite Hh. rewrite <- Hs. unfold trim. apply trimEnd_idem.
Qed.

Lemma dropLibero_Forall (P : SToken -> Prop) (tokens : list SToken) :
  Forall P tokens -> Forall P (dropLibero tokens).
Proof.
  induction 1 as [|token rest Ht Hrest IH]; simpl; [constructor|].
  destruct (isLiberoMarker (st_text token)); [exact IH|].
  constructor; assumption.
Qed.

Lemma statZone_Forall (P : SToken -> Prop) (tokens : list SToken) :
  Forall P tokens -> Forall P (statZone tokens).
Proof.
  induction 1 as [|token rest Ht Hrest IH]; simpl; [constructor|].
  destruct (isStatValue (st_text token)); [constructor; assumption|exact IH].
Qed.

(** X5: every record [parsePlayerLine] returns has a number between 0 and
    999, a name that is not empty and carries no white space at either
    end, and stat tokens whose texts are not empty and start with a
    character that is not white space. *)
Theorem parsePlayerLine_record (line : Line) (r : ParsedPlayer)
  (Hparsed : parsePlayerLine line = Some r) :
  (0 <= pp_number r <= 999)%Z
  /\ pp_name r <> EmptyString
  /\ trim (pp_name r) = pp_name r
  /\ Forall (fun token =>
               exists c rest, st_text token = String c rest /\ isSpace c = false)
            (pp_statTokens r)
  /\ pp_lineText r = getLineText line.
Proof.
  destruct (parsePlayerLine_Some line r Hparsed)
    as (numberIndex & numberText & Hscan & Hr & Hname).
  cbv zeta in Hr.
  destruct (scanNumber_Some _ _ _ _ _ Hscan) as (token & _ & Hnum).
  destruct (numberDigits_Some _ _ Hnum) as [Hdigits [_ Hlen]].
  split; [subst r; simpl; apply digitsValue_short; assumption|].
  split; [exact Hname|].
  split; [subst r; simpl; apply trim_idem|].
  split; [|subst r; reflexivity].
  subst r. simpl. apply statZone_Forall, dropLibero_Forall.
  apply Forall_drop. apply flattenTokens_head.
Qed.

(** X5 on the line ["12"; "L"; "Ana"; "Silva"; "12"; "."; "3"; "88%"]. *)
Lemma parsePlayerLine_record_witness :
  exists r,
    parsePlayerLine
      (lineOf ["12"; "L"; "Ana"; "Silva"; "12"; "."; "3"; "88%"]%string) = Some r
    /\ (0 <= pp_number r <= 999)%Z.
Proof.
  destruct (parsePlayerLine
              (lineOf ["12"; "L"; "Ana"; "Silva"; "12"; "."; "3"; "88%"]%string))
    as [r|] eqn:Hparsed; [|vm_compute in Hparsed; discriminate].
  exists r. split; [reflexivity|].
  exact (proj1 (parsePlayerLine_record _ r Hparsed)).
Defined.

(* ------------------------------------------------------------------ *)
(** ** The name of a team header *)

Lemma run_Rep {R : Type} (lo : nat) (hi : option nat) (a : re) (st : pos)
  (k : pos -> option R) :
  run (Rep lo hi a) st k
  = repLoop a k (S (lo + String.length (p_rest st))) lo hi st.
Proof. reflexivity. Qed.

Lemma repLoop_due {R : Type} (a : re) (k : pos -> option R) (fuel lo : nat)
  (hi : option nat) (st : pos) :
  repLoop a k (S fuel) (S lo) hi st
  = run a st (fun st' => repLoop a k fuel lo (decr hi) st').
Proof. reflexivity. Qed.

Lemma repLoop_star_step {R : Type} (p : ascii -> bool) (k : pos -> option R)
  (fuel : nat) (st : pos) :
  repLoop (Cls p) k (S fuel) 0 None st
  = match p_rest st with
    | String c s' =>
        if p c
        then match repLoop (Cls p) k fuel 0 None
                     (mkPos (S (p_idx st)) (Some c) s' (p_cap st)) with
             | Some x => Some x
             | None => k st
             end
        else k st
    | EmptyString => k st
    end.
Proof.
  cbn [repLoop run decr]. destruct (p_rest st) as [|c s']; [reflexivity|].
  destruct (p c); [|reflexivity]. cbn [p_idx].
  replace (Nat.eqb (S (p_idx st)) (p_idx st)) with false
    by (symmetry; apply Nat.eqb_neq; lia).
  reflexivity.
Qed.

(** A starred class never moves backwards. *)
Lemma repLoop_star_end (p : ascii -> bool) (i : nat) (fuel : nat) :
  forall st m,
    repLoop (Cls p) (fun st' => Some (mkFound i (p_idx st') (p_cap st')))
            fuel 0 None st = Some m ->
    (p_idx st <= f_end m)%nat.
Proof.
  induction fuel as [|fuel IH]; intros st m H; [discriminate|].
  rewrite repLoop_star_step in H.
  destruct (p_rest st) as [|c s'].
  - injection H as <-. simpl. lia.
  - destruct (p c).
    + destruct (repLoop _ _ fuel 0 None _) as [x|] eqn:Hx.
      * injection H as <-. apply IH in Hx. simpl in Hx. lia.
      * injection H as <-. simpl. lia.
    + injection H as <-. simpl. lia.
Qed.

Lemma repLoop_star_total (p : ascii -> bool) (i : nat) (fuel : nat) (st : pos) :
  exists m,
    repLoop (Cls p) (fun st' => Some (mkFound i (p_idx st') (p_cap st')))
            (S fuel) 0 None st = Some m.
Proof.
  rewrite repLoop_star_step. destruct (p_rest st) as [|c s']; [eauto|].
  destruct (p c); [|eauto].
  destruct (repLoop _ _ fuel 0%nat None _); eauto.
Qed.

(** [p+] at a character of the class matches, and ends further on. *)
Lemma matchAt_plus_present (p : ascii -> bool) (i : nat) (prev : option ascii)
  (c : ascii) (s : string) :
  p c = true ->
  exists m, matchAt (plus (Cls p)) i prev (String c s) = Some m
            /\ (i < f_end m)%nat.
Proof.
  intros Hc. unfold matchAt, plus. rewrite run_Rep.
  cbn [p_rest String.length Nat.add]. rewrite repLoop_due.
  cbn [run p_rest p_idx p_cap decr]. rewrite Hc.
  destruct (repLoop_star_total p i (S (String.length s))
              (mkPos (S i) (Some c) s None)) as (m & Hm).
  exists m. split; [exact Hm|]. apply repLoop_star_end in Hm. simpl in Hm. lia.
Qed.

Lemma matchAt_plus_absent (p : ascii -> bool) (i : nat) (prev : option ascii)
  (s : string) :
  match s with String c _ => p c = false | EmptyString => True end ->
  matchAt (plus (Cls p)) i prev s = None.
Proof.
  intros H. unfold matchAt, plus. rewrite run_Rep.
  destruct s as [|c s]; [reflexivity|].
  cbn [p_rest String.length Nat.add]. rewrite repLoop_due.
  cbn [run p_rest]. rewrite H. reflexivity.
Qed.

Lemma allChars_app (p : ascii -> bool) (a b : string) :
  allChars p (a ++ b)%string = allChars p a && allChars p b.
Proof.
  induction a as [|c a IH]; simpl; [reflexivity|].
  rewrite IH, andb_assoc. reflexivity.
Qed.

(** Replacing every run of a class leaves no character of the class, when
    the replacement has none. *)
Lemma replaceGo_plus_removed (p : ascii -> bool) (repl s : string) :
  allChars (fun c => negb (p c)) repl = true ->
  forall skip i prev,
    allChars (fun c => negb (p c))
             (replaceGo (plus (Cls p)) repl skip i prev s) = true.
Proof.
  intros Hrepl. induction s as [|c s IH]; intros skip i prev.
  - destruct skip; [|reflexivity]. cbn [replaceGo].
    rewrite matchAt_plus_absent by exact I. reflexivity.
  - destruct skip as [|skip]; [|cbn [replaceGo]; apply IH].
    cbn [replaceGo]. destruct (p c) eqn:Hc.
    + destruct (matchAt_plus_present p i prev c s Hc) as (m & -> & Hend).
      replace (Nat.eqb (f_end m) i) with false
        by (symmetry; apply Nat.eqb_neq; lia).
      rewrite allChars_app, Hrepl. apply IH.
    + rewrite matchAt_plus_absent by exact Hc.
      cbn [allChars]. rewrite Hc. cbn [negb andb]. apply IH.
Qed.

(** A replacement brings in no character but its own. *)
Lemma replaceGo_allChars (p : ascii -> bool) (r : re) (repl s : string) :
  allChars p repl = true -> allChars p s = true ->
  forall skip i prev, allChars p (replaceGo r repl skip i prev s) = true.
Proof.
  intros Hrepl. induction s as [|c s IH]; intros Hs skip i prev.
  - destruct skip; [|reflexivity]. cbn [replaceGo].
    destruct (matchAt r i prev ""); [|reflexivity].
    rewrite allChars_app, Hrepl. reflexivity.
  - simpl in Hs. apply andb_true_iff in Hs. destruct Hs as [Hc Hs].
    destruct skip as [|skip]; [|cbn [replaceGo]; apply IH; exact Hs].
    cbn [replaceGo]. destruct (matchAt r i prev (String c s)) as [m|].
    + rewrite allChars_app, Hrepl. cbn [andb].
      destruct (Nat.eqb (f_end m) i); [|apply IH; exact Hs].
      cbn [allChars]. rewrite Hc. apply IH. exact Hs.
    + cbn [allChars]. rewrite Hc. apply IH. exact Hs.
Qed.

Lemma trimStart_allChars (p : ascii -> bool) (s : string) :
  allChars p s = true -> allChars p (trimStart s) = true.
Proof.
  induction s as [|c s IH]; [reflexivity|]. intros H. cbn [trimStart].
  destruct (isSpace c); [|exact H].
  simpl in H. apply andb_true_iff in H. apply IH, H.
Qed.

Lemma trimEnd_allChars (p : ascii -> bool) (s : string) :
  allChars p s = true -> allChars p (trimEnd s) = true.
Proof.
  induction s as [|c s IH]; [reflexivity|]. intros H.
  simpl in H. apply andb_true_iff in H. destruct H as [Hc Hs].
  simpl. destruct (isSpace c && isEmpty (trimEnd s)); [reflexivity|].
  simpl. rewrite Hc. apply IH, Hs.
Qed.

Lemma trim_allChars (p : ascii -> bool) (s : string) :
  allChars p s = true -> allChars p (trim s) = true.
Proof. intros H. apply trimEnd_allChars, trimStart_allChars, H. Qed.

Lemma splitGo_allChars (p : ascii -> bool) (r : re) (s : string) :
  forall skip i prev cur,
    allChars p cur = true -> allChars p s = true ->
    Forall (fun piece => allChars p piece = true) (splitGo r skip i prev cur s).
Proof.
  induction s as [|c s IH]; intros skip i prev cur Hcur Hs.
  - constructor; [exact Hcur|constructor].
  - simpl in Hs. apply andb_true_iff in Hs. destruct Hs as [Hc Hs].
    assert (Hnext : allChars p (cur ++ String c EmptyString)%string = true).
    { rewrite allChars_app, Hcur. simpl. rewrite Hc. reflexivity. }
    cbn [splitGo]. destruct skip as [|skip]; [|apply IH; assumption].
    destruct (matchAt r i prev (String c s)) as [m|]; [|apply IH; assumption].
    destruct (Nat.eqb (f_end m) i); [apply IH; assumption|].
    constructor; [exact Hcur|apply IH; [reflexivity|exact Hs]].
Qed.

Lemma join_allChars (p : ascii -> bool) (sep : string) (parts : list string) :
  allChars p sep = true ->
  Forall (fun part => allChars p part = true) parts ->
  allChars p (join sep parts) = true.
Proof.
  intros Hsep. unfold join. induction 1 as [|part rest Hpart Hrest IH];
    [reflexivity|].
  cbn [String.concat]. destruct rest as [|next rest]; [exact Hpart|].
  rewrite !allChars_app, Hpart, Hsep. exact IH.
Qed.

Lemma join_head (sep : string) (c : ascii) (r : string) (rest : list string) :
  exists r', join sep (String c r :: rest) = String c r'.
Proof.
  unfold join. cbn [String.concat]. destruct rest; simpl; eauto.
Qed.

(** A pattern anchored at the start matches at the start or nowhere. *)
Lemma execFrom_Bol (r : re) (s : string) :
  forall i prev, execFrom (Seq Bol r) (S i) prev s = None.
Proof.
  induction s as [|c s IH]; intros i prev; simpl; [reflexivity|apply IH].
Qed.

Lemma repLoop_star_Eol {R : Type} (p : ascii -> bool) (k : pos -> option R)
  (fuel : nat) :
  forall st x,
    repLoop (Cls p) (fun st' => run Eol st' k) fuel 0 None st = Some x ->
    allChars p (p_rest st) = true.
Proof.
  induction fuel as [|fuel IH]; intros st x H; [discriminate|].
  rewrite repLoop_star_step in H. cbn [run] in H.
  destruct (p_rest st) as [|c s'] eqn:Hrest; [reflexivity|].
  cbn [isEmpty] in H. destruct (p c) eqn:Hc; [|discriminate].
  destruct (repLoop _ _ fuel 0 None _) as [y|] eqn:Hy; [|discriminate].
  apply IH in Hy. simpl in Hy. simpl. rewrite Hc, Hy. reflexivity.
Qed.

Lemma run_anchored_class {R : Type} (p q : ascii -> bool) (prev : option ascii)
  (c : ascii) (rest : string) (cap : option (nat * nat)) (k : pos -> option R) :
  run (Seq Bol (Seq (Cls p) (Seq (Rep 0 None (Cls q)) Eol)))
      (mkPos 0 prev (String c rest) cap) k
  = if p c
    then repLoop (Cls q) (fun st' => run Eol st' k) (S (String.length rest))
                 0 None (mkPos 1 (Some c) rest cap)
    else None.
Proof. reflexivity. Qed.

(** What [isValidChunk] accepts. *)
Lemma isValidChunk_shape (chunk : string) :
  isValidChunk chunk = true ->
  exists c rest,
    chunk = String c rest
    /\ (isCapital c || isDigit c) = true
    /\ allChars (fun x => isLetterAZ x || inRange 192 250 x || isDigit x
                          || N.eqb (code x) 39 || N.eqb (code x) 32) rest = true.
Proof.
  unfold isValidChunk, test, exec, VALID_CHUNK_REGEX. cbn [seqs].
  intros H. destruct chunk as [|c rest].
  - vm_compute in H. discriminate.
  - cbn [execFrom] in H. rewrite execFrom_Bol in H.
    destruct (matchAt _ 0 None (String c rest)) as [m|] eqn:Hm; [|discriminate].
    clear H. unfold matchAt, star in Hm. rewrite run_anchored_class in Hm.
    destruct (isUpperAZ c || inRange 192 218 c || isDigit c) eqn:Hc; [|discriminate].
    exists c, rest. split; [reflexivity|]. split; [exact Hc|].
    apply repLoop_star_Eol in Hm. exact Hm.
Qed.

Lemma nameChar_of_chunk (c : ascii) :
  (isLetterAZ c || inRange 192 250 c || isDigit c
   || N.eqb (code c) 39 || N.eqb (code c) 32) = true ->
  negb (isDigit c) = true ->
  isTeamNameChar c = true.
Proof.
  unfold isTeamNameChar. intros H Hd. apply negb_true_iff in Hd.
  rewrite Hd in H. rewrite orb_false_r in H. rewrite H. reflexivity.
Qed.

Lemma capital_nameChar (c : ascii) :
  isCapital c = true -> isTeamNameChar c = true.
Proof.
  unfold isCapital, isTeamNameChar, isLetterAZ, isUpperAZ, isLowerAZ, inRange.
  intros H.
  repeat first [rewrite orb_true_iff in H | rewrite andb_true_iff in H
               | rewrite N.leb_le in H].
  repeat first [rewrite orb_true_iff | rewrite andb_true_iff
               | rewrite N.leb_le | rewrite N.eqb_eq].
  lia.
Qed.

Lemma allChars_and (p q : ascii -> bool) (s : string) :
  allChars p s = true -> allChars q s = true ->
  allChars (fun c => p c && q c) s = true.
Proof.
  induction s as [|c s IH]; simpl; [reflexivity|].
  rewrite !andb_true_iff. intros [Hp Hps] [Hq Hqs].
  split; [split; assumption|apply IH; assumption].
Qed.

(** A valid chunk without digits is a capital followed by name characters. *)
Lemma chunk_name (chunk : string) :
  isValidChunk chunk = true ->
  allChars (fun c => negb (isDigit c)) chunk = true ->
  (exists c rest, chunk = String c rest /\ isCapital c = true)
  /\ allChars isTeamNameChar chunk = true.
Proof.
  intros Hvalid Hnd.
  destruct (isValidChunk_shape _ Hvalid) as (c & rest & -> & Hc & Hrest).
  simpl in Hnd. apply andb_true_iff in Hnd. destruct Hnd as [Hdc Hdrest].
  assert (Hcap : isCapital c = true).
  { apply negb_true_iff in Hdc. rewrite Hdc, orb_false_r in Hc. exact Hc. }
  split; [exists c, rest; split; [reflexivity|exact Hcap]|].
  simpl. rewrite (capital_nameChar _ Hcap). simpl.
  eapply allChars_impl; [|apply (allChars_and _ _ _ Hrest Hdrest)].
  intros x Hx. apply andb_true_iff in Hx. destruct Hx as [Hx1 Hx2].
  apply nameChar_of_chunk; assumption.
Qed.

(** X6: a name returned by [detectTeamHeader] starts with a capital letter
    [A-ZÀ-Ú] and is made of letters, apostrophes, spaces and hyphens only:
    it holds no digit, although the pattern of a chunk allows them. *)
Theorem detectTeamHeader_name (text name : string)
  (Hname : detectTeamHeader text = Some name) :
  (exists c rest, name = String c rest /\ isCapital c = true)
  /\ allChars isTeamNameChar name = true
  /\ allChars (fun c => negb (isDigit c)) name = true.
Proof.
  unfold detectTeamHeader in Hname.
  destruct (isEmpty text); [discriminate|]. cbv zeta in Hname.
  destruct (isEmpty (trim (collapseSpaces text))); [discriminate|].
  match type of Hname with
  | (if isEmpty ?t then _ else _) = _ =>
      destruct (isEmpty t); [discriminate|]
  end.
  match type of Hname with
  | (if isEmpty ?t then _ else _) = _ =>
      destruct (isEmpty t); [discriminate|]; set (withoutScores := t) in *
  end.
  set (cleanText := trim (collapseSpaces
                            (replaceAll (plus digit) " " withoutScores))) in *.
  assert (Hclean : allChars (fun c => negb (isDigit c)) cleanText = true).
  { unfold cleanText, collapseSpaces, replaceAll.
    apply trim_allChars, replaceGo_allChars; [reflexivity|].
    apply replaceGo_plus_removed. reflexivity. }
  clearbody cleanText. clear withoutScores.
  destruct (includes "-" cleanText).
  - set (pieces := filterNonEmpty (List.map trim (split (chr "-") cleanText)))
      in *.
    assert (Hpieces : Forall (fun piece =>
                                allChars (fun c => negb (isDigit c)) piece = true)
                             pieces).
    { unfold pieces, filterNonEmpty. apply List.Forall_forall.
      intros piece Hin. apply filter_In in Hin. destruct Hin as [Hin _].
      apply in_map_iff in Hin. destruct Hin as (raw & <- & Hraw).
      apply trim_allChars.
      pose proof (splitGo_allChars (fun c => negb (isDigit c)) (chr "-")
                    cleanText 0 0 None "" eq_refl Hclean) as Hall.
      rewrite List.Forall_forall in Hall. apply Hall. exact Hraw. }
    clearbody pieces.
    assert (Hparts : Forall (fun part =>
                               (exists c rest, part = String c rest
                                               /\ isCapital c = true)
                               /\ allChars isTeamNameChar part = true
                               /\ allChars (fun c => negb (isDigit c)) part = true)
                            (List.filter isValidChunk pieces)).
    { apply List.Forall_forall. intros part Hin.
      apply filter_In in Hin. destruct Hin as [Hin Hvalid].
      rewrite List.Forall_forall in Hpieces. specialize (Hpieces _ Hin).
      destruct (chunk_name _ Hvalid Hpieces) as [Hhead Hall].
      split; [exact Hhead|]. split; [exact Hall|exact Hpieces]. }
    destruct (List.filter isValidChunk pieces) as [|part parts] eqn:Hfilter;
      [discriminate|].
    injection Hname as <-.
    pose proof (Forall_inv Hparts) as ((c & rest & -> & Hcap) & _).
    split.
    + destruct (join_head " - " c rest parts) as (r' & Hr').
      exists c, r'. split; [exact Hr'|exact Hcap].
    + split.
      * apply (join_allChars isTeamNameChar " - " (String c rest :: parts));
          [reflexivity|].
        eapply List.Forall_impl; [|exact Hparts]. intros part H. apply H.
      * apply (join_allChars (fun x => negb (isDigit x)) " - "
                 (String c rest :: parts)); [reflexivity|].
        eapply List.Forall_impl; [|exact Hparts]. intros part H. apply H.
  - destruct (isValidChunk cleanText) eqn:Hvalid; [|discriminate].
    injection Hname as <-.
    destruct (chunk_name _ Hvalid Hclean) as [Hhead Hall].
    split; [exact Hhead|]. split; [exact Hall|exact Hclean].
Qed.

(** X6 on the header ["Sporting 21 - Benfica B2 Set 25-20"]. *)
Lemma detectTeamHeader_name_witness :
  detectTeamHeader "Sporting 21 - Benfica B2 Set 25-20" = Some "Sporting - Benfica B"
  /\ allChars (fun c => negb (isDigit c)) "Sporting - Benfica B" = true.
Proof.
  split; [vm_compute; reflexivity|].
  exact (proj2 (proj2 (detectTeamHeader_name
                         "Sporting 21 - Benfica B2 Set 25-20"
                         "Sporting - Benfica B" eq_refl))).
Defined.

(* ------------------------------------------------------------------ *)
(** ** Anchors, labels and the rows of the table *)

Lemma buildTableColumnLabels_length (setCount : option Z) :
  length (buildTableColumnLabels setCount)
  = (Z.to_nat (clampedSets setCount) + 17)%nat.
Proof.
  unfold buildTableColumnLabels. cbv zeta.
  rewrite length_app, length_map, length_seq. reflexivity.
Qed.

Lemma clampedSets_effective (detected : Z) :
  clampedSets (Some (effectiveSetCount detected)) = clampedSets (Some detected).
Proof.
  unfold clampedSets, effectiveSetCount, DEFAULT_SET_COLUMNS.
  destruct (Z.eqb detected 0) eqn:Hd; [reflexivity|]. rewrite Hd. reflexivity.
Qed.

Lemma labels_effective (detected : Z) :
  length (buildTableColumnLabels (Some (effectiveSetCount detected)))
  = length (buildTableColumnLabels (Some detected)).
Proof. rewrite !buildTableColumnLabels_length, clampedSets_effective. reflexivity. Qed.

Lemma inferAnchorsFromHeader_length (lines : list Line) (r : Inference) :
  inferAnchorsFromHeader lines = Some r ->
  exists anchors,
    fst r = Some anchors
    /\ length anchors = length (buildTableColumnLabels (Some (snd r))).
Proof.
  unfold inferAnchorsFromHeader.
  destruct (List.find isHeaderLine lines) as [headerLine|]; [|discriminate].
  cbv zeta.
  destruct (findIndex _ (flattenTokens (ln_tokens headerLine)) 0)
    as [firstDataIndex|]; [|discriminate].
  set (dataTokens := drop firstDataIndex (flattenTokens (ln_tokens headerLine))).
  destruct dataTokens as [|token rest] eqn:Hdata; [discriminate|].
  rewrite <- Hdata. clear Hdata.
  match goal with
  | |- (if (_ <? length (buildTableColumnLabels (Some ?n)))%nat then _ else _) = _
       -> _ => set (setCount := n)
  end.
  destruct (length dataTokens <? length (buildTableColumnLabels (Some setCount)))%nat
    eqn:Hlen; [discriminate|].
  intros H. injection H as <-. apply Nat.ltb_ge in Hlen.
  eexists. split; [reflexivity|]. simpl.
  rewrite length_map, length_take. lia.
Qed.

Lemma inferColumnAnchors_length (players : list Player) (lines : list Line)
  (currentSetCount : Z) (anchors : list Anchor) :
  fst (inferColumnAnchors players lines currentSetCount) = Some anchors ->
  length anchors
  = length (buildTableColumnLabels
              (Some (snd (inferColumnAnchors players lines currentSetCount)))).
Proof.
  unfold inferColumnAnchors.
  destruct (inferAnchorsFromHeader lines) as [r|] eqn:Hheader.
  - destruct (inferAnchorsFromHeader_length _ _ Hheader) as (a & Ha & Hlen).
    rewrite Ha. intros H. injection H as <-. exact Hlen.
  - cbv zeta. destruct players as [|player players]; [discriminate|].
    match goal with
    | |- fst (match ?c with [] => _ | _ :: _ => _ end) = _ -> _ =>
        destruct c as [|candidateTokens others] eqn:Hsorted
    end; [discriminate|].
    simpl. intros H. injection H as <-.
    assert (Hin : In candidateTokens (candidateTokens :: others))
      by (left; reflexivity).
    rewrite <- Hsorted in Hin.
    apply (Permutation_in _ (jsSort_perm _ _)) in Hin.
    apply filter_In in Hin. destruct Hin as [_ Hlen].
    apply Nat.leb_le in Hlen.
    rewrite length_map, length_take. lia.
Qed.

(** X7: the anchors [inferColumnAnchors] returns, when it returns any, are
    as many as the labels [parsePDF] builds from the detected set count;
    so the mapper called with them never takes its positional branch. *)
Theorem inferColumnAnchors_fits_labels (players : list Player)
  (lines : list Line) (currentSetCount : Z) (anchors : list Anchor)
  (Hanchors : fst (inferColumnAnchors players lines currentSetCount)
              = Some anchors) :
  let detectedSetCount := snd (inferColumnAnchors players lines currentSetCount) in
  let labels := buildTableColumnLabels (Some (effectiveSetCount detectedSetCount)) in
  length anchors = length labels
  /\ forall tokens,
       mapTokensToColumns tokens (Some anchors) labels
       = fst (assignAll anchors labels tokens).
Proof.
  intros detectedSetCount labels.
  assert (Hlen : length anchors = length labels).
  { unfold labels. rewrite labels_effective.
    apply inferColumnAnchors_length. exact Hanchors. }
  split; [exact Hlen|]. intros tokens. unfold mapTokensToColumns.
  assert (Hlabels : effectiveLabels labels = labels).
  { apply effectiveLabels_nonempty. intros Hnil.
    pose proof (buildTableColumnLabels_length
                  (Some (effectiveSetCount detectedSetCount))) as Hl.
    fold labels in Hl. rewrite Hnil in Hl. simpl in Hl. lia. }
  rewrite Hlabels, Hlen, Nat.eqb_refl. reflexivity.
Qed.

(** X7 on the header line of a three-set report. *)
Lemma inferColumnAnchors_fits_labels_witness :
  exists anchors,
    fst (inferColumnAnchors [] [sampleHeader] 4) = Some anchors
    /\ length anchors = 20%nat.
Proof.
  destruct (fst (inferColumnAnchors [] [sampleHeader] 4)) as [anchors|] eqn:H;
    [|vm_compute in H; discriminate].
  exists anchors. split; [reflexivity|].
  rewrite (proj1 (inferColumnAnchors_fits_labels _ _ _ _ H)).
  vm_compute. reflexivity.
Defined.

(** X8: [parsePDF] never reaches its [catch] from the grouping on, the set
    count it stores is not zero, and every player it stores has as many
    cells as the header built from that set count has labels, between 18
    and 22. *)
Theorem parsePDF_rows_fit_header (items : list Item) (setColumnCount : Z) :
  exists parse,
    parsePDF items setColumnCount = Some parse
    /\ ps_setColumnCount parse <> 0%Z
    /\ (18 <= length (buildTableColumnLabels (Some (ps_setColumnCount parse)))
        <= 22)%nat
    /\ Forall (fun player =>
                 exists cells,
                   pl_columnValues player = Some cells
                   /\ length cells
                      = length (buildTableColumnLabels
                                  (Some (ps_setColumnCount parse))))
              (ps_players parse).
Proof.
  unfold parsePDF.
  destruct (groupLines_total items DEFAULT_TOLERANCE) as (lines & _ & -> & _).
  destruct (detectMatchMetadata lines) as [detectedDate detectedTime].
  destruct (extractPlayers lines) as [parsedPlayers lastPlayerLineIndex].
  destruct (inferColumnAnchors parsedPlayers
              (relevantLines lines lastPlayerLineIndex) setColumnCount)
    as [columnAnchors detectedSetCount].
  eexists. split; [reflexivity|]. cbn [ps_setColumnCount ps_players].
  set (effective := effectiveSetCount detectedSetCount).
  pose proof (buildTableColumnLabels_length (Some effective)) as Hlen.
  pose proof (clampedSets_range (Some effective)) as Hrange.
  split.
  { unfold effective, effectiveSetCount, DEFAULT_SET_COLUMNS.
    destruct (Z.eqb detectedSetCount 0) eqn:Hd; [discriminate|].
    apply Z.eqb_neq. exact Hd. }
  split; [lia|].
  apply List.Forall_forall. intros player Hin.
  apply in_map_iff in Hin. destruct Hin as (parsed & <- & _).
  eexists. split; [reflexivity|].
  rewrite mapTokensToColumns_length. f_equal.
  apply effectiveLabels_nonempty. intros Hnil. rewrite Hnil in Hlen.
  simpl in Hlen. lia.
Qed.

(* ------------------------------------------------------------------ *)
(** ** The stats object of the payload *)

Lemma objGet_absent {V : Type} (key : string) (obj : object V) :
  ~ In key (List.map fst obj) -> objGet key obj = None.
Proof.
  induction obj as [|[k v] obj IH]; simpl; intros Hnot; [reflexivity|].
  destruct (String.eqb k key) eqn:Hk.
  - apply String.eqb_eq in Hk. tauto.
  - apply IH. tauto.
Qed.

(** Over distinct labels, the reduction that builds [stats] makes one entry
    per label, in the order of the labels. *)
Lemma stats_fold (value : nat -> string) (labels : list string) :
  forall k acc,
    NoDup labels ->
    (forall label, In label labels -> ~ In label (List.map fst acc)) ->
    fold_left (fun acc '(index, label) => objSet label (value index) acc)
              (imap (fun j label => ((k + j)%nat, label)) labels) acc
    = acc ++ imap (fun j label => (label, value (k + j)%nat)) labels.
Proof.
  induction labels as [|label labels IH]; intros k acc Hnodup Hfresh.
  - simpl. rewrite app_nil_r. reflexivity.
  - apply NoDup_cons in Hnodup. destruct Hnodup as [Hhead Hnodup].
    rewrite list_elem_of_In in Hhead.
    cbn [imap fold_left].
    destruct (objGet_None label acc) as [_ Hset].
    { apply objGet_absent, Hfresh. left. reflexivity. }
    rewrite Hset.
    rewrite (imap_ext _ (fun j l => ((S k + j)%nat, l)))
      by (intros; simpl; f_equal; lia).
    rewrite IH; [| exact Hnodup |].
    + rewrite <- app_assoc. cbn [app]. do 2 f_equal.
      apply imap_ext. intros j l _. simpl. do 2 f_equal. lia.
    + intros l Hl. rewrite map_app, in_app_iff. simpl.
      intros [Hin|[<-|[]]]; [|exact (Hhead Hl)].
      apply (Hfresh l); [right; exact Hl|exact Hin].
Qed.

Lemma statsOf_entries (labels : list string) (player : Player) :
  NoDup labels ->
  statsOf labels player
  = imap (fun index label => (label, cellOf player index)) labels.
Proof.
  intros Hnodup. unfold statsOf.
  pose proof (stats_fold (cellOf player) labels 0 [] Hnodup) as H.
  cbn [Nat.add app] in H. rewrite <- H; [|intros ? _ []].
  reflexivity.
Qed.

Lemma objGet_imap (value : nat -> string) (labels : list string) :
  forall k i label,
    NoDup labels -> labels !! i = Some label ->
    objGet label (imap (fun j l => (l, value (k + j)%nat)) labels)
    = Some (value (k + i)%nat).
Proof.
  induction labels as [|l labels IH]; intros k i label Hnodup Hi; [discriminate|].
  apply NoDup_cons in Hnodup. destruct Hnodup as [Hhead Hnodup].
  cbn [imap objGet]. destruct i as [|i].
  - injection Hi as <-. rewrite String.eqb_refl. reflexivity.
  - simpl in Hi. destruct (String.eqb l label) eqn:Heq.
    + apply String.eqb_eq in Heq. subst l. exfalso. apply Hhead.
      eapply list_elem_of_lookup_2. exact Hi.
    + rewrite (imap_ext _ (fun j l0 => (l0, value (S k + j)%nat)))
        by (intros; simpl; do 2 f_equal; lia).
      rewrite (IH (S k) i label Hnodup Hi). do 2 f_equal. lia.
Qed.

Lemma buildTableColumnLabels_NoDup (setCount : option Z) :
  NoDup (buildTableColumnLabels setCount).
Proof.
  pose proof (clampedSets_range setCount) as Hrange.
  unfold buildTableColumnLabels. cbv zeta.
  assert (Hcases : clampedSets setCount = 1%Z \/ clampedSets setCount = 2%Z
                   \/ clampedSets setCount = 3%Z \/ clampedSets setCount = 4%Z
                   \/ clampedSets setCount = 5%Z) by lia.
  destruct Hcases as [->|[->|[->|[->| ->]]]];
    apply (bool_decide_unpack _); vm_compute; reflexivity.
Qed.

(** X9: in the payload, the stats object of a player built over the labels
    of any set count has exactly one entry per label, in the order of the
    labels, and the entry of the label of column [i] is the player's cell
    [i], or the placeholder when the player has no such cell. *)
Theorem statsOf_labelled (setCount : option Z) (player : Player) :
  let labels := buildTableColumnLabels setCount in
  List.map fst (statsOf labels player) = labels
  /\ forall i label,
       labels !! i = Some label ->
       objGet label (statsOf labels player) = Some (cellOf player i).
Proof.
  intros labels.
  pose proof (buildTableColumnLabels_NoDup setCount) as Hnodup. fold labels in Hnodup.
  rewrite (statsOf_entries labels player Hnodup). split.
  - clear Hnodup. generalize (cellOf player). induction labels as [|l labels IH];
      intros value; [reflexivity|].
    cbn [imap List.map fst]. f_equal. apply IH.
  - intros i label Hi.
    apply (objGet_imap (cellOf player) labels 0 i label Hnodup Hi).
Qed.

(* ------------------------------------------------------------------ *)
(** ** Who gets a column *)

Lemma freeCount_zero (occupied : list bool) :
  freeCount occupied = 0%nat ->
  forall j, j < length occupied -> occupied !! j = Some true.
Proof.
  unfold freeCount. induction occupied as [|[|] occupied IH]; simpl; intros H j Hj.
  - lia.
  - destruct j as [|j]; [reflexivity|]. apply IH; [exact H|lia].
  - discriminate.
Qed.











(* ------------------------------------------------------------------ *)
(** ** Where the cells of a row come from *)

Lemma normalizeTokenText_clean (value : string) :
  allChars (fun c => negb (isParenthesis c)) (normalizeTokenText value) = true
  /\ trim (normalizeTokenText value) = normalizeTokenText value.
Proof.
  unfold normalizeTokenText. split; [|apply trim_idem].
  apply trim_allChars. unfold replaceAll, oneOf.
  apply (replaceGo_cls_removed (fun x => includes (String x EmptyString) "()")).
Qed.

(** What holds of every cell of a mapped row. *)
Lemma cell_shape (tokens : list SToken) (cell : string) :
  cellFrom tokens cell ->
  cell <> EmptyString
  /\ allChars (fun c => negb (isParenthesis c)) cell = true
  /\ trim cell = cell.
Proof.
  intros [->|(token & _ & Htext & ->)].
  - split; [discriminate|]. split; reflexivity.
  - split; [|apply normalizeTokenText_clean].
    unfold hasText in Htext. intros Hnil. rewrite Hnil in Htext. discriminate.
Qed.

Lemma assign_fold_cells (all : list SToken) (anchors : list Anchor)
  (tokens : list SToken) :
  forall st,
    (forall token, In token tokens -> In token all) ->
    Forall (cellFrom all) (fst st) ->
    Forall (cellFrom all) (fst (fold_left (assignToken anchors) tokens st)).
Proof.
  induction tokens as [|token rest IH]; intros st Hsub Hst; [exact Hst|].
  cbn [fold_left]. apply IH; [intros t Ht; apply Hsub; right; exact Ht|].
  destruct st as [result occupied]. unfold assignToken.
  destruct (chosenAnchor anchors occupied token) as [b|] eqn:Hc; [|exact Hst].
  simpl in *. apply Forall_insert; [exact Hst|].
  right. exists token. split; [apply Hsub; left; reflexivity|].
  split; [|reflexivity].
  apply chosenAnchor_Some in Hc. unfold hasText. rewrite (proj1 Hc). reflexivity.
Qed.

Lemma positional_cells (labels : list string) (tokens : list SToken) :
  Forall (cellFrom tokens) (positional labels tokens).
Proof.
  apply Forall_lookup. intros i cell Hi. unfold positional in Hi.
  rewrite list_lookup_imap in Hi.
  destruct (labels !! i) as [label|]; [|discriminate]. simpl in Hi.
  injection Hi as <-.
  destruct (tokens !! i) as [token|] eqn:Htoken; [|left; reflexivity].
  destruct (isEmpty (normalizeTokenText (st_text token))) eqn:Hempty;
    [left; reflexivity|].
  right. exists token. split.
  - apply list_elem_of_In. eapply list_elem_of_lookup_2. exact Htoken.
  - split; [unfold hasText; rewrite Hempty; reflexivity|reflexivity].
Qed.

(** X11: whatever the anchors and the labels, every cell of the row
    [mapTokensToColumns] returns is the placeholder ["."] or the normalised
    text of one of the tokens; no cell is empty, holds a parenthesis or has
    white space at either end. *)
Theorem mapTokensToColumns_cells (tokens : list SToken)
  (columnAnchors : option (list Anchor)) (columnLabels : list string) :
  Forall (fun cell =>
            cellFrom tokens cell
            /\ cell <> EmptyString
            /\ allChars (fun c => negb (isParenthesis c)) cell = true
            /\ trim cell = cell)
         (mapTokensToColumns tokens columnAnchors columnLabels).
Proof.
  assert (Hcells : Forall (cellFrom tokens)
                          (mapTokensToColumns tokens columnAnchors columnLabels)).
  { unfold mapTokensToColumns.
    destruct columnAnchors as [anchors|]; [|apply positional_cells].
    destruct (length anchors =? length (effectiveLabels columnLabels))%nat;
      [|apply positional_cells].
    unfold assignAll. apply assign_fold_cells; [tauto|].
    simpl. apply Forall_fmap, Forall_true. intros label. left. reflexivity. }
  eapply List.Forall_impl; [|exact Hcells].
  intros cell Hcell. split; [exact Hcell|]. apply (cell_shape tokens), Hcell.
Qed.

(* ------------------------------------------------------------------ *)
(** ** The ranges of a detected date and time *)

Lemma digitsValue_nonneg (s : string) :
  forall acc, (0 <= acc)%Z -> allChars isDigit s = true ->
              (0 <= digitsValue acc s)%Z.
Proof.
  induction s as [|c s IH]; intros acc Hacc Hall; [exact Hacc|].
  simpl in Hall. apply andb_true_iff in Hall. destruct Hall as [Hc Hs].
  apply digit_value in Hc. simpl. apply IH; [lia|exact Hs].
Qed.

Lemma Number_nonneg (s : string) (n : Z) :
  Number_ s = Some n -> (0 <= n)%Z.
Proof.
  unfold Number_. destruct (allChars isDigit s) eqn:Hall; [|discriminate].
  intros H. injection H as <-. apply digitsValue_nonneg; [lia|exact Hall].
Qed.

Lemma pad_two_digits (v : Z) :
  (0 <= v <= 31)%Z -> String.length (pad v) = 2%nat.
Proof.
  intros Hv.
  assert (Hall : forallb (fun n => (String.length (pad (Z.of_nat n)) =? 2)%nat)
                         (seq 0 32) = true) by (vm_compute; reflexivity).
  rewrite forallb_forall in Hall.
  specialize (Hall (Z.to_nat v)). rewrite Z2Nat.id in Hall by lia.
  apply Nat.eqb_eq, Hall. apply in_seq. lia.
Qed.

Lemma dateFromNumbers_shape (day month year : Z) (date : string) :
  (0 <= day)%Z -> (0 <= month)%Z -> (0 <= year)%Z ->
  dateFromNumbers (Some day) (Some month) (Some year) = Some date ->
  exists Y M D,
    date = (stringOfZ Y ++ "-" ++ pad M ++ "-" ++ pad D)%string
    /\ (100 <= Y)%Z /\ (1 <= M <= 12)%Z /\ (1 <= D <= 31)%Z.
Proof.
  intros Hd Hm Hy. unfold dateFromNumbers, falsyNumber.
  destruct (Z.eqb day 0) eqn:Hd0; [discriminate|].
  destruct (Z.eqb month 0) eqn:Hm0; [discriminate|].
  destruct (Z.eqb year 0) eqn:Hy0; [discriminate|].
  apply Z.eqb_neq in Hd0, Hm0, Hy0. cbn [orb]. cbv zeta.
  set (Y := if (year <? 100)%Z
            then (year + (if (70 <=? year)%Z then 1900 else 2000))%Z else year).
  assert (HY : (100 <= Y)%Z).
  { unfold Y. destruct (Z.ltb_spec year 100); [|lia].
    destruct (70 <=? year)%Z; lia. }
  clearbody Y.
  destruct ((12 <? month)%Z && (day <=? 12)%Z) eqn:Hswap.
  - apply andb_true_iff in Hswap. destruct Hswap as [H1 H2].
    apply Z.ltb_lt in H1. apply Z.leb_le in H2.
    destruct ((31 <? month)%Z || (12 <? day)%Z) eqn:Hbad; [discriminate|].
    apply orb_false_iff in Hbad. destruct Hbad as [H3 H4].
    apply Z.ltb_ge in H3, H4.
    intros H. injection H as <-. exists Y, day, month.
    split; [reflexivity|]. lia.
  - destruct ((31 <? day)%Z || (12 <? month)%Z) eqn:Hbad; [discriminate|].
    apply orb_false_iff in Hbad. destruct Hbad as [H3 H4].
    apply Z.ltb_ge in H3, H4.
    intros H. injection H as <-. exists Y, month, day.
    split; [reflexivity|]. lia.
Qed.

Lemma formatDateForInput_shape (rawDate date : string) :
  formatDateForInput rawDate = Some date ->
  exists Y M D,
    date = (stringOfZ Y ++ "-" ++ pad M ++ "-" ++ pad D)%string
    /\ (100 <= Y)%Z /\ (1 <= M <= 12)%Z /\ (1 <= D <= 31)%Z.
Proof.
  unfold formatDateForInput. destruct (isEmpty rawDate); [discriminate|].
  cbv zeta.
  destruct (filterNonEmpty _) as [|p1 [|p2 [|p3 rest]]]; try discriminate.
  cbn [List.map].
  destruct (Number_ p1) as [day|] eqn:H1; [|discriminate].
  destruct (Number_ p2) as [month|] eqn:H2;
    [|unfold dateFromNumbers; simpl; rewrite orb_true_r; discriminate].
  destruct (Number_ p3) as [year|] eqn:H3;
    [|unfold dateFromNumbers; simpl; rewrite !orb_true_r; discriminate].
  apply dateFromNumbers_shape; eapply Number_nonneg; eassumption.
Qed.

Lemma timeFromNumbers_shape (meridiem : option string) (hours minutes : Z)
  (time : string) :
  (0 <= hours)%Z -> (0 <= minutes)%Z ->
  timeFromNumbers meridiem (Some hours) (Some minutes) = Some time ->
  exists H M,
    time = (pad H ++ ":" ++ pad M)%string /\ (0 <= H <= 23)%Z /\ (0 <= M)%Z.
Proof.
  intros Hh Hm. unfold timeFromNumbers. cbv zeta. intros H. injection H as <-.
  eexists _, minutes. split; [reflexivity|]. split; [|exact Hm].
  match goal with |- (0 <= Z.rem ?h 24 <= 23)%Z => assert (Hpos : (0 <= h)%Z) end.
  { destruct meridiem as [m|]; [|exact Hh].
    destruct (String.eqb m "pm" && (hours <? 12)%Z);
      match goal with
      | |- (0 <= (if ?c then _ else _))%Z => destruct c; lia
      end. }
  pose proof (Z.rem_bound_pos _ 24 Hpos ltac:(lia)). lia.
Qed.

Lemma formatTimeForInput_shape (rawTime time : string) :
  formatTimeForInput rawTime = Some time ->
  exists H M,
    time = (pad H ++ ":" ++ pad M)%string /\ (0 <= H <= 23)%Z /\ (0 <= M)%Z.
Proof.
  unfold formatTimeForInput. destruct (isEmpty rawTime); [discriminate|].
  cbv zeta. destruct (filterNonEmpty _) as [|first others]; [discriminate|].
  destruct (Number_ first) as [hours|] eqn:H1; [|discriminate].
  destruct others as [|second others].
  - apply timeFromNumbers_shape; [eapply Number_nonneg; eassumption|lia].
  - destruct (Number_ second) as [minutes|] eqn:H2; [|discriminate].
    apply timeFromNumbers_shape; eapply Number_nonneg; eassumption.
Qed.

Lemma firstSome_Some {A B : Type} (f : A -> option B) (l : list A) (b : B) :
  firstSome f l = Some b -> exists a, In a l /\ f a = Some b.
Proof.
  induction l as [|a l IH]; simpl; [discriminate|].
  destruct (f a) as [b'|] eqn:Ha.
  - intros H. injection H as <-. exists a. split; [left; reflexivity|exact Ha].
  - intros H. destruct (IH H) as (a' & Hin & Hf).
    exists a'. split; [right; exact Hin|exact Hf].
Qed.

(** X12: a date that [detectMatchMetadata] returns reads [Y-MM-DD] with a
    year of at least 100, a month from 01 to 12 and a day from 01 to 31,
    both of two digits; a time it returns reads [HH:MM] with an hour from
    00 to 23 of two digits (the minutes are taken as they stand). *)
Theorem detectMatchMetadata_ranges (lines : list Line) :
  (forall date,
     fst (detectMatchMetadata lines) = Some date ->
     exists Y M D,
       date = (stringOfZ Y ++ "-" ++ pad M ++ "-" ++ pad D)%string
       /\ (100 <= Y)%Z /\ (1 <= M <= 12)%Z /\ (1 <= D <= 31)%Z
       /\ String.length (pad M) = 2%nat /\ String.length (pad D) = 2%nat)
  /\ (forall time,
        snd (detectMatchMetadata lines) = Some time ->
        exists H M,
          time = (pad H ++ ":" ++ pad M)%string
          /\ (0 <= H <= 23)%Z /\ (0 <= M)%Z
          /\ String.length (pad H) = 2%nat).
Proof.
  unfold detectMatchMetadata.
  rewrite (metadataLoop_firstSome lines None None)
    by (left; reflexivity).
  cbn [fst snd]. split.
  - intros date Hdate. apply firstSome_Some in Hdate.
    destruct Hdate as (line & _ & Hline). unfold dateOfText in Hline.
    destruct (exec DATE_REGEX (getLineText line)) as [m|]; [|discriminate].
    destruct (group1 (getLineText line) m) as [raw|]; [|discriminate].
    destruct (formatDateForInput_shape _ _ Hline)
      as (Y & M & D & -> & HY & HM & HD).
    exists Y, M, D. split; [reflexivity|].
    repeat split; try lia; apply pad_two_digits; lia.
  - intros time Htime. apply firstSome_Some in Htime.
    destruct Htime as (line & _ & Hline). unfold timeOfText in Hline.
    destruct (exec TIME_REGEX (getLineText line)) as [m|]; [|discriminate].
    destruct (group1 (getLineText line) m) as [raw|]; [|discriminate].
    destruct (formatTimeForInput_shape _ _ Hline) as (H & M & -> & HH & HM).
    exists H, M. split; [reflexivity|].
    repeat split; try lia; apply pad_two_digits; lia.
Qed.

(* ------------------------------------------------------------------ *)
(** ** The pieces of a split token *)

Lemma splitGo_budget (r : re) (s : string) :
  forall skip i prev cur,
    (charBudget (splitGo r skip i prev cur s)
     <= String.length cur + String.length s + 1)%nat.
Proof.
  induction s as [|c s IH]; intros skip i prev cur.
  - simpl. lia.
  - assert (Hcur : String.length (cur ++ String c EmptyString)%string
                   = S (String.length cur)).
    { clear. induction cur as [|x cur IHc]; simpl; [reflexivity|].
      f_equal. exact IHc. }
    cbn [splitGo]. destruct skip as [|skip].
    + destruct (matchAt r i prev (String c s)) as [m|].
      * destruct (Nat.eqb (f_end m) i).
        -- specialize (IH 0%nat (S i) (Some c) (cur ++ String c EmptyString)%string).
           rewrite Hcur in IH. simpl. lia.
        -- specialize (IH (f_end m - i - 1)%nat (S i) (Some c) EmptyString).
           simpl in *. lia.
      * specialize (IH 0%nat (S i) (Some c) (cur ++ String c EmptyString)%string).
        rewrite Hcur in IH. simpl. lia.
    + specialize (IH skip (S i) (Some c) cur). simpl. lia.
Qed.

Lemma charBudget_filter (p : string -> bool) (parts : list string) :
  (charBudget (List.filter p parts) <= charBudget parts)%nat.
Proof.
  induction parts as [|part parts IH]; simpl; [lia|].
  destruct (p part); simpl; lia.
Qed.

(** With parts that are not empty, the estimated width of a piece is the
    width per character times its length. *)
Lemma estimatedWidth_product (token : LToken) (widthPerChar : Q) (part : string) :
  (widthPerChar == 0 -> lt_width token == 0)%Q ->
  part <> EmptyString ->
  ((if Qeq_bool (widthPerChar * inject_Z (Z.of_nat (String.length part))) 0
    then lt_width token
    else widthPerChar * inject_Z (Z.of_nat (String.length part)))
   == widthPerChar * inject_Z (Z.of_nat (String.length part)))%Q.
Proof.
  intros Hzero Hpart.
  destruct (Qeq_bool _ 0) eqn:Hp; [|reflexivity].
  apply Qeq_bool_iff in Hp. rewrite Hp.
  apply Qmult_integral in Hp. destruct Hp as [Hw|HL]; [exact (Hzero Hw)|].
  exfalso. destruct part as [|c part]; [congruence|].
  unfold Qeq in HL. cbn [Qnum Qden inject_Z String.length] in HL. lia.
Qed.

Lemma splitPieces_layout (token : LToken) (widthPerChar : Q) :
  (0 <= widthPerChar)%Q ->
  (widthPerChar == 0 -> lt_width token == 0)%Q ->
  forall parts cursorX,
    Forall (fun part => part <> EmptyString) parts ->
    Forall (fun piece =>
              lt_height piece = lt_height token
              /\ (cursorX <= lt_x piece)%Q
              /\ (0 <= lt_width piece)%Q
              /\ (lt_x piece + lt_width piece + widthPerChar
                  <= cursorX
                     + widthPerChar * inject_Z (Z.of_nat (charBudget parts)))%Q)
           (splitPieces token widthPerChar cursorX parts)
    /\ StronglySorted endsBefore (splitPieces token widthPerChar cursorX parts).
Proof.
  intros Hpos Hzero. induction parts as [|part rest IH]; intros cursorX Hparts.
  - split; constructor.
  - apply Forall_cons in Hparts. destruct Hparts as [Hpart Hrest].
    cbn [splitPieces charBudget fold_right]. cbv zeta.
    fold (charBudget rest).
    pose proof (estimatedWidth_product token widthPerChar part Hzero Hpart) as Hest.
    set (L := inject_Z (Z.of_nat (String.length part))) in *.
    set (estimatedWidth :=
           if Qeq_bool (widthPerChar * L) 0 then lt_width token
           else (widthPerChar * L)%Q) in *.
    set (B := inject_Z (Z.of_nat (charBudget rest))).
    assert (HL : (0 <= L)%Q).
    { unfold L. rewrite <- (Zle_Qle 0). lia. }
    assert (HB : (0 <= B)%Q).
    { unfold B. rewrite <- (Zle_Qle 0). lia. }
    assert (HwL : (0 <= widthPerChar * L)%Q) by (apply Qmult_le_0_compat; assumption).
    assert (HwB : (0 <= widthPerChar * B)%Q) by (apply Qmult_le_0_compat; assumption).
    assert (Hbudget : (inject_Z (Z.of_nat (S (String.length part) + charBudget rest))
                       == 1 + L + B)%Q).
    { unfold L, B. rewrite Nat2Z.inj_add, Nat2Z.inj_succ, inject_Z_plus.
      unfold Z.succ. rewrite inject_Z_plus. ring. }
    destruct (IH (cursorX + estimatedWidth + widthPerChar)%Q Hrest)
      as [Hall Hsorted].
    fold B in Hall.
    split.
    + constructor.
      * simpl. split; [reflexivity|]. split; [apply Qle_refl|].
        rewrite Hbudget. split; lra.
      * eapply List.Forall_impl; [|exact Hall].
        intros piece (Hh & Hx & Hw & Hend).
        split; [exact Hh|]. rewrite Hbudget. repeat split; lra.
    + constructor; [exact Hsorted|].
      eapply List.Forall_impl; [|exact Hall].
      intros piece (_ & Hx & _). unfold endsBefore. simpl. lra.
Qed.

(** The two ways [splitTokenText] ends: the token as it is, or the pieces
    of at least two parts, none empty, whose characters and separators fit
    in the width of the token. *)
Lemma splitTokenText_cases (token : LToken) :
  (0 <= lt_width token)%Q ->
  splitTokenText token = [token]
  \/ exists parts widthPerChar,
       splitTokenText token = splitPieces token widthPerChar (lt_x token) parts
       /\ parts <> []
       /\ Forall (fun part => part <> EmptyString) parts
       /\ (0 <= widthPerChar)%Q
       /\ (widthPerChar == 0 -> lt_width token == 0)%Q
       /\ (widthPerChar * inject_Z (Z.of_nat (charBudget parts))
           <= lt_width token + widthPerChar)%Q.
Proof.
  intros Hwidth. unfold splitTokenText. cbv zeta.
  destruct (negb (includes " " (lt_str token))); [left; reflexivity|].
  set (parts := filterNonEmpty (split (plus space) (lt_str token))).
  destruct (length parts <=? 1)%nat eqn:Hmany; [left; reflexivity|].
  apply Nat.leb_gt in Hmany. right.
  set (len := String.length (lt_str token)).
  set (len' := if (len =? 0)%nat then 1%nat else len).
  set (widthPerChar := (lt_width token / inject_Z (Z.of_nat len'))%Q).
  assert (Hlen' : (1 <= len')%nat /\ (len <= len')%nat).
  { unfold len'. destruct (Nat.eqb_spec len 0); lia. }
  assert (HQlen : (0 < inject_Z (Z.of_nat len'))%Q).
  { rewrite <- (Zlt_Qlt 0). lia. }
  assert (Hprod : (widthPerChar * inject_Z (Z.of_nat len') == lt_width token)%Q).
  { unfold widthPerChar. field. lra. }
  assert (Hpos : (0 <= widthPerChar)%Q).
  { unfold widthPerChar. apply Qle_shift_div_l; [exact HQlen|]. lra. }
  assert (Hbudget : (charBudget parts <= len' + 1)%nat).
  { unfold parts, filterNonEmpty, split.
    pose proof (charBudget_filter (fun s => negb (isEmpty s))
                  (splitGo (plus space) 0 0 None "" (lt_str token))) as H1.
    pose proof (splitGo_budget (plus space) (lt_str token) 0 0 None "") as H2.
    simpl in H2. fold len in H2. lia. }
  exists parts, widthPerChar. split; [reflexivity|].
  split; [destruct parts; [simpl in Hmany; lia|discriminate]|].
  split.
  { unfold parts, filterNonEmpty. apply List.Forall_forall. intros part Hin.
    apply filter_In in Hin. destruct Hin as [_ Hne].
    intros ->. discriminate. }
  split; [exact Hpos|]. split; [intros Hw; rewrite <- Hprod, Hw; ring|].
  assert (HB : (inject_Z (Z.of_nat (charBudget parts))
                <= inject_Z (Z.of_nat len') + 1)%Q).
  { change 1%Q with (inject_Z 1). rewrite <- inject_Z_plus, <- Zle_Qle. lia. }
  assert (Hmul : (widthPerChar * inject_Z (Z.of_nat (charBudget parts))
                  <= widthPerChar * (inject_Z (Z.of_nat len') + 1))%Q).
  { rewrite !(Qmult_comm widthPerChar). apply Qmult_le_compat_r; assumption. }
  assert (Hexp : (widthPerChar * (inject_Z (Z.of_nat len') + 1)
                  == lt_width token + widthPerChar)%Q).
  { rewrite <- Hprod. ring. }
  rewrite Hexp in Hmul. exact Hmul.
Qed.

(** The pieces of a token have widths that are not negative. *)
Lemma splitTokenText_widths (token : LToken) :
  (0 <= lt_width token)%Q ->
  Forall (fun piece => (0 <= lt_width piece)%Q) (splitTokenText token).
Proof.
  intros Hwidth.
  destruct (splitTokenText_cases token Hwidth)
    as [->|(parts & widthPerChar & -> & _ & Hparts & Hpos & Hzero & _)].
  - constructor; [exact Hwidth|constructor].
  - destruct (splitPieces_layout token widthPerChar Hpos Hzero parts (lt_x token)
                Hparts) as [Hall _].
    eapply List.Forall_impl; [|exact Hall]. intros piece H. apply H.
Qed.



(* ------------------------------------------------------------------ *)
(** ** The shape of the anchors *)

Lemma flattenTokens_widths (tokens : list LToken) :
  Forall (fun token => (0 <= lt_width token)%Q) tokens ->
  Forall (fun token => (0 <= st_width token)%Q) (flattenTokens tokens).
Proof.
  intros Hall. unfold flattenTokens. apply List.Forall_forall.
  intros token Hin. apply filter_In in Hin. destruct Hin as [Hin _].
  apply in_map_iff in Hin. destruct Hin as (piece & <- & Hpiece). simpl.
  apply in_flat_map in Hpiece. destruct Hpiece as (original & Horiginal & Hpiece).
  rewrite List.Forall_forall in Hall.
  pose proof (splitTokenText_widths original (Hall _ Horiginal)) as Hw.
  rewrite List.Forall_forall in Hw. exact (Hw _ Hpiece).
Qed.

Lemma anchorOf_wellFormed (token : SToken) :
  (0 <= st_width token)%Q -> wellFormed (anchorOf token).
Proof.
  intros Hw. unfold wellFormed, anchorOf. simpl.
  assert (H : (st_width token / 2 == st_width token * (1 # 2))%Q) by (field).
  rewrite H. split; lra.
Qed.

Lemma anchors_wellFormed (n : nat) (tokens : list SToken) :
  Forall (fun token => (0 <= st_width token)%Q) tokens ->
  Forall wellFormed (List.map anchorOf (take n tokens)).
Proof.
  intros Hall. apply Forall_fmap. apply Forall_take.
  eapply List.Forall_impl; [|exact Hall].
  intros token Hw. apply anchorOf_wellFormed. exact Hw.
Qed.

(** X14: when no token of the lines and no stat token of the players has a
    negative width, every anchor [inferColumnAnchors] returns has its
    centre between its start and its end. *)
Theorem inferColumnAnchors_wellFormed (players : list Player)
  (lines : list Line) (currentSetCount : Z) (anchors : list Anchor)
  (Hlines : Forall (fun line =>
                      Forall (fun token => (0 <= lt_width token)%Q)
                             (ln_tokens line)) lines)
  (Hplayers : Forall (fun player =>
                        Forall (fun token => (0 <= st_width token)%Q)
                               (pp_statTokens (pl_parsed player))) players)
  (Hanchors : fst (inferColumnAnchors players lines currentSetCount)
              = Some anchors) :
  Forall wellFormed anchors.
Proof.
  unfold inferColumnAnchors in Hanchors.
  destruct (inferAnchorsFromHeader lines) as [r|] eqn:Hheader.
  - unfold inferAnchorsFromHeader in Hheader.
    destruct (List.find isHeaderLine lines) as [headerLine|] eqn:Hfind;
      [|discriminate].
    apply find_some in Hfind. destruct Hfind as [Hin _].
    rewrite List.Forall_forall in Hlines.
    pose proof (flattenTokens_widths _ (Hlines _ Hin)) as Hflat.
    cbv zeta in Hheader.
    destruct (findIndex _ (flattenTokens (ln_tokens headerLine)) 0)
      as [firstDataIndex|]; [|discriminate].
    destruct (drop firstDataIndex (flattenTokens (ln_tokens headerLine)))
      as [|token rest] eqn:Hdata; [discriminate|].
    rewrite <- Hdata in Hheader.
    match type of Hheader with
    | (if ?c then _ else _) = _ => destruct c; [discriminate|]
    end.
    injection Hheader as <-. simpl in Hanchors. injection Hanchors as <-.
    apply anchors_wellFormed, Forall_drop, Hflat.
  - cbv zeta in Hanchors. destruct players as [|player players]; [discriminate|].
    match type of Hanchors with
    | fst (match ?c with [] => _ | _ :: _ => _ end) = _ =>
        destruct c as [|candidateTokens others] eqn:Hsorted
    end; [discriminate|].
    simpl in Hanchors. injection Hanchors as <-.
    apply anchors_wellFormed.
    assert (Hin : In candidateTokens (candidateTokens :: others))
      by (left; reflexivity).
    rewrite <- Hsorted in Hin.
    apply (Permutation_in _ (jsSort_perm _ _)) in Hin.
    apply filter_In in Hin. destruct Hin as [Hin _].
    apply in_map_iff in Hin. destruct Hin as (p & <- & Hp).
    rewrite List.Forall_forall in Hplayers. specialize (Hplayers _ Hp).
    apply List.Forall_forall. intros token Htoken.
    apply filter_In in Htoken. destruct Htoken as [Htoken _].
    rewrite List.Forall_forall in Hplayers. exact (Hplayers _ Htoken).
Qed.

(** X14 on the header line of a three-set report. *)
Lemma inferColumnAnchors_wellFormed_witness :
  exists anchors,
    fst (inferColumnAnchors [] [sampleHeader] 4) = Some anchors
    /\ Forall wellFormed anchors.
Proof.
  destruct (fst (inferColumnAnchors [] [sampleHeader] 4)) as [anchors|] eqn:H;
    [|vm_compute in H; discriminate].
  exists anchors. split; [reflexivity|].
  apply (inferColumnAnchors_wellFormed [] [sampleHeader] 4 anchors);
    [|constructor|exact H].
  constructor; [|constructor].
  unfold sampleHeader, lineOf. simpl.
  repeat (constructor; [simpl; lra|]). constructor.
Defined.

(* ------------------------------------------------------------------ *)
(** ** The dividers of the grouped header *)

Lemma dividerLoop_prefix (groups : list Grouped.Group) :
  forall idx cursor indices,
    Grouped.dividerLoop groups (S idx) cursor indices
    = indices ++ List.map (fun k => (cursor + Grouped.spanSum (take k groups))%Z)
                          (seq 0 (length groups)).
Proof.
  induction groups as [|group rest IH]; intros idx cursor indices.
  - simpl. rewrite app_nil_r. reflexivity.
  - cbn [Grouped.dividerLoop Nat.ltb Nat.leb length seq List.map].
    rewrite IH, <- app_assoc. cbn [app]. f_equal.
    rewrite <- seq_shift, map_map. cbn [take Grouped.spanSum fold_right].
    f_equal; [lia|]. apply map_ext. intros k.
    cbn [take Grouped.spanSum fold_right]. fold (Grouped.spanSum (take k rest)).
    lia.
Qed.

(** X15: the dividers [buildGroupDividerSet] returns are the columns where
    the groups after the first one start: for each such group, the sum of
    the spans of the groups before it, a missing span counting for 0. *)
Theorem buildGroupDividerSet_prefix_sums (groups : list Grouped.Group) :
  Grouped.buildGroupDividerSet groups
  = List.map (fun k => Grouped.spanSum (take k groups))
             (seq 1 (length groups - 1)).
Proof.
  destruct groups as [|group rest]; [reflexivity|].
  unfold Grouped.buildGroupDividerSet.
  cbn [Grouped.dividerLoop Nat.ltb Nat.leb length].
  rewrite dividerLoop_prefix. cbn [app].
  replace (S (length rest) - 1)%nat with (length rest) by lia.
  rewrite <- seq_shift, map_map. apply map_ext. intros k.
  unfold Grouped.spanSum. cbn [take fold_right]. lia.
Qed.

(** X16: under the upper header of the component, the spans cover the
    number and name columns and the labels exactly when the set count is
    between 1 and 5; then a divider is drawn before the name column never,
    and before the column of label [i] exactly when [i] starts a group:
    the first set, Vote, and the first column of Points, Serve, Reception,
    Attack and BK Pts. *)
Theorem upperHeaderCells_aligned (team : string) (setColumnCount : Z) :
  let groups := Grouped.upperHeaderCells team setColumnCount in
  let dividerSet := Grouped.buildGroupDividerSet groups in
  let labels := Grouped.buildTableColumnLabels (Some setColumnCount) in
  (Grouped.spanSum groups = (2 + Z.of_nat (length labels))%Z
   <-> (1 <= setColumnCount <= 5)%Z)
  /\ ((1 <= setColumnCount <= 5)%Z ->
      Grouped.has dividerSet 1 = false
      /\ forall i,
           (0 <= i < Z.of_nat (length labels))%Z ->
           (Grouped.has dividerSet (i + 2) = true
            <-> i = 0%Z \/ i = setColumnCount \/ i = (setColumnCount + 1)%Z
                \/ i = (setColumnCount + 4)%Z \/ i = (setColumnCount + 7)%Z
                \/ i = (setColumnCount + 11)%Z \/ i = (setColumnCount + 16)%Z)).
Proof.
  intros groups dividerSet labels.
  assert (Hlen : Z.of_nat (length labels)
                 = (clampedSets (Some setColumnCount) + 17)%Z).
  { unfold labels, Grouped.buildTableColumnLabels. cbv zeta.
    rewrite length_app, length_map, length_seq.
    pose proof (clampedSets_range (Some setColumnCount)).
    cbn [length Grouped.POST_SET_LABELS]. lia. }
  assert (Hclamp : (1 <= setColumnCount <= 5)%Z ->
                   clampedSets (Some setColumnCount) = setColumnCount).
  { intros Hr. unfold clampedSets, DEFAULT_SET_COLUMNS, MAX_SET_COLUMNS.
    destruct (Z.eqb_spec setColumnCount 0); lia. }
  assert (Hsum : Grouped.spanSum groups = (setColumnCount + 19)%Z).
  { unfold groups, Grouped.upperHeaderCells, Grouped.spanSum, Grouped.spanOf.
    simpl. lia. }
  split.
  - rewrite Hsum, Hlen. split.
    + intros H. pose proof (clampedSets_range (Some setColumnCount)). lia.
    + intros Hr. rewrite (Hclamp Hr). lia.
  - intros Hr. rewrite Hlen, (Hclamp Hr).
    assert (Hset : dividerSet
                   = [2; 2 + setColumnCount; 3 + setColumnCount;
                      6 + setColumnCount; 9 + setColumnCount;
                      13 + setColumnCount; 18 + setColumnCount]%Z).
    { unfold dividerSet, groups, Grouped.upperHeaderCells,
        Grouped.buildGroupDividerSet.
      cbn [Grouped.dividerLoop Grouped.spanOf Grouped.g_span Nat.ltb Nat.leb app].
      repeat (f_equal; try lia). }
    rewrite Hset. unfold Grouped.has. cbn [existsb].
    split.
    + rewrite !orb_false_iff, !Z.eqb_neq. repeat split; lia.
    + intros i Hi. rewrite !orb_true_iff, !Z.eqb_eq. lia.
Qed.

(* ------------------------------------------------------------------ *)
(** ** The set count read off the rows *)

Lemma setCount_fold (players : list Final.Player) :
  forall start,
    let step := fun max p =>
                  let cnt := Final.leadingSetValues (Final.p_rawStats p) in
                  if (max <? cnt)%nat then cnt else max in
    (start <= fold_left step players start)%nat
    /\ Forall (fun p => (Final.leadingSetValues (Final.p_rawStats p)
                         <= fold_left step players start)%nat) players
    /\ (fold_left step players start = start
        \/ exists p, In p players
                     /\ fold_left step players start
                        = Final.leadingSetValues (Final.p_rawStats p)).
Proof.
  induction players as [|p players IH]; intros start step.
  - simpl. split; [lia|]. split; [constructor|left; reflexivity].
  - cbn [fold_left]. specialize (IH (step start p)). cbv zeta in IH.
    fold step in IH. destruct IH as (Hle & Hall & Hfrom).
    assert (Hstep : (start <= step start p)%nat
                    /\ (Final.leadingSetValues (Final.p_rawStats p)
                        <= step start p)%nat
                    /\ (step start p = start
                        \/ step start p
                           = Final.leadingSetValues (Final.p_rawStats p))).
    { unfold step. cbv zeta.
      destruct (Nat.ltb_spec start
                  (Final.leadingSetValues (Final.p_rawStats p))); lia. }
    destruct Hstep as (H1 & H2 & H3).
    split; [lia|]. split.
    + constructor; [lia|exact Hall].
    + destruct Hfrom as [Heq|(q & Hq & Heq)].
      * destruct H3 as [H3|H3].
        -- left. congruence.
        -- right. exists p. split; [left; reflexivity|congruence].
      * right. exists q. split; [right; exact Hq|exact Heq].
Qed.

(** X17: the set count [detectSetCountFromPlayers] returns lies between 3
    and 5; it is at least the number of leading set values of every row,
    capped at 5, and when it exceeds 3 some row has exactly that many
    leading set values, or more when the count is 5. *)
Theorem detectSetCountFromPlayers_range (players : list Final.Player) :
  let count := Final.detectSetCountFromPlayers players in
  (3 <= count <= 5)%nat
  /\ Forall (fun p =>
               (Nat.min 5 (Final.leadingSetValues (Final.p_rawStats p))
                <= count)%nat) players
  /\ ((3 < count)%nat ->
      exists p, In p players
                /\ count = Nat.min 5 (Final.leadingSetValues (Final.p_rawStats p))).
Proof.
  intros count. unfold count, Final.detectSetCountFromPlayers. cbv zeta.
  destruct (setCount_fold players Final.MIN_SETS) as (Hle & Hall & Hfrom).
  cbv zeta in Hle, Hall, Hfrom.
  set (max := fold_left _ players Final.MIN_SETS) in *.
  unfold Final.MAX_SETS, Final.MIN_SETS in *.
  split; [lia|]. split.
  - eapply List.Forall_impl; [|exact Hall]. intros p Hp. simpl in Hp. lia.
  - intros Hbig. destruct Hfrom as [Heq|(p & Hp & Heq)]; [lia|].
    exists p. split; [exact Hp|]. lia.
Qed.

(* ------------------------------------------------------------------ *)
(** ** The anchors found by clustering *)

Lemma clusterLoop_nonempty (rest : list Q) :
  forall prev bucket clusters,
    bucket <> [] -> Forall (fun c : list Q => c <> []) clusters ->
    Forall (fun c : list Q => c <> []) (Final.clusterLoop prev bucket clusters rest).
Proof.
  induction rest as [|cur rest IH]; intros prev bucket clusters Hb Hc.
  - simpl. apply Forall_app. split; [exact Hc|]. constructor; [exact Hb|constructor].
  - cbn [Final.clusterLoop].
    destruct (Qle_bool (Qabs (cur - prev)) Final.COL_TOLERANCE_PX).
    + apply IH; [|exact Hc]. destruct bucket; discriminate.
    + apply IH; [discriminate|].
      apply Forall_app. split; [exact Hc|]. constructor; [exact Hb|constructor].
Qed.

Lemma removelast_Forall {A : Type} (P : A -> Prop) (l : list A) :
  Forall P l -> Forall P (removelast l).
Proof.
  induction 1 as [|a l Ha Hl IH]; [constructor|].
  simpl. destruct l; [constructor|]. constructor; [exact Ha|exact IH].
Qed.

Lemma jsSort_Forall {A : Type} (cmp : A -> A -> Q) (P : A -> Prop) (l : list A) :
  Forall P l -> Forall P (jsSort cmp l).
Proof.
  intros H. rewrite List.Forall_forall in *. intros a Ha.
  apply H. apply (Permutation_in _ (jsSort_perm cmp l)). exact Ha.
Qed.

Lemma dropLoop_nonempty (budget needed : nat) :
  forall clusters tolIncrement,
    Forall (fun c : list Q => c <> []) clusters ->
    Forall (fun c : list Q => c <> [])
           (fst (Final.dropLoop budget needed clusters tolIncrement)).
Proof.
  induction budget as [|budget IH]; intros clusters tolIncrement Hc; [exact Hc|].
  cbn [Final.dropLoop]. destruct (needed <? length clusters)%nat; [|exact Hc].
  apply IH, removelast_Forall, jsSort_Forall, Hc.
Qed.

Lemma mergeAt_nonempty (idx : nat) :
  forall clusters,
    Forall (fun c : list Q => c <> []) clusters ->
    Forall (fun c : list Q => c <> []) (Final.mergeAt idx clusters).
Proof.
  induction idx as [|idx IH]; intros clusters Hc.
  - destruct clusters as [|a [|b rest]]; [exact Hc|exact Hc|].
    cbn [Final.mergeAt]. apply Forall_cons in Hc. destruct Hc as [Ha Hc].
    apply Forall_cons in Hc. destruct Hc as [_ Hc].
    constructor; [|exact Hc]. destruct a; [congruence|discriminate].
  - destruct clusters as [|a rest]; [exact Hc|].
    cbn [Final.mergeAt]. apply Forall_cons in Hc. destruct Hc as [Ha Hc].
    constructor; [exact Ha|apply IH; exact Hc].
Qed.

Lemma mergeLoop_nonempty (budget needed : nat) :
  forall clusters,
    Forall (fun c : list Q => c <> []) clusters ->
    Forall (fun c : list Q => c <> []) (Final.mergeLoop budget needed clusters).
Proof.
  induction budget as [|budget IH]; intros clusters Hc; [exact Hc|].
  cbn [Final.mergeLoop]. destruct (length clusters <? needed)%nat; [|exact Hc].
  destruct (length clusters <=? 1)%nat; [exact Hc|].
  destruct (Final.nearestPair 0 clusters None) as [[idx d]|]; [|exact Hc].
  apply IH, mergeAt_nonempty, Hc.
Qed.

Lemma last_nonempty (clusters : list (list Q)) :
  Forall (fun c : list Q => c <> []) clusters ->
  match clusters with
  | [] => [100%Q]
  | _ => List.last clusters []
  end <> [].
Proof.
  intros Hc. destruct clusters as [|a rest]; [discriminate|].
  assert (Hin : In (List.last (a :: rest) []) (a :: rest)).
  { clear. revert a. induction rest as [|b rest IH]; intros a;
      [left; reflexivity|].
    right. apply (IH b). }
  rewrite List.Forall_forall in Hc. exact (Hc _ Hin).
Qed.

(** The padding never reads an empty cluster. *)
Lemma padLoop_total (missing : nat) :
  forall clusters,
    Forall (fun c : list Q => c <> []) clusters ->
    exists padded,
      Final.padLoop missing clusters = Some padded
      /\ length padded = (length clusters + missing)%nat.
Proof.
  induction missing as [|missing IH]; intros clusters Hc.
  - exists clusters. split; [reflexivity|lia].
  - cbn [Final.padLoop]. cbv zeta.
    pose proof (last_nonempty clusters Hc) as Hlast.
    destruct (match clusters with [] => [100%Q] | _ => List.last clusters [] end)
      as [|first rest]; [congruence|].
    destruct (IH (clusters ++ [[(first + 30)%Q]])) as (padded & Hpad & Hlen).
    { apply Forall_app. split; [exact Hc|]. constructor; [discriminate|constructor]. }
    exists padded. split; [exact Hpad|].
    rewrite Hlen, length_app. simpl. lia.
Qed.

(** What [inferColumnAnchors] returns, by the tokens of the rows. *)
Lemma anchors_by_tokens (players : list Final.Player) (setCount : nat) :
  match flat_map Final.p_statTokens players with
  | [] => Final.inferColumnAnchors players setCount = Some None
  | _ :: _ =>
      exists anchors,
        Final.inferColumnAnchors players setCount = Some (Some anchors)
        /\ length anchors = (setCount + 16)%nat
  end.
Proof.
  unfold Final.inferColumnAnchors. cbv zeta.
  change (length Final.POST_SET_FIELDS) with 16%nat.
  destruct (flat_map Final.p_statTokens players) as [|tk tokens] eqn:Htokens;
    [reflexivity|].
  destruct (jsSort _ (List.map Final.centerOf (tk :: tokens)))
    as [|first others] eqn:Hsorted.
  { apply jsSort_nil_inv in Hsorted. discriminate. }
  pose proof (clusterLoop_nonempty others first [first] []
                ltac:(discriminate) ltac:(constructor)) as Hclusters.
  pose proof (dropLoop_nonempty 21 (setCount + 16) _ 0%nat Hclusters) as Hdrop.
  destruct (Final.dropLoop 21 (setCount + 16) _ 0) as [dropped tolIncrement].
  simpl in Hdrop.
  pose proof (mergeLoop_nonempty (41 - tolIncrement) (setCount + 16) _ Hdrop)
    as Hmerge.
  set (merged := Final.mergeLoop _ _ dropped) in *.
  pose proof (jsSort_Forall (fun a b => (Final.average a - Final.average b)%Q)
                _ _ Hmerge) as Hordered.
  set (ordered := jsSort _ merged) in *.
  set (trimmed := if (setCount + 16 <? length ordered)%nat
                  then take (setCount + 16) ordered else ordered).
  assert (Htrim : Forall (fun c : list Q => c <> []) trimmed
                  /\ (length trimmed <= setCount + 16)%nat).
  { unfold trimmed.
    destruct (Nat.ltb_spec (setCount + 16) (length ordered)).
    - split; [apply Forall_take; exact Hordered|]. rewrite length_take. lia.
    - split; [exact Hordered|lia]. }
  destruct Htrim as [Htrim Hshort].
  destruct (padLoop_total (setCount + 16 - length trimmed) trimmed Htrim)
    as (padded & -> & Hlen).
  eexists. split; [reflexivity|]. rewrite length_map, Hlen. lia.
Qed.

(** X18: the clustering reader finds no anchors exactly when no row has a
    stat token; otherwise [inferColumnAnchors] ends without an exception
    and returns as many anchors as there are columns, the set count plus
    the sixteen fields after the sets. *)
Theorem clusterAnchors_count (players : list Final.Player) (setCount : nat) :
  (flat_map Final.p_statTokens players = []
   -> Final.inferColumnAnchors players setCount = Some None)
  /\ (flat_map Final.p_statTokens players <> []
      -> exists anchors,
           Final.inferColumnAnchors players setCount = Some (Some anchors)
           /\ length anchors = (setCount + 16)%nat).
Proof.
  pose proof (anchors_by_tokens players setCount) as H.
  destruct (flat_map Final.p_statTokens players) as [|tk tokens].
  - split; [intros _; exact H|congruence].
  - split; [discriminate|intros _; exact H].
Qed.

(* ------------------------------------------------------------------ *)
(** ** The nearest anchor *)

Lemma nearestLoop_spec (center : Q) (anchors : list Q) :
  forall pre best bestDist,
    match bestDist with
    | None => pre = []
    | Some dist =>
        exists a, pre !! best = Some a /\ dist = Qabs (center - a)
                  /\ forall k a', pre !! k = Some a' ->
                       (dist <= Qabs (center - a'))%Q
                       /\ (k < best -> (dist < Qabs (center - a'))%Q)
    end ->
    pre ++ anchors <> [] ->
    let j := Final.nearestLoop center anchors (length pre) best bestDist in
    exists a, (pre ++ anchors) !! j = Some a
              /\ forall k a', (pre ++ anchors) !! k = Some a' ->
                   (Qabs (center - a) <= Qabs (center - a'))%Q
                   /\ (k < j -> (Qabs (center - a) < Qabs (center - a'))%Q).
Proof.
  induction anchors as [|anchor rest IH]; intros pre best bestDist Hinv Hne.
  - cbn [Final.nearestLoop]. rewrite app_nil_r in *.
    destruct bestDist as [dist|]; [|congruence].
    destruct Hinv as (a & Ha & -> & Hmin). exists a. split; [exact Ha|exact Hmin].
  - cbn [Final.nearestLoop]. cbv zeta.
    assert (Hnew : (pre ++ [anchor]) !! length pre = Some anchor).
    { rewrite lookup_app_r by lia. rewrite Nat.sub_diag. reflexivity. }
    assert (Hsplit : forall k a', (pre ++ [anchor]) !! k = Some a' ->
              (k < length pre /\ pre !! k = Some a')
              \/ (k = length pre /\ a' = anchor)).
    { intros k a' Hk. destruct (decide (k < length pre)) as [Hlt|Hge].
      - left. split; [exact Hlt|]. rewrite lookup_app_l in Hk by exact Hlt.
        exact Hk.
      - right. assert (k = length pre) as ->.
        { apply lookup_lt_Some in Hk. rewrite length_app in Hk. simpl in Hk. lia. }
        split; [reflexivity|]. congruence. }
    replace (pre ++ anchor :: rest) with ((pre ++ [anchor]) ++ rest)
      by (rewrite <- app_assoc; reflexivity).
    replace (S (length pre)) with (length (pre ++ [anchor]))
      by (rewrite length_app; simpl; lia).
    destruct bestDist as [dist|].
    + destruct Hinv as (a & Ha & -> & Hmin).
      destruct (Qltb (Qabs (center - anchor)) (Qabs (center - a))) eqn:Hcmp.
      * apply Qltb_lt in Hcmp.
        apply IH; [|destruct pre; discriminate].
        exists anchor. split; [exact Hnew|]. split; [reflexivity|].
        intros k a' Hk. destruct (Hsplit k a' Hk) as [[Hlt Hk']|[-> ->]].
        -- destruct (Hmin k a' Hk') as [Hle _].
           assert (Qabs (center - anchor) < Qabs (center - a'))%Q
             by (eapply Qlt_le_trans; eauto).
           split; [apply Qlt_le_weak; assumption|intros _; assumption].
        -- split; [apply Qle_refl|lia].
      * apply Qltb_ge in Hcmp.
        apply IH; [|destruct pre; discriminate].
        exists a. split; [apply lookup_app_l_Some; exact Ha|].
        split; [reflexivity|].
        intros k a' Hk. destruct (Hsplit k a' Hk) as [[Hlt Hk']|[-> ->]].
        -- exact (Hmin k a' Hk').
        -- split; [exact Hcmp|]. intros Hlt.
           apply lookup_lt_Some in Ha. lia.
    + subst pre. apply (IH [anchor]); [|discriminate].
      exists anchor. split; [reflexivity|]. split; [reflexivity|].
      intros k a' Hk. destruct k as [|k]; [|destruct k; discriminate].
      injection Hk as <-. split; [apply Qle_refl|simpl; lia].
Qed.

Lemma nearestAnchor_spec (anchors : list Q) (tk : Final.Token) :
  anchors <> [] ->
  exists a,
    anchors !! Final.nearestAnchor anchors tk = Some a
    /\ forall k a', anchors !! k = Some a' ->
         (Qabs (Final.centerOf tk - a) <= Qabs (Final.centerOf tk - a'))%Q
         /\ (k < Final.nearestAnchor anchors tk ->
             (Qabs (Final.centerOf tk - a) < Qabs (Final.centerOf tk - a'))%Q).
Proof.
  intros Hne.
  exact (nearestLoop_spec (Final.centerOf tk) anchors [] 0 None eq_refl Hne).
Qed.

Lemma find_snoc {A : Type} (p : A -> bool) (l : list A) (a : A) :
  List.find p (l ++ [a])
  = match List.find p l with
    | Some x => Some x
    | None => if p a then Some a else None
    end.
Proof.
  induction l as [|b l IH]; simpl; [reflexivity|].
  destruct (p b); [reflexivity|exact IH].
Qed.

(** With indexes inside the row, each cell ends with the text of the last
    token written to it. *)
Lemma writes_last (anchors : list Q) (statTokens : list Final.Token) :
  forall cols,
    Forall (fun tk => Final.nearestAnchor anchors tk < length cols) statTokens ->
    let out :=
      fold_left (fun cols tk =>
                   Final.writeAt (Final.nearestAnchor anchors tk)
                                 (Final.tk_text tk) cols)
                statTokens cols in
    length out = length cols
    /\ forall i,
         out !! i
         = match Final.lastWriter anchors statTokens i with
           | Some tk => if (i <? length cols)%nat
                        then Some (Some (Final.tk_text tk)) else None
           | None => cols !! i
           end.
Proof.
  induction statTokens as [|tk rest IH]; intros cols Hin.
  - simpl. split; reflexivity.
  - apply Forall_cons in Hin. destruct Hin as [Htk Hrest].
    cbn [fold_left].
    assert (Hwrite : Final.writeAt (Final.nearestAnchor anchors tk)
                       (Final.tk_text tk) cols
                     = <[Final.nearestAnchor anchors tk
                         := Some (Final.tk_text tk)]> cols).
    { unfold Final.writeAt. apply Nat.ltb_lt in Htk. rewrite Htk. reflexivity. }
    rewrite Hwrite.
    destruct (IH (<[Final.nearestAnchor anchors tk
                    := Some (Final.tk_text tk)]> cols)) as [Hlen Hcells].
    { rewrite length_insert. exact Hrest. }
    rewrite length_insert in Hlen, Hcells.
    split; [exact Hlen|]. intros i. rewrite Hcells.
    unfold Final.lastWriter. cbn [rev]. rewrite find_snoc.
    destruct (List.find _ (rev rest)) as [writer|]; [reflexivity|].
    destruct (Nat.eqb_spec (Final.nearestAnchor anchors tk) i) as [<-|Hne].
    + apply Nat.ltb_lt in Htk as Hlt. rewrite Hlt.
      apply list_lookup_insert_eq. exact Htk.
    + apply list_lookup_insert_ne. exact Hne.
Qed.

(** The row written over anchors that fit in it. *)
Lemma mapStat_row (statTokens : list Final.Token) (anchors : list Q)
  (setCount : nat) :
  anchors <> [] -> length anchors <= setCount + 16 ->
  let cols := Final.mapStatTokensToColumns statTokens (Some anchors) setCount in
  length cols = (setCount + 16)%nat
  /\ forall i,
       i < setCount + 16 ->
       cols !! i
       = Some (Some (match Final.lastWriter anchors statTokens i with
                     | Some tk => Final.tk_text tk
                     | None => Final.EMPTY
                     end)).
Proof.
  intros Hsome Hfit cols.
  assert (Hnear : forall tk, Final.nearestAnchor anchors tk < setCount + 16).
  { intros tk. destruct (nearestAnchor_spec anchors tk Hsome) as (a & Ha & _).
    apply lookup_lt_Some in Ha. lia. }
  set (blank := replicate (setCount + 16) (Some Final.EMPTY)).
  assert (Hblank : length blank = (setCount + 16)%nat)
    by (apply length_replicate).
  assert (Hcols : cols = fold_left
                           (fun cols tk =>
                              Final.writeAt (Final.nearestAnchor anchors tk)
                                            (Final.tk_text tk) cols)
                           statTokens blank).
  { unfold cols, Final.mapStatTokensToColumns. cbv zeta.
    change (length Final.POST_SET_FIELDS) with 16%nat. fold blank.
    destruct anchors as [|anchor anchors]; [congruence|].
    destruct statTokens; reflexivity. }
  destruct (writes_last anchors statTokens blank) as [Hlen Hcells].
  { apply List.Forall_forall. intros tk _. rewrite Hblank. apply Hnear. }
  cbv zeta in Hlen, Hcells. rewrite <- Hcols in Hlen, Hcells.
  split; [congruence|].
  intros i Hi. rewrite Hcells, Hblank.
  apply Nat.ltb_lt in Hi as Hlt. rewrite Hlt.
  destruct (Final.lastWriter anchors statTokens i); [reflexivity|].
  unfold blank. apply lookup_replicate_2. exact Hi.
Qed.



(** X20: in the clustering reader the set count is between 3 and 5, the
    anchors are found without an exception, and every row mapped with them
    has as many cells as columns, the set count plus sixteen, none of them
    a hole. *)
Theorem clusterRows_fit (players : list Final.Player) :
  let setCount := Final.detectSetCountFromPlayers players in
  exists anchors,
    Final.inferColumnAnchors players setCount = Some anchors
    /\ Forall (fun p =>
                 let cols :=
                   Final.mapStatTokensToColumns (Final.p_statTokens p) anchors
                                                setCount in
                 length cols = (setCount + 16)%nat
                 /\ (19 <= length cols <= 21)%nat
                 /\ Forall (fun cell => cell <> None) cols) players.
Proof.
  intros setCount.
  assert (Hcount : (3 <= setCount <= 5)%nat).
  { unfold setCount, Final.detectSetCountFromPlayers, Final.MAX_SETS,
      Final.MIN_SETS. cbv zeta. lia. }
  pose proof (anchors_by_tokens players setCount) as Hanchors.
  destruct (flat_map Final.p_statTokens players) as [|tk tokens] eqn:Htokens.
  - exists None. split; [exact Hanchors|].
    apply List.Forall_forall. intros p _. cbv zeta.
    unfold Final.mapStatTokensToColumns. cbv zeta.
    change (length Final.POST_SET_FIELDS) with 16%nat.
    rewrite length_replicate. split; [reflexivity|]. split; [lia|].
    apply List.Forall_forall. intros cell Hcell.
    apply list_elem_of_In, elem_of_replicate in Hcell.
    destruct Hcell as [-> _]. discriminate.
  - destruct Hanchors as (anchors & Hinfer & Hlen).
    exists (Some anchors). split; [exact Hinfer|].
    apply List.Forall_forall. intros p _. cbv zeta.
    destruct (mapStat_row (Final.p_statTokens p) anchors setCount) as [Hrow Hcells].
    { intros ->. simpl in Hlen. lia. }
    { lia. }
    split; [exact Hrow|]. split; [lia|].
    apply Forall_lookup. intros i cell Hi.
    assert (Hlt : i < setCount + 16)
      by (rewrite <- Hrow; apply lookup_lt_Some in Hi; exact Hi).
    rewrite (Hcells i Hlt) in Hi. injection Hi as <-. discriminate.
Qed.

(* ------------------------------------------------------------------ *)
(** ** The text of a line is single-spaced *)

(** A starred class takes the longest prefix, when the continuation
    accepts wherever it is called. *)
Lemma repLoop_star_greedy (p : ascii -> bool) (i : nat) (rest : string) :
  forall fuel idx prev cap,
    (String.length rest < fuel)%nat ->
    repLoop (Cls p) (fun st' => Some (mkFound i (p_idx st') (p_cap st')))
            fuel 0 None (mkPos idx prev rest cap)
    = Some (mkFound i (idx + prefixLength p rest) cap).
Proof.
  induction rest as [|c rest IH]; intros fuel idx prev cap Hfuel;
    (destruct fuel as [|fuel]; [simpl in Hfuel; lia|]);
    rewrite repLoop_star_step; cbn [p_rest p_idx p_cap prefixLength].
  - rewrite Nat.add_0_r. reflexivity.
  - destruct (p c).
    + rewrite IH by (simpl in Hfuel; lia).
      do 2 f_equal. lia.
    + rewrite Nat.add_0_r. reflexivity.
Qed.

(** Where [\s{2,}] matches, and how far. *)
Lemma matchAt_atLeast2 (p : ascii -> bool) (i : nat) (prev : option ascii)
  (s : string) :
  matchAt (atLeast 2 (Cls p)) i prev s
  = match s with
    | String c1 (String c2 s'') =>
        if p c1 && p c2
        then Some (mkFound i (i + 2 + prefixLength p s'') None)
        else None
    | _ => None
    end.
Proof.
  unfold matchAt, atLeast. rewrite run_Rep. cbn [p_rest].
  destruct s as [|c1 s']; [reflexivity|].
  cbn [String.length Nat.add]. rewrite repLoop_due. cbn [run p_rest decr].
  destruct (p c1); [|destruct s'; reflexivity]. cbn [p_idx p_cap andb].
  destruct s' as [|c2 s'']; [reflexivity|].
  cbn [String.length]. rewrite repLoop_due. cbn [run p_rest decr p_idx p_cap].
  destruct (p c2); [|reflexivity].
  rewrite repLoop_star_greedy by lia. do 2 f_equal. lia.
Qed.

Lemma singleSpaced_cons (c : ascii) (s : string) :
  isSpace c && startsWithSpace s = false ->
  singleSpaced s = true -> singleSpaced (String c s) = true.
Proof. intros H Hs. cbn [singleSpaced]. rewrite H, Hs. reflexivity. Qed.

(** Collapsing the runs leaves no two white-space characters in a row;
    after a run the output starts with a character that is not white
    space. *)
Lemma collapse_single (s : string) :
  forall skip i prev,
    singleSpaced (replaceGo (atLeast 2 space) " " skip i prev s) = true
    /\ (skip = prefixLength isSpace s ->
        startsWithSpace (replaceGo (atLeast 2 space) " " skip i prev s) = false).
Proof.
  induction s as [|c s IH]; intros skip i prev.
  - destruct skip; cbn [replaceGo]; [|split; reflexivity].
    unfold space. rewrite matchAt_atLeast2. split; reflexivity.
  - destruct skip as [|skip]; cbn [replaceGo].
    + unfold space. rewrite matchAt_atLeast2. fold space.
      destruct (isSpace c) eqn:Hc.
      * destruct s as [|c2 s''].
        -- cbn [replaceGo]. unfold space. rewrite matchAt_atLeast2.
           split; [apply singleSpaced_cons; [apply andb_false_r|reflexivity]|].
           cbn [prefixLength]. rewrite Hc. discriminate.
        -- cbn [andb]. destruct (isSpace c2) eqn:Hc2.
           ++ replace (Nat.eqb (f_end (mkFound i (i + 2 + prefixLength isSpace s'') None)) i)
                with false by (symmetry; apply Nat.eqb_neq; simpl; lia).
              cbn [f_end].
              replace (i + 2 + prefixLength isSpace s'' - i - 1)%nat
                with (prefixLength isSpace (String c2 s''))
                by (cbn [prefixLength]; rewrite Hc2; lia).
              destruct (IH (prefixLength isSpace (String c2 s'')) (S i) (Some c))
                as [Hsingle Hstart].
              specialize (Hstart eq_refl).
              split.
              ** change (" " ++ ?x)%string with (String " " x).
                 apply singleSpaced_cons; [|exact Hsingle].
                 rewrite Hstart. apply andb_false_r.
              ** cbn [prefixLength]. rewrite Hc. discriminate.
           ++ destruct (IH 0%nat (S i) (Some c)) as [Hsingle Hstart].
              assert (Hzero : 0%nat = prefixLength isSpace (String c2 s''))
                by (cbn [prefixLength]; rewrite Hc2; reflexivity).
              specialize (Hstart Hzero).
              split.
              ** apply singleSpaced_cons; [|exact Hsingle].
                 rewrite Hstart. apply andb_false_r.
              ** cbn [prefixLength]. rewrite Hc. discriminate.
      * assert (Hnone : match s with
                        | String c2 s'' =>
                            if false && isSpace c2
                            then Some (mkFound i (i + 2 + prefixLength isSpace s'') None)
                            else None
                        | EmptyString => None
                        end = None) by (destruct s; reflexivity).
        rewrite Hnone. destruct (IH 0%nat (S i) (Some c)) as [Hsingle _].
        split; [|intros _; cbn [startsWithSpace]; exact Hc].
        apply singleSpaced_cons; [rewrite Hc; reflexivity|exact Hsingle].
    + destruct (IH skip (S i) (Some c)) as [Hsingle Hstart].
      split; [exact Hsingle|]. intros Hskip. apply Hstart.
      cbn [prefixLength] in Hskip. destruct (isSpace c); [lia|discriminate].
Qed.

Lemma singleSpaced_tail (c : ascii) (s : string) :
  singleSpaced (String c s) = true -> singleSpaced s = true.
Proof. cbn [singleSpaced]. intros H. apply andb_true_iff in H. apply H. Qed.

Lemma trimStart_single (s : string) :
  singleSpaced s = true -> singleSpaced (trimStart s) = true.
Proof.
  induction s as [|c s IH]; [reflexivity|]. intros H. cbn [trimStart].
  destruct (isSpace c); [|exact H]. apply IH, (singleSpaced_tail c), H.
Qed.

Lemma trimEnd_start (s : string) :
  startsWithSpace s = false -> startsWithSpace (trimEnd s) = false.
Proof.
  destruct s as [|c s]; [reflexivity|]. cbn [startsWithSpace trimEnd].
  intros Hc. rewrite Hc. cbn [andb startsWithSpace]. exact Hc.
Qed.

Lemma trimEnd_single (s : string) :
  singleSpaced s = true -> singleSpaced (trimEnd s) = true.
Proof.
  induction s as [|c s IH]; [reflexivity|]. intros H.
  cbn [singleSpaced] in H. apply andb_true_iff in H. destruct H as [Hc Hs].
  cbn [trimEnd]. destruct (isSpace c && isEmpty (trimEnd s)) eqn:Hdrop;
    [reflexivity|].
  apply singleSpaced_cons; [|apply IH; exact Hs].
  apply negb_true_iff in Hc. destruct (isSpace c); [|reflexivity].
  cbn [andb] in *. apply trimEnd_start. exact Hc.
Qed.

(** X21: the text [getLineText] gives for a line has no white space at
    either end and no two white-space characters in a row. *)
Theorem getLineText_normal (line : Line) :
  trim (getLineText line) = getLineText line
  /\ startsWithSpace (getLineText line) = false
  /\ singleSpaced (getLineText line) = true.
Proof.
  unfold getLineText. split; [apply trim_idem|]. split.
  - pose proof (trim_head (collapseSpaces
                  (join " " (filterNonEmpty
                     (List.map (fun token => trim (lt_str token))
                               (ln_tokens line)))))) as Hhead.
    destruct (trim _) as [|c rest]; [reflexivity|exact Hhead].
  - unfold trim. apply trimEnd_single, trimStart_single.
    unfold collapseSpaces, replaceAll. apply collapse_single.
Qed.
